(** * Autocalls.uk dynamic logo: the geometry functions

    A shallow embedding of [src/utils/geometry.js] (module [Geometry]), of the
    functions that [scripts/generate-static.js] inlines (module
    [GenerateStatic]) and of the two places of [components/DynamicLogo.jsx]
    that guard or re-implement them (module [DynamicLogo]).

    JavaScript numbers are modelled twice.  The type [number] is the exact
    model: an exact rational, or one of the three IEEE specials [NaN],
    [+Infinity], [-Infinity]; rounding to binary64 and the sign of zero are
    not part of it.  The module [Binary64] has the same functions over the
    kernel's binary64 numbers, with their rounding and their two zeros, and
    [Binary64.exact] gives the exact value of a binary64 number.  A property
    stated over [number] is a property of the exact values; where rounding
    or the sign of zero changes an outcome of the code, the property is
    stated over [Binary64], or the binary64 input at which the outcome
    changes is given with it. *)

From Stdlib Require Import ZArith QArith Qabs Qround Qminmax Lqa Lia Bool List String Ascii.
From Stdlib Require Import DecimalString.
From Stdlib Require Import Floats.PrimFloat Floats.SpecFloat Floats.FloatOps.
From Stdlib Require Import Floats.FloatAxioms.
Import ListNotations.

Local Open Scope Q_scope.

(** ** JavaScript numbers *)

(** The exact model of a number: the value of a binary64 number without its
    rounding, with one zero (the positive one: [1 / 0] is [+Infinity]). *)
Module JSNumber.

Inductive number : Type :=
| NaN
| PInf
| NInf
| Fin (q : Q).

Definition neg (x : number) : number :=
  match x with
  | NaN => NaN
  | PInf => NInf
  | NInf => PInf
  | Fin a => Fin (- a)
  end.

Definition add (x y : number) : number :=
  match x, y with
  | NaN, _ | _, NaN => NaN
  | PInf, NInf | NInf, PInf => NaN
  | PInf, _ | _, PInf => PInf
  | NInf, _ | _, NInf => NInf
  | Fin a, Fin b => Fin (a + b)
  end.

Definition sub (x y : number) : number := add x (neg y).

(** The infinity whose sign is the sign of [q] times the sign of [s]
    ([NaN] for a zero [q]: infinity times zero). *)
Definition inf_signed (s : number) (q : Q) : number :=
  match q ?= 0 with
  | Eq => NaN
  | Gt => s
  | Lt => neg s
  end.

Definition mul (x y : number) : number :=
  match x, y with
  | NaN, _ | _, NaN => NaN
  | Fin a, Fin b => Fin (a * b)
  | Fin a, s => inf_signed s a
  | s, Fin b => inf_signed s b
  | PInf, PInf | NInf, NInf => PInf
  | PInf, NInf | NInf, PInf => NInf
  end.

Definition div (x y : number) : number :=
  match x, y with
  | NaN, _ | _, NaN => NaN
  | Fin a, Fin b =>
      match b ?= 0 with
      | Eq => inf_signed PInf a
      | _ => Fin (a / b)
      end
  | Fin _, _ => Fin 0
  | s, Fin b =>
      match b ?= 0 with
      | Lt => neg s
      | _ => s
      end
  | _, _ => NaN
  end.

Definition le (x y : number) : bool :=
  match x, y with
  | NaN, _ | _, NaN => false
  | NInf, _ | _, PInf => true
  | PInf, _ | _, NInf => false
  | Fin a, Fin b => Qle_bool a b
  end.

Definition lt (x y : number) : bool :=
  match x, y with
  | NaN, _ | _, NaN => false
  | PInf, _ | _, NInf => false
  | NInf, _ | _, PInf => true
  | Fin a, Fin b => negb (Qle_bool b a)
  end.

Definition ge (x y : number) : bool := le y x.
Definition gt (x y : number) : bool := lt y x.

(** [Math.max], [Math.min] and [Math.abs]: a [NaN] argument gives [NaN]. *)
Definition Math_max (x y : number) : number :=
  match x, y with
  | NaN, _ | _, NaN => NaN
  | _, _ => if lt x y then y else x
  end.

Definition Math_min (x y : number) : number :=
  match x, y with
  | NaN, _ | _, NaN => NaN
  | _, _ => if lt y x then y else x
  end.

Definition Math_abs (x : number) : number :=
  match x with
  | NaN => NaN
  | PInf | NInf => PInf
  | Fin a => Fin (Qabs a)
  end.

(** [Number.isFinite] on a number. *)
Definition Number_isFinite (x : number) : bool :=
  match x with
  | Fin _ => true
  | _ => false
  end.

(** Two numbers are the same value: the same special, or equal rationals. *)
Definition same (x y : number) : Prop :=
  match x, y with
  | NaN, NaN | PInf, PInf | NInf, NInf => True
  | Fin a, Fin b => a == b
  | _, _ => False
  end.

End JSNumber.

Export JSNumber.

Coercion Fin : Q >-> number.

Declare Scope num_scope.
Delimit Scope num_scope with num.
Bind Scope num_scope with number.

Notation "x + y" := (add x y) : num_scope.
Notation "x - y" := (sub x y) : num_scope.
Notation "x * y" := (mul x y) : num_scope.
Notation "x / y" := (div x y) : num_scope.
Notation "- x" := (neg x) : num_scope.
Notation "x <=? y" := (le x y) : num_scope.
Notation "x <? y" := (lt x y) : num_scope.
Notation "x >=? y" := (ge x y) (at level 70) : num_scope.
Notation "x >? y" := (gt x y) (at level 70) : num_scope.
Notation "x == y" := (same x y) : num_scope.

Local Open Scope num_scope.

(** ** The platform: dates and the text of a number *)

Module Platform.

(** A [Date] object holds a time value: milliseconds since the epoch, or
    [NaN] for an invalid date. *)
Record Date : Type := mkDate { getTime : number }.

(** The date arguments on which the date functions return: a string or a
    [Date] object ([typeof d === 'string']). *)
Inductive DateArg : Type :=
| DateString (s : string)
| DateObject (d : Date).

(** Any value passed as a date argument: one of the two above, or a value
    without a [getTime] method ([undefined] for an argument left out,
    [null], a number), on which [.getTime()] throws a [TypeError]. *)
Inductive Value : Type :=
| ADate (d : DateArg)
| NotADate.

(** How a call ends: it returns a value or it throws. *)
Inductive Error : Type := TypeError.

Inductive Completion (A : Type) : Type :=
| Return (a : A)
| Throw (e : Error).

Arguments Return {A} a.
Arguments Throw {A} e.

Definition bind {A B : Type} (c : Completion A) (k : A -> Completion B)
    : Completion B :=
  match c with
  | Return a => k a
  | Throw e => Throw e
  end.

(** The time value of a date argument: of the date parsed from the string
    with the suffix that [parseDate] adds, or of the object itself. *)
Definition timeValue (Date_parse : string -> number) (d : DateArg) : number :=
  match d with
  | DateString s => Date_parse (s ++ "T00:00:00Z")%string
  | DateObject o => getTime o
  end.

(** The text of a number inside a template literal ([ToString] of a
    number).  Integers below 10^21 print their decimal digits; the digits of
    any other finite value depend on its binary64 form and are left to
    [other_digits]. *)
Definition Number_toString (other_digits : Q -> string) (x : number) : string :=
  match x with
  | NaN => "NaN"
  | PInf => "Infinity"
  | NInf => "-Infinity"
  | Fin q =>
      let z := Qfloor q in
      if Qeq_bool (inject_Z z) q && (Z.abs z <? 10 ^ 21)%Z
      then NilZero.string_of_int (Z.to_int z)
      else other_digits q
  end.

(** [new Date(s)] as Node (V8) reads the one shape [parseDate] builds from
    a date [YYYY-MM-DD], [YYYY-MM-DDT00:00:00Z]: the time value of that UTC
    midnight for a month from 01 to 12 and a day from 01 to 31, a day past
    the end of its month running over into the next one (2023-02-29 is
    2023-03-01), and [NaN] (an invalid date) for another month or day.  A
    text of another shape is given [NaN] here.  The examples use this
    parser; the theorems are stated for any parser. *)
Definition digit (c : ascii) : option Z :=
  let n := Z.of_N (N_of_ascii c) in
  if ((48 <=? n) && (n <=? 57))%Z then Some (n - 48)%Z else None.

Definition number2 (c1 c2 : ascii) : option Z :=
  match digit c1, digit c2 with
  | Some a, Some b => Some (10 * a + b)%Z
  | _, _ => None
  end.

(** Days from 1970-01-01 to the day [d] of the month [m] of the year [y],
    counted on from the first of the month. *)
Definition days_from_civil (y m d : Z) : Z :=
  let y' := (if m <=? 2 then y - 1 else y)%Z in
  let era := (y' / 400)%Z in
  let yoe := (y' - era * 400)%Z in
  let mp := (if m <=? 2 then m + 9 else m - 3)%Z in
  let doy := ((153 * mp + 2) / 5 + d - 1)%Z in
  let doe := (yoe * 365 + yoe / 4 - yoe / 100 + doy)%Z in
  (era * 146097 + doe - 719468)%Z.

Definition Date_parse_utc (s : string) : number :=
  match s with
  | String y1 (String y2 (String y3 (String y4 (String "-"
      (String m1 (String m2 (String "-" (String d1 (String d2 rest))))))))) =>
      match number2 y1 y2, number2 y3 y4, number2 m1 m2, number2 d1 d2 with
      | Some yh, Some yl, Some m, Some d =>
          let y := (100 * yh + yl)%Z in
          if String.eqb rest "T00:00:00Z"
             && ((1 <=? m) && (m <=? 12) && (1 <=? d) && (d <=? 31))%Z
          then Fin (inject_Z (days_from_civil y m d * 86400000))
          else NaN
      | _, _, _, _ => NaN
      end
  | _ => NaN
  end.

(** [x || d] for a number [x]: 0 and [NaN] are falsy. *)
Definition js_or (x d : number) : number :=
  match x with
  | NaN => d
  | Fin q => if Qeq_bool q 0 then d else x
  | _ => x
  end.

(** A line feed. *)
Definition LF : string := String "010"%char EmptyString.

End Platform.

Export Platform.

(** ** src/utils/geometry.js *)

Module Geometry.

Definition DAYS_IN_10_YEARS : number := 10 * 365.

Definition ANGLE_PER_DAY : number := 360 / DAYS_IN_10_YEARS.

Section Dates.

(** The time value of [new Date(text)]. *)
Variable Date_parse : string -> number.

Definition parseDate (dateStr : string) : Date :=
  mkDate (Date_parse (dateStr ++ "T00:00:00Z")).

Definition daysBetween (startDate endDate : DateArg) : number :=
  let start :=
    match startDate with DateString s => parseDate s | DateObject d => d end in
  let end_ :=
    match endDate with DateString s => parseDate s | DateObject d => d end in
  let diffTime := getTime end_ - getTime start in
  diffTime / (1000 * 60 * 60 * 24).

Definition calculateRotationAngle (startDate currentDate : DateArg) : number :=
  let days := daysBetween startDate currentDate in
  days * ANGLE_PER_DAY.

Definition calculateObservationTickAngle
    (startDate observationDate currentDate : DateArg) : number :=
  let daysToObservation := daysBetween startDate observationDate in
  let angleAtObservation := daysToObservation * ANGLE_PER_DAY in
  let currentRotation := calculateRotationAngle startDate currentDate in
  - angleAtObservation.

End Dates.

Definition mapPerformanceToAngle (performancePercent : number) : number :=
  let pct := Math_max (-50) (Math_min 50 performancePercent) in
  if pct <=? -30 then -90 + ((pct + 30) / 20) * 30
  else if pct <=? -15 then -60 + ((pct + 15) / 15) * 30
  else if pct <=? -5 then -30 + ((pct + 5) / 10) * 30
  else if pct <=? 0 then (pct / 5) * 30
  else if pct <=? 5 then (pct / 5) * 30
  else if pct <=? 15 then 30 + ((pct - 5) / 10) * 30
  else if pct <=? 30 then 60 + ((pct - 15) / 15) * 30
  else 90 + ((pct - 30) / 20) * 30.

Definition easeOutQuad (t : number) : number := t * (2 - t).

Definition mapBarrierToAngle (barrierPercent : number) : number :=
  mapPerformanceToAngle barrierPercent.

Definition mapHurdlePercentToAngle (hurdlePercent : number) : number :=
  let pct := Math_max 50 (Math_min 150 hurdlePercent) in
  if pct <=? 70 then -90 + ((pct - 70) / 20) * 30
  else if pct <=? 85 then -60 + ((pct - 85) / 15) * 30
  else if pct <=? 95 then -30 + ((pct - 95) / 10) * 30
  else if pct <=? 100 then ((pct - 100) / 5) * 30
  else if pct <=? 105 then ((pct - 100) / 5) * 30
  else if pct <=? 115 then 30 + ((pct - 105) / 10) * 30
  else if pct <=? 130 then 60 + ((pct - 115) / 15) * 30
  else 90 + ((pct - 130) / 20) * 30.

Definition calculatePerformance (initialLevel currentLevel : number) : number :=
  ((currentLevel - initialLevel) / initialLevel) * 100.

Record Point : Type := mkPoint { x : number; y : number }.

Section Paths.

Variable Math_PI : number.
Variables Math_cos Math_sin : number -> number.
Variable other_digits : Q -> string.

Definition angleToCoords (angleDeg radius cx cy : number) : Point :=
  let adjustedAngle := angleDeg - 90 in
  let radians := (adjustedAngle * Math_PI) / 180 in
  {| x := cx + radius * Math_cos radians;
     y := cy + radius * Math_sin radians |}.

(** [`${v}`] for a number [v]. *)
Definition text (v : number) : string := Number_toString other_digits v.

Definition describeArc (cx cy radius startAngle endAngle : number) : string :=
  let start := angleToCoords startAngle radius cx cy in
  let end_ := angleToCoords endAngle radius cx cy in
  let largeArcFlag : number :=
    if Math_abs (endAngle - startAngle) >? 180 then 1 else 0 in
  let sweepFlag : number := if endAngle >? startAngle then 1 else 0 in
  ("M " ++ text (x start) ++ " " ++ text (y start)
   ++ " A " ++ text radius ++ " " ++ text radius
   ++ " 0 " ++ text largeArcFlag ++ " " ++ text sweepFlag
   ++ " " ++ text (x end_) ++ " " ++ text (y end_))%string.

End Paths.

(** [normalizeAngle]: the two [while] loops, each run for at most [fuel]
    tests of its condition; [None] when the fuel does not reach the exit. *)
Fixpoint while_above (fuel : nat) (angle : number) : option number :=
  match fuel with
  | O => None
  | S fuel' =>
      if angle >? 180 then while_above fuel' (angle - 360) else Some angle
  end.

Fixpoint while_below (fuel : nat) (angle : number) : option number :=
  match fuel with
  | O => None
  | S fuel' =>
      if angle <? -180 then while_below fuel' (angle + 360) else Some angle
  end.

Definition normalizeAngle (fuel : nat) (angle : number) : option number :=
  match while_above fuel angle with
  | Some angle' => while_below fuel angle'
  | None => None
  end.

Definition VIEWBOX_SIZE : number := 1024.

Definition CENTER : number := VIEWBOX_SIZE / 2.

(** An element of [existingAngles], and the object that [avoidCollision]
    returns. *)
Module Existing.
Record t : Type := mk { angle : number; hasRadialOffset : bool }.
End Existing.

Module Adjusted.
Record t : Type := mk { angle : number; radialOffset : number }.
End Adjusted.

(** The [for ... of] loop of [avoidCollision], with the two variables it
    updates; every call of [normalizeAngle] gets [fuel]. *)
Fixpoint avoidCollision_loop (fuel : nat) (angle radialOffset angularJitter : number)
    (existingAngles : list Existing.t) (adjustedAngle offset : number)
    : option Adjusted.t :=
  match existingAngles with
  | [] => Some (Adjusted.mk adjustedAngle offset)
  | existing :: rest =>
      match normalizeAngle fuel (angle - Existing.angle existing) with
      | None => None
      | Some normalized =>
          let diff := Math_abs normalized in
          if diff <? 5 then
            if negb (Existing.hasRadialOffset existing) then
              avoidCollision_loop fuel angle radialOffset angularJitter rest
                adjustedAngle radialOffset
            else
              avoidCollision_loop fuel angle radialOffset angularJitter rest
                (adjustedAngle
                 + angularJitter
                   * (if angle >? Existing.angle existing then 1 else -1))
                offset
          else
            avoidCollision_loop fuel angle radialOffset angularJitter rest
              adjustedAngle offset
      end
  end.

(** [radialOffset = 6] and [angularJitter = 2] when the argument is left
    out ([None]). *)
Definition avoidCollision (fuel : nat) (angle : number)
    (existingAngles : list Existing.t)
    (radialOffset angularJitter : option number) : option Adjusted.t :=
  let radialOffset := match radialOffset with Some r => r | None => Fin 6 end in
  let angularJitter := match angularJitter with Some j => j | None => Fin 2 end in
  let adjustedAngle := angle in
  let offset : number := 0 in
  avoidCollision_loop fuel angle radialOffset angularJitter existingAngles
    adjustedAngle offset.

Section SegmentPaths.

Variable Math_PI : number.
Variables Math_cos Math_sin : number -> number.
Variable other_digits : Q -> string.

Let coords (angleDeg radius : number) : Point :=
  angleToCoords Math_PI Math_cos Math_sin angleDeg radius CENTER CENTER.

Let txt (v : number) : string := text other_digits v.

(** [gapAngle = 3] when the argument is left out. *)
Definition generateSegmentPath
    (segmentIndex totalSegments innerRadius outerRadius : number)
    (gapAngle : option number) : string :=
  let gapAngle := match gapAngle with Some g => g | None => Fin 3 end in
  let segmentAngle := 360 / totalSegments in
  let startAngle := segmentIndex * segmentAngle + gapAngle / 2 in
  let endAngle := (segmentIndex + 1) * segmentAngle - gapAngle / 2 in
  let innerStart := coords startAngle innerRadius in
  let innerEnd := coords endAngle innerRadius in
  let outerStart := coords startAngle outerRadius in
  let outerEnd := coords endAngle outerRadius in
  let largeArc : number := if segmentAngle - gapAngle >? 180 then 1 else 0 in
  (LF ++ "    M " ++ txt (x innerStart) ++ " " ++ txt (y innerStart)
   ++ LF ++ "    A " ++ txt innerRadius ++ " " ++ txt innerRadius
   ++ " 0 " ++ txt largeArc ++ " 1 " ++ txt (x innerEnd) ++ " " ++ txt (y innerEnd)
   ++ LF ++ "    L " ++ txt (x outerEnd) ++ " " ++ txt (y outerEnd)
   ++ LF ++ "    A " ++ txt outerRadius ++ " " ++ txt outerRadius
   ++ " 0 " ++ txt largeArc ++ " 0 " ++ txt (x outerStart) ++ " " ++ txt (y outerStart)
   ++ LF ++ "    Z" ++ LF ++ "  ")%string.

End SegmentPaths.

(** [isSegmentElapsed]; [rotatedEdge] is computed and not used. *)
Definition isSegmentElapsed (fuel : nat)
    (segmentIndex totalSegments rotationAngle : number) : option bool :=
  let segmentAngle := 360 / totalSegments in
  let segmentLeadingEdge := (segmentIndex + 1) * segmentAngle in
  match normalizeAngle fuel (segmentLeadingEdge + rotationAngle) with
  | None => None
  | Some rotatedEdge => Some (rotationAngle >=? segmentLeadingEdge)
  end.

End Geometry.

(** ** The date functions of geometry.js on any value

    [daysBetween] calls [.getTime()] on an argument that is not a string;
    on a value without that method the call throws.  The functions below
    are the ones of [Geometry] with that outcome: every call is evaluated,
    the one of [calculateRotationAngle] inside
    [calculateObservationTickAngle] too, whose result is not used. *)

Module GeometryJS.

Notation "x <- c ;; k" := (bind c (fun x => k))
  (at level 61, c at next level, right associativity).

Section Dates.

Variable Date_parse : string -> number.

(** [typeof d === 'string' ? parseDate(d) : d], followed by [.getTime()]. *)
Definition getTimeOf (d : Value) : Completion number :=
  match d with
  | ADate (DateString s) => Return (getTime (Geometry.parseDate Date_parse s))
  | ADate (DateObject d') => Return (getTime d')
  | NotADate => Throw TypeError
  end.

(** [end.getTime()] is evaluated before [start.getTime()]. *)
Definition daysBetween (startDate endDate : Value) : Completion number :=
  e <- getTimeOf endDate ;;
  s <- getTimeOf startDate ;;
  let diffTime := e - s in
  Return (diffTime / (1000 * 60 * 60 * 24)).

Definition calculateRotationAngle (startDate currentDate : Value)
    : Completion number :=
  days <- daysBetween startDate currentDate ;;
  Return (days * Geometry.ANGLE_PER_DAY).

Definition calculateObservationTickAngle
    (startDate observationDate currentDate : Value) : Completion number :=
  daysToObservation <- daysBetween startDate observationDate ;;
  let angleAtObservation := daysToObservation * Geometry.ANGLE_PER_DAY in
  currentRotation <- calculateRotationAngle startDate currentDate ;;
  Return (- angleAtObservation).

End Dates.

End GeometryJS.

(** ** scripts/generate-static.js *)

Module GenerateStatic.

Definition DAYS_IN_10_YEARS : number := 10 * 365.

Definition ANGLE_PER_DAY : number := 360 / DAYS_IN_10_YEARS.

Section Dates.

Variable Date_parse : string -> number.

Definition parseDate (dateStr : string) : Date :=
  mkDate (Date_parse (dateStr ++ "T00:00:00Z")).

Definition daysBetween (startDate endDate : DateArg) : number :=
  let start :=
    match startDate with DateString s => parseDate s | DateObject d => d end in
  let end_ :=
    match endDate with DateString s => parseDate s | DateObject d => d end in
  (getTime end_ - getTime start) / (1000 * 60 * 60 * 24).

Definition calculateRotationAngle (startDate currentDate : DateArg) : number :=
  daysBetween startDate currentDate * ANGLE_PER_DAY.

End Dates.

Definition calculatePerformance (initialLevel currentLevel : number) : number :=
  ((currentLevel - initialLevel) / initialLevel) * 100.

Definition easeOutQuad (t : number) : number := t * (2 - t).

Definition anchors : list (number * number) :=
  [ (Fin (-50), Fin (-120)); (Fin (-30), Fin (-90)); (Fin (-5), Fin (-30));
    (Fin 0, Fin 0);
    (Fin 5, Fin 30); (Fin 30, Fin 90); (Fin 50, Fin 120) ].

(** The [for] loop of [mapPerformanceToAngle]: the pairs
    [(anchors[i], anchors[i + 1])] for [i = 0 .. length - 2] in order,
    returning at the first pair that brackets [clamped]; [0] after the loop. *)
Fixpoint anchor_loop (clamped : number) (rest : list (number * number)) : number :=
  match rest with
  | (p1, a1) :: (((p2, a2) :: _) as rest') =>
      if (clamped >=? p1) && (clamped <=? p2) then
        let t := (clamped - p1) / (p2 - p1) in
        a1 + easeOutQuad t * (a2 - a1)
      else anchor_loop clamped rest'
  | _ => 0
  end.

Definition mapPerformanceToAngle (performancePercent : number) : number :=
  let clamped := Math_max (-50) (Math_min 50 performancePercent) in
  anchor_loop clamped anchors.

Definition mapBarrierToAngle (barrierPercent : number) : number :=
  let absBarrier := Math_abs barrierPercent in
  - (90 + (absBarrier - 30) * 1.5).

Definition VIEWBOX_SIZE : number := 1024.

Definition CENTER : number := VIEWBOX_SIZE / 2.

Section SegmentPaths.

Variable Math_PI : number.
Variables Math_cos Math_sin : number -> number.
Variable other_digits : Q -> string.

Definition angleToCoords (angleDeg radius cx cy : number) : Geometry.Point :=
  let adjustedAngle := angleDeg - 90 in
  let radians := (adjustedAngle * Math_PI) / 180 in
  {| Geometry.x := cx + radius * Math_cos radians;
     Geometry.y := cy + radius * Math_sin radians |}.

Let coords (angleDeg radius : number) : Geometry.Point :=
  angleToCoords angleDeg radius CENTER CENTER.

Let txt (v : number) : string := Number_toString other_digits v.

Definition generateSegmentPath
    (segmentIndex totalSegments innerRadius outerRadius : number)
    (gapAngle : option number) : string :=
  let gapAngle := match gapAngle with Some g => g | None => Fin 3 end in
  let segmentAngle := 360 / totalSegments in
  let startAngle := segmentIndex * segmentAngle + gapAngle / 2 in
  let endAngle := (segmentIndex + 1) * segmentAngle - gapAngle / 2 in
  let innerStart := coords startAngle innerRadius in
  let innerEnd := coords endAngle innerRadius in
  let outerStart := coords startAngle outerRadius in
  let outerEnd := coords endAngle outerRadius in
  let largeArc : number := if segmentAngle - gapAngle >? 180 then 1 else 0 in
  ("M " ++ txt (Geometry.x innerStart) ++ " " ++ txt (Geometry.y innerStart)
   ++ " A " ++ txt innerRadius ++ " " ++ txt innerRadius
   ++ " 0 " ++ txt largeArc ++ " 1 "
   ++ txt (Geometry.x innerEnd) ++ " " ++ txt (Geometry.y innerEnd)
   ++ " L " ++ txt (Geometry.x outerEnd) ++ " " ++ txt (Geometry.y outerEnd)
   ++ " A " ++ txt outerRadius ++ " " ++ txt outerRadius
   ++ " 0 " ++ txt largeArc ++ " 0 "
   ++ txt (Geometry.x outerStart) ++ " " ++ txt (Geometry.y outerStart)
   ++ " Z")%string.

End SegmentPaths.

(** Inside [generateStaticSVG]: whether the ring segment [i] is drawn as
    elapsed, the angle of the tick of an observation, and the labels of the
    scale with their angles. *)
Section Snapshot.

Variable Date_parse : string -> number.

Definition isElapsed (start_date current_date : DateArg) (i : number) : bool :=
  let elapsedAngle := daysBetween Date_parse start_date current_date * ANGLE_PER_DAY in
  elapsedAngle >? (i + 1) * 36.

(** The angle of the [rotate(...)] of the two groups, the one of the ring
    segments and the one of the ticks. *)
Definition rotationAngle (start_date current_date : DateArg) : number :=
  calculateRotationAngle Date_parse start_date current_date.

Definition tickAngle (start_date current_date obs_date : DateArg) : number :=
  let rotationAngle := calculateRotationAngle Date_parse start_date current_date in
  let daysToObs := daysBetween Date_parse start_date obs_date in
  - (daysToObs * ANGLE_PER_DAY) + rotationAngle.

(** Where a tick is drawn: at [tickAngle] inside a group that is itself
    rotated by [rotationAngle]. *)
Definition tickOnScreen (start_date current_date obs_date : DateArg) : number :=
  tickAngle start_date current_date obs_date
  + rotationAngle start_date current_date.

End Snapshot.

Definition scaleMarkers : list (number * string) :=
  [ (Fin 0, "0%"); (Fin 30, "+5%"); (Fin 90, "+30%"); (Fin 120, "+50%");
    (Fin (-30), "-5%"); (Fin (-90), "-30%"); (Fin (-120), "-50%") ]%string.

End GenerateStatic.

(** ** components/DynamicLogo.jsx *)

Module DynamicLogo.

(** [barrierAngle]: the guard in front of [mapBarrierToAngle], for a
    [barrier_percent] that is a number ([Number] leaves it as it is). *)
Definition barrierAngle (barrier_percent : number) : number :=
  let num := barrier_percent in
  if negb (Number_isFinite num) then 0
  else Geometry.mapBarrierToAngle num.

(** An observation record of the input data. *)
Record Observation : Type :=
  mkObservation { date : string; hurdle_percent : number; triggered : bool }.

(** [nextObsAngle], from [nextObservation]; [None] is [null], for the
    observation and for the angle. *)
Definition nextObsAngle (nextObservation : option Observation) : option number :=
  match nextObservation with
  | None => None
  | Some nextObservation' =>
      let hurdlePercent := hurdle_percent nextObservation' in
      if negb (Number_isFinite hurdlePercent) then None
      else Some (Geometry.mapHurdlePercentToAngle hurdlePercent)
  end.

(** The component's own [normalizeAngle]: its second loop tests
    [angle <= -180]. *)
Fixpoint while_not_above (fuel : nat) (angle : number) : option number :=
  match fuel with
  | O => None
  | S fuel' =>
      if angle <=? -180 then while_not_above fuel' (angle + 360) else Some angle
  end.

Definition normalizeAngle (fuel : nat) (angle : number) : option number :=
  match Geometry.while_above fuel angle with
  | Some angle' => while_not_above fuel angle'
  | None => None
  end.

(** [pointerAngle]: the angle of the pointer for the two index levels. *)
Definition pointerAngle (initial_strike_level current_level : number) : number :=
  let performance := Geometry.calculatePerformance initial_strike_level current_level in
  Geometry.mapPerformanceToAngle performance.

Section LevelArrows.

(** The time value of [new Date(text)]. *)
Variable Date_parse : string -> number.

(** The [reduce] of [finalIndexLevel], from [latest] ([None] is [null]). *)
Fixpoint reduce_latest (latest : option Observation) (observations : list Observation)
    : option Observation :=
  match observations with
  | [] => latest
  | obs :: rest =>
      reduce_latest
        (Some
           match latest with
           | None => obs
           | Some latest' =>
               if Date_parse (date obs) >? Date_parse (date latest')
               then obs else latest'
           end)
        rest
  end.

Definition finalIndexLevel (observations : list Observation) : number :=
  match observations with
  | [] => 100
  | _ :: _ =>
      match reduce_latest None observations with
      | Some lastObs =>
          if Number_isFinite (hurdle_percent lastObs) then hurdle_percent lastObs
          else 100
      | None => 100
      end
  end.

Definition finalIndexAngle (observations : list Observation) : number :=
  Geometry.mapHurdlePercentToAngle (js_or (finalIndexLevel observations) 100).

End LevelArrows.

(** [renderHurdles]: the angle of the N indicator; [None] when none is
    drawn. *)
Definition nextAngle (observations : list Observation) (is_called : bool)
    : option number :=
  match find (fun obs => negb (triggered obs)) observations with
  | Some nextObs =>
      if negb is_called
      then Some (Geometry.mapPerformanceToAngle (hurdle_percent nextObs - 100))
      else None
  | None => None
  end.

(** [renderScaleMarkers]: the labels of the scale with their angles. *)
Definition markers : list (number * string) :=
  [ (Fin 0, "0%"); (Fin 30, "+5%"); (Fin 90, "+30%"); (Fin 120, "+50%");
    (Fin (-30), "-5%"); (Fin (-90), "-30%"); (Fin (-120), "-50%") ]%string.

Definition VIEWBOX : number := 512.

Definition CENTER : number := VIEWBOX / 2.

Section Paths.

Variable Math_PI : number.
Variables Math_cos Math_sin : number -> number.
Variable other_digits : Q -> string.

Definition toRad (deg : number) : number := ((deg - 90) * Math_PI) / 180.

Definition polarToCart (angle radius : number) : Geometry.Point :=
  {| Geometry.x := CENTER + radius * Math_cos (toRad angle);
     Geometry.y := CENTER + radius * Math_sin (toRad angle) |}.

Let txt (v : number) : string := Number_toString other_digits v.

(** The path of a ring segment between two angles, from its four corners
    and its large-arc flag. *)
Let path (startAngle endAngle innerR outerR largeArc : number) : string :=
  let innerStart := polarToCart startAngle innerR in
  let innerEnd := polarToCart endAngle innerR in
  let outerStart := polarToCart startAngle outerR in
  let outerEnd := polarToCart endAngle outerR in
  ("M " ++ txt (Geometry.x innerStart) ++ " " ++ txt (Geometry.y innerStart)
   ++ " A " ++ txt innerR ++ " " ++ txt innerR
   ++ " 0 " ++ txt largeArc ++ " 1 "
   ++ txt (Geometry.x innerEnd) ++ " " ++ txt (Geometry.y innerEnd)
   ++ " L " ++ txt (Geometry.x outerEnd) ++ " " ++ txt (Geometry.y outerEnd)
   ++ " A " ++ txt outerR ++ " " ++ txt outerR
   ++ " 0 " ++ txt largeArc ++ " 0 "
   ++ txt (Geometry.x outerStart) ++ " " ++ txt (Geometry.y outerStart)
   ++ " Z")%string.

Definition generateSegmentPath (index total innerR outerR gap : number) : string :=
  let segmentAngle := 360 / total in
  let startAngle := index * segmentAngle + gap / 2 in
  let endAngle := (index + 1) * segmentAngle - gap / 2 in
  let largeArc : number := if endAngle - startAngle >? 180 then 1 else 0 in
  path startAngle endAngle innerR outerR largeArc.

Definition generatePartialSegmentPath (startAngle endAngle innerR outerR : number)
    : string :=
  let '(startAngle, endAngle) :=
    if startAngle >? endAngle then (endAngle, startAngle)
    else (startAngle, endAngle) in
  let arcSpan := endAngle - startAngle in
  let largeArc : number := if arcSpan >? 180 then 1 else 0 in
  path startAngle endAngle innerR outerR largeArc.

End Paths.

End DynamicLogo.

(** ** The same functions over IEEE binary64

    The functions once more over the kernel's binary64 numbers, with the
    rounding and the two zeros of the JavaScript engine.  [a > b] is written
    [b <? a] and [a >= b] is written [b <=? a]; both are false on [NaN], as
    in JavaScript. *)

Module Binary64.

Local Open Scope float_scope.

Definition Math_max (x y : float) : float :=
  if is_nan x || is_nan y then nan else if x <? y then y else x.

Definition Math_min (x y : float) : float :=
  if is_nan x || is_nan y then nan else if y <? x then y else x.

Definition Math_abs (x : float) : float := abs x.

(** The exact value of a binary64 number: both zeros are [0]. *)
Definition exact (x : float) : number :=
  match Prim2SF x with
  | S754_zero _ => Fin 0
  | S754_infinity false => PInf
  | S754_infinity true => NInf
  | S754_nan => NaN
  | S754_finite sign m e =>
      let magnitude :=
        if (0 <=? e)%Z then inject_Z (Z.pos m * 2 ^ e)
        else Qmake (Z.pos m) (Z.to_pos (2 ^ (- e))) in
      Fin (if sign then Qopp magnitude else magnitude)
  end.

(** [`${v}`] for a binary64 number [v]. *)
Definition text (other_digits : Q -> string) (v : float) : string :=
  Number_toString other_digits (exact v).

Record Date : Type := mkDate { getTime : float }.

Module Geometry.

Definition DAYS_IN_10_YEARS : float := 10 * 365.

Definition ANGLE_PER_DAY : float := 360 / DAYS_IN_10_YEARS.

(** [daysBetween] and [calculateRotationAngle] on two [Date] objects. *)
Definition daysBetween (startDate endDate : Date) : float :=
  let start := startDate in
  let end_ := endDate in
  let diffTime := getTime end_ - getTime start in
  diffTime / (1000 * 60 * 60 * 24).

Definition calculateRotationAngle (startDate currentDate : Date) : float :=
  let days := daysBetween startDate currentDate in
  days * ANGLE_PER_DAY.

Definition calculatePerformance (initialLevel currentLevel : float) : float :=
  ((currentLevel - initialLevel) / initialLevel) * 100.

Definition mapPerformanceToAngle (performancePercent : float) : float :=
  let pct := Math_max (-50) (Math_min 50 performancePercent) in
  if pct <=? -30 then -90 + ((pct + 30) / 20) * 30
  else if pct <=? -15 then -60 + ((pct + 15) / 15) * 30
  else if pct <=? -5 then -30 + ((pct + 5) / 10) * 30
  else if pct <=? 0 then (pct / 5) * 30
  else if pct <=? 5 then (pct / 5) * 30
  else if pct <=? 15 then 30 + ((pct - 5) / 10) * 30
  else if pct <=? 30 then 60 + ((pct - 15) / 15) * 30
  else 90 + ((pct - 30) / 20) * 30.

Definition mapBarrierToAngle (barrierPercent : float) : float :=
  mapPerformanceToAngle barrierPercent.

Definition mapHurdlePercentToAngle (hurdlePercent : float) : float :=
  let pct := Math_max 50 (Math_min 150 hurdlePercent) in
  if pct <=? 70 then -90 + ((pct - 70) / 20) * 30
  else if pct <=? 85 then -60 + ((pct - 85) / 15) * 30
  else if pct <=? 95 then -30 + ((pct - 95) / 10) * 30
  else if pct <=? 100 then ((pct - 100) / 5) * 30
  else if pct <=? 105 then ((pct - 100) / 5) * 30
  else if pct <=? 115 then 30 + ((pct - 105) / 10) * 30
  else if pct <=? 130 then 60 + ((pct - 115) / 15) * 30
  else 90 + ((pct - 130) / 20) * 30.

Fixpoint while_above (fuel : nat) (angle : float) : option float :=
  match fuel with
  | O => None
  | S fuel' =>
      if 180 <? angle then while_above fuel' (angle - 360) else Some angle
  end.

Fixpoint while_below (fuel : nat) (angle : float) : option float :=
  match fuel with
  | O => None
  | S fuel' =>
      if angle <? -180 then while_below fuel' (angle + 360) else Some angle
  end.

Definition normalizeAngle (fuel : nat) (angle : float) : option float :=
  match while_above fuel angle with
  | Some angle' => while_below fuel angle'
  | None => None
  end.

Definition calculateObservationTickAngle
    (startDate observationDate currentDate : Date) : float :=
  let daysToObservation := daysBetween startDate observationDate in
  let angleAtObservation := daysToObservation * ANGLE_PER_DAY in
  let currentRotation := calculateRotationAngle startDate currentDate in
  - angleAtObservation.

Definition easeOutQuad (t : float) : float := t * (2 - t).

Definition VIEWBOX_SIZE : float := 1024.

Definition CENTER : float := VIEWBOX_SIZE / 2.

Record Point : Type := mkPoint { x : float; y : float }.

Section Paths.

Variable Math_PI : float.
Variables Math_cos Math_sin : float -> float.
Variable other_digits : Q -> string.

Definition angleToCoords (angleDeg radius cx cy : float) : Point :=
  let adjustedAngle := angleDeg - 90 in
  let radians := (adjustedAngle * Math_PI) / 180 in
  {| x := cx + radius * Math_cos radians;
     y := cy + radius * Math_sin radians |}.

Let txt (v : float) : string := text other_digits v.

Definition describeArc (cx cy radius startAngle endAngle : float) : string :=
  let start := angleToCoords startAngle radius cx cy in
  let end_ := angleToCoords endAngle radius cx cy in
  let largeArcFlag : float :=
    if 180 <? Math_abs (endAngle - startAngle) then 1 else 0 in
  let sweepFlag : float := if startAngle <? endAngle then 1 else 0 in
  ("M " ++ txt (x start) ++ " " ++ txt (y start)
   ++ " A " ++ txt radius ++ " " ++ txt radius
   ++ " 0 " ++ txt largeArcFlag ++ " " ++ txt sweepFlag
   ++ " " ++ txt (x end_) ++ " " ++ txt (y end_))%string.

Definition generateSegmentPath
    (segmentIndex totalSegments innerRadius outerRadius : float)
    (gapAngle : option float) : string :=
  let gapAngle := match gapAngle with Some g => g | None => 3 end in
  let segmentAngle := 360 / totalSegments in
  let startAngle := segmentIndex * segmentAngle + gapAngle / 2 in
  let endAngle := (segmentIndex + 1) * segmentAngle - gapAngle / 2 in
  let innerStart := angleToCoords startAngle innerRadius CENTER CENTER in
  let innerEnd := angleToCoords endAngle innerRadius CENTER CENTER in
  let outerStart := angleToCoords startAngle outerRadius CENTER CENTER in
  let outerEnd := angleToCoords endAngle outerRadius CENTER CENTER in
  let largeArc : float := if 180 <? segmentAngle - gapAngle then 1 else 0 in
  (LF ++ "    M " ++ txt (x innerStart) ++ " " ++ txt (y innerStart)
   ++ LF ++ "    A " ++ txt innerRadius ++ " " ++ txt innerRadius
   ++ " 0 " ++ txt largeArc ++ " 1 " ++ txt (x innerEnd) ++ " " ++ txt (y innerEnd)
   ++ LF ++ "    L " ++ txt (x outerEnd) ++ " " ++ txt (y outerEnd)
   ++ LF ++ "    A " ++ txt outerRadius ++ " " ++ txt outerRadius
   ++ " 0 " ++ txt largeArc ++ " 0 " ++ txt (x outerStart) ++ " " ++ txt (y outerStart)
   ++ LF ++ "    Z" ++ LF ++ "  ")%string.

End Paths.

Module Existing.
Record t : Type := mk { angle : float; hasRadialOffset : bool }.
End Existing.

Module Adjusted.
Record t : Type := mk { angle : float; radialOffset : float }.
End Adjusted.

Fixpoint avoidCollision_loop (fuel : nat) (angle radialOffset angularJitter : float)
    (existingAngles : list Existing.t) (adjustedAngle offset : float)
    : option Adjusted.t :=
  match existingAngles with
  | [] => Some (Adjusted.mk adjustedAngle offset)
  | existing :: rest =>
      match normalizeAngle fuel (angle - Existing.angle existing) with
      | None => None
      | Some normalized =>
          let diff := Math_abs normalized in
          if diff <? 5 then
            if negb (Existing.hasRadialOffset existing) then
              avoidCollision_loop fuel angle radialOffset angularJitter rest
                adjustedAngle radialOffset
            else
              avoidCollision_loop fuel angle radialOffset angularJitter rest
                (adjustedAngle
                 + angularJitter
                   * (if Existing.angle existing <? angle then 1 else -1))
                offset
          else
            avoidCollision_loop fuel angle radialOffset angularJitter rest
              adjustedAngle offset
      end
  end.

Definition avoidCollision (fuel : nat) (angle : float)
    (existingAngles : list Existing.t)
    (radialOffset angularJitter : option float) : option Adjusted.t :=
  let radialOffset := match radialOffset with Some r => r | None => 6 end in
  let angularJitter := match angularJitter with Some j => j | None => 2 end in
  let adjustedAngle := angle in
  let offset : float := 0 in
  avoidCollision_loop fuel angle radialOffset angularJitter existingAngles
    adjustedAngle offset.

Definition isSegmentElapsed (fuel : nat)
    (segmentIndex totalSegments rotationAngle : float) : option bool :=
  let segmentAngle := 360 / totalSegments in
  let segmentLeadingEdge := (segmentIndex + 1) * segmentAngle in
  match normalizeAngle fuel (segmentLeadingEdge + rotationAngle) with
  | None => None
  | Some rotatedEdge => Some (segmentLeadingEdge <=? rotationAngle)
  end.

End Geometry.

Module GenerateStatic.

Definition easeOutQuad (t : float) : float := t * (2 - t).

Definition anchors : list (float * float) :=
  [ (-50, -120); (-30, -90); (-5, -30); (0, 0); (5, 30); (30, 90); (50, 120) ].

Fixpoint anchor_loop (clamped : float) (rest : list (float * float)) : float :=
  match rest with
  | (p1, a1) :: (((p2, a2) :: _) as rest') =>
      if (p1 <=? clamped) && (clamped <=? p2) then
        let t := (clamped - p1) / (p2 - p1) in
        a1 + easeOutQuad t * (a2 - a1)
      else anchor_loop clamped rest'
  | _ => 0
  end.

Definition mapPerformanceToAngle (performancePercent : float) : float :=
  let clamped := Math_max (-50) (Math_min 50 performancePercent) in
  anchor_loop clamped anchors.

Definition mapBarrierToAngle (barrierPercent : float) : float :=
  let absBarrier := Math_abs barrierPercent in
  - (90 + (absBarrier - 30) * 1.5).

(** [tickAngle] inside [generateStaticSVG], on [Date] objects. *)
Definition tickAngle (start_date current_date obs_date : Date) : float :=
  let rotationAngle := Geometry.calculateRotationAngle start_date current_date in
  let daysToObs := Geometry.daysBetween start_date obs_date in
  - (daysToObs * Geometry.ANGLE_PER_DAY) + rotationAngle.

End GenerateStatic.

Module DynamicLogo.

Definition pointerAngle (initial_strike_level current_level : float) : float :=
  let performance := Geometry.calculatePerformance initial_strike_level current_level in
  Geometry.mapPerformanceToAngle performance.

Definition VIEWBOX : float := 512.

Definition CENTER : float := VIEWBOX / 2.

Section Paths.

Variable Math_PI : float.
Variables Math_cos Math_sin : float -> float.
Variable other_digits : Q -> string.

Definition toRad (deg : float) : float := ((deg - 90) * Math_PI) / 180.

Definition polarToCart (angle radius : float) : Geometry.Point :=
  {| Geometry.x := CENTER + radius * Math_cos (toRad angle);
     Geometry.y := CENTER + radius * Math_sin (toRad angle) |}.

Let txt (v : float) : string := text other_digits v.

Let path (startAngle endAngle innerR outerR largeArc : float) : string :=
  let innerStart := polarToCart startAngle innerR in
  let innerEnd := polarToCart endAngle innerR in
  let outerStart := polarToCart startAngle outerR in
  let outerEnd := polarToCart endAngle outerR in
  ("M " ++ txt (Geometry.x innerStart) ++ " " ++ txt (Geometry.y innerStart)
   ++ " A " ++ txt innerR ++ " " ++ txt innerR
   ++ " 0 " ++ txt largeArc ++ " 1 "
   ++ txt (Geometry.x innerEnd) ++ " " ++ txt (Geometry.y innerEnd)
   ++ " L " ++ txt (Geometry.x outerEnd) ++ " " ++ txt (Geometry.y outerEnd)
   ++ " A " ++ txt outerR ++ " " ++ txt outerR
   ++ " 0 " ++ txt largeArc ++ " 0 "
   ++ txt (Geometry.x outerStart) ++ " " ++ txt (Geometry.y outerStart)
   ++ " Z")%string.

Definition generateSegmentPath (index total innerR outerR gap : float) : string :=
  let segmentAngle := 360 / total in
  let startAngle := index * segmentAngle + gap / 2 in
  let endAngle := (index + 1) * segmentAngle - gap / 2 in
  let largeArc : float := if 180 <? endAngle - startAngle then 1 else 0 in
  path startAngle endAngle innerR outerR largeArc.

Definition generatePartialSegmentPath (startAngle endAngle innerR outerR : float)
    : string :=
  let '(startAngle, endAngle) :=
    if endAngle <? startAngle then (endAngle, startAngle)
    else (startAngle, endAngle) in
  let arcSpan := endAngle - startAngle in
  let largeArc : float := if 180 <? arcSpan then 1 else 0 in
  path startAngle endAngle innerR outerR largeArc.

End Paths.

End DynamicLogo.

(** The [2 n + 1] consecutive binary64 numbers around [x], and whether a
    function is non-decreasing along a list of inputs. *)
Fixpoint upwards (n : nat) (x : float) : list float :=
  match n with
  | O => [x]
  | S n' => x :: upwards n' (next_up x)
  end.

Fixpoint downwards (n : nat) (x : float) : float :=
  match n with
  | O => x
  | S n' => downwards n' (next_down x)
  end.

Definition neighbours (n : nat) (x : float) : list float :=
  upwards (2 * n) (downwards n x).

Fixpoint ordered_on (f : float -> float) (inputs : list float) : bool :=
  match inputs with
  | a :: ((b :: _) as rest) => (f a <=? f b) && ordered_on f rest
  | _ => true
  end.

End Binary64.

(** ** The mappings as the specification words them *)

Module Spec.

(** An anchor is a pair (percent, degrees); a segment is a pair of
    neighbouring anchors of a table. *)
Definition anchor : Type := (Q * Q)%type.
Definition segment : Type := (anchor * anchor)%type.

Definition segments (table : list anchor) : list segment :=
  combine table (tl table).

(** The segment brackets [v]. *)
Definition brackets (s : segment) (v : Q) : Prop :=
  let '((p1, _), (p2, _)) := s in (p1 <= v /\ v <= p2)%Q.

(** The normalized position of [v] within the segment. *)
Definition position (s : segment) (v : Q) : Q :=
  let '((p1, _), (p2, _)) := s in ((v - p1) / (p2 - p1))%Q.

Definition easeOutQuad (t : Q) : Q := (t * (2 - t))%Q.

(** Linear interpolation of the angle at position [t]. *)
Definition angle_at (s : segment) (t : Q) : Q :=
  let '((_, a1), (_, a2)) := s in (a1 + t * (a2 - a1))%Q.

Definition eased_interpolation (s : segment) (v : Q) : Q :=
  angle_at s (easeOutQuad (position s v)).

Definition linear_interpolation (s : segment) (v : Q) : Q :=
  angle_at s (position s v).

(** The 7-anchor performance table. *)
Definition performance_table : list anchor :=
  [ (-50, -120); (-30, -90); (-5, -30); (0, 0); (5, 30); (30, 90); (50, 120) ]%Q.

(** The 9-anchor table that heads [mapPerformanceToAngle] and
    [mapBarrierToAngle] in geometry.js. *)
Definition clock_table : list anchor :=
  [ (-50, -120); (-30, -90); (-15, -60); (-5, -30); (0, 0);
    (5, 30); (15, 60); (30, 90); (50, 120) ]%Q.

(** The hurdle table. *)
Definition hurdle_table : list anchor :=
  [ (50, -120); (70, -90); (85, -60); (95, -30); (100, 0);
    (105, 30); (115, 60); (130, 90); (150, 120) ]%Q.

Definition clamp (lo hi v : Q) : Q := Qmax lo (Qmin hi v).

(** Locating the bracketing pair of [v] in a table. *)
Definition bracketsb (s : segment) (v : Q) : bool :=
  let '((p1, _), (p2, _)) := s in Qle_bool p1 v && Qle_bool v p2.

Definition locate (table : list anchor) (v : Q) : option segment :=
  find (fun s => bracketsb s v) (segments table).

Definition interpolate (piece : segment -> Q -> Q) (table : list anchor) (v : Q) : Q :=
  match locate table v with
  | Some s => piece s v
  | None => 0
  end.

(** [mapPerformanceToAngle]: clamp to [-50, 50], locate the bracketing pair
    of the 7-anchor table, interpolate with the eased position. *)
Definition mapPerformanceToAngle (pct : Q) : Q :=
  interpolate eased_interpolation performance_table (clamp (-50) 50 pct).

(** [mapHurdlePercentToAngle]: clamp to [50, 150], piecewise-linear between
    the anchors of the hurdle table. *)
Definition mapHurdlePercentToAngle (pct : Q) : Q :=
  interpolate linear_interpolation hurdle_table (clamp 50 150 pct).

(** The mapping that heads [mapPerformanceToAngle] in geometry.js: clamp
    to [-50, 50], piecewise-linear between the anchors of the 9-anchor
    table. *)
Definition linear_angle (pct : Q) : Q :=
  interpolate linear_interpolation clock_table (clamp (-50) 50 pct).

(** The time values that a valid [Date] can have, in milliseconds. *)
Definition time_value (t : Q) : Prop := (Qabs t <= 8640000000000000)%Q.

(** The rotation of the ring over the time from [t0] to [t1]: 360 degrees
    in 3650 days. *)
Definition rotation (t0 t1 : Q) : Q := ((t1 - t0) / 86400000 * (360 / 3650))%Q.

(** The leading edge of the ring segment [i] of [n]. *)
Definition leading_edge (i n : Q) : Q := ((i + 1) * (360 / n))%Q.

(** A function on numbers is continuous at the breakpoints of a table,
    for the interpolation [piece]: it takes the anchor's angle at every
    anchor, it is the piece of a segment on the whole closed segment, and
    the two pieces that meet at an anchor both take the anchor's angle
    there. *)
Definition continuous_at_breakpoints
    (f : number -> number) (piece : segment -> Q -> Q) (table : list anchor) : Prop :=
  (forall p a, In (p, a) table -> f (Fin p) == Fin a)
  /\ (forall s v, In s (segments table) -> brackets s v -> f (Fin v) == Fin (piece s v))
  /\ (forall p0 a0 p1 a1 p2 a2,
        In ((p0, a0), (p1, a1)) (segments table) ->
        In ((p1, a1), (p2, a2)) (segments table) ->
        (piece ((p0, a0), (p1, a1)) p1 == a1)%Q
        /\ (piece ((p1, a1), (p2, a2)) p1 == a1)%Q).

(** Reading an arc command back: the words of a path between single
    spaces, and the two flags of [M x y A rx ry rotation large sweep x y]. *)
Fixpoint no_space (s : string) : bool :=
  match s with
  | EmptyString => true
  | String c rest => negb (Ascii.eqb c " ") && no_space rest
  end.

Fixpoint words (s : string) : list string :=
  match s with
  | EmptyString => [EmptyString]
  | String c rest =>
      if Ascii.eqb c " " then EmptyString :: words rest
      else
        match words rest with
        | w :: ws => String c w :: ws
        | [] => [String c EmptyString]
        end
  end.

Definition arc_flags (path : string) : option (string * string) :=
  match words path with
  | [m; _; _; a; _; _; _; large; sweep; _; _] =>
      if String.eqb m "M" && String.eqb a "A" then Some (large, sweep) else None
  | _ => None
  end.

(** A finite angle of the dial, from 8 o'clock to 4 o'clock. *)
Definition on_dial (v : number) : Prop :=
  exists a : Q, v == Fin a /\ (-120 <= a <= 120)%Q.

(** [v] is the percentage of an anchor of the table. *)
Definition is_anchor (table : list anchor) (v : Q) : Prop :=
  exists p a, In (p, a) table /\ (v == p)%Q.

(** No turn of 360 degrees brings the two angles within 5 degrees of each
    other. *)
Definition apart (a e : Q) : Prop :=
  forall k : Z, (5 <= Qabs (a - e + 360 * inject_Z k))%Q.

(** Reading a path back as an SVG parser does: the tokens between blanks
    (spaces and line feeds), however many blanks separate them. *)
Definition blank (c : ascii) : bool := Ascii.eqb c " " || Ascii.eqb c "010".

Fixpoint no_blank (s : string) : bool :=
  match s with
  | EmptyString => true
  | String c rest => negb (blank c) && no_blank rest
  end.

Definition is_token (s : string) : bool :=
  match s with
  | EmptyString => false
  | String _ _ => no_blank s
  end.

Fixpoint pieces (s : string) : list string :=
  match s with
  | EmptyString => [EmptyString]
  | String c rest =>
      if blank c then EmptyString :: pieces rest
      else
        match pieces rest with
        | w :: ws => String c w :: ws
        | [] => [String c EmptyString]
        end
  end.

Definition tokens (s : string) : list string :=
  filter (fun w => negb (String.eqb w "")) (pieces s).

(** The tokens of the path of a ring segment: the inner arc from the start
    corner [sx sy] to the end corner [ex ey] with sweep flag 1, the line to
    the outer end corner [fx fy], the outer arc back to the outer start
    corner [tx ty] with sweep flag 0; [ri] and [ro] are the two radii and
    [large] is the large-arc flag of both arcs. *)
Definition segment_tokens (sx sy ri large ex ey fx fy ro tx ty : string) : list string :=
  ["M"; sx; sy; "A"; ri; ri; "0"; large; "1"; ex; ey;
   "L"; fx; fy; "A"; ro; ro; "0"; large; "0"; tx; ty; "Z"]%string.

(** The percentage that a label of the scale prints: an optional sign, the
    digits, and a final percent sign. *)
Fixpoint before_percent (label : string) : option string :=
  match label with
  | EmptyString => None
  | String c rest =>
      if Ascii.eqb c "%" && String.eqb rest "" then Some EmptyString
      else option_map (String c) (before_percent rest)
  end.

Definition percent_of_label (label : string) : option Q :=
  match before_percent label with
  | Some signed =>
      let digits :=
        match signed with
        | String "+" rest => rest
        | _ => signed
        end in
      option_map (fun d => inject_Z (Z.of_int d)) (NilZero.int_of_string digits)
  | None => None
  end.

End Spec.

(** * Properties *)

(** ** Numbers *)

Lemma Qle_bool_false (a b : Q) : Qle_bool a b = false -> (b < a)%Q.
Proof.
  intros H. destruct (Qlt_le_dec b a) as [L | L]; [exact L |].
  apply Qle_bool_iff in L. congruence.
Qed.

Lemma same_refl (v : number) : v == v.
Proof. destruct v; simpl; auto. reflexivity. Qed.

Lemma same_sym (v w : number) : v == w -> w == v.
Proof. destruct v, w; simpl; auto. intros H; symmetry; exact H. Qed.

Lemma same_trans (u v w : number) : u == v -> v == w -> u == w.
Proof.
  destruct u, v, w; simpl; auto; try tauto.
  intros H1 H2. rewrite H1. exact H2.
Qed.

Lemma le_of_same (v w : number) (p q : Q) :
  v == Fin p -> w == Fin q -> (p <= q)%Q -> (v <=? w) = true.
Proof.
  destruct v, w; simpl; try tauto.
  intros E1 E2 L. apply Qle_bool_iff. rewrite E1, E2. exact L.
Qed.

(** Unfold the arithmetic of [number] without touching the rationals. *)
Ltac num_unfold :=
  cbv beta iota zeta delta
    [Math_max Math_min Math_abs lt le ge gt add sub mul div neg inf_signed
     same Number_isFinite andb negb].

(** Decide the comparisons between closed rationals that are left. *)
Ltac num_compare :=
  repeat match goal with
  | |- context [Qcompare ?a ?b] =>
      let c := eval vm_compute in (Qcompare a b) in
      match c with
      | Eq => change (Qcompare a b) with Eq
      | Lt => change (Qcompare a b) with Lt
      | Gt => change (Qcompare a b) with Gt
      end; cbv beta iota
  | |- context [Qle_bool ?a ?b] =>
      let c := eval vm_compute in (Qle_bool a b) in
      match c with
      | true => change (Qle_bool a b) with true
      | false => change (Qle_bool a b) with false
      end; cbv beta iota delta [andb negb]
  end.

(** Split on one test of the code, dropping the branch that the
    hypotheses on the rationals exclude. *)
Ltac num_test :=
  match goal with
  | |- context [Qle_bool ?a ?b] =>
      let T := fresh "T" in
      destruct (Qle_bool a b) eqn:T;
      [ apply Qle_bool_iff in T | apply Qle_bool_false in T ];
      num_unfold; num_compare; try (exfalso; lra)
  end.

Ltac num_cases := num_unfold; num_compare; repeat num_test.

(** ** Worked values *)

Example daysBetween_next_day :
  Geometry.daysBetween Date_parse_utc
    (DateString "2024-01-01") (DateString "2024-01-02") == 1
  /\ Geometry.daysBetween Date_parse_utc
       (DateString "2024-01-02") (DateString "2024-01-01") == -1.
Proof. split; vm_compute; reflexivity. Qed.

Example performance_of_8140 :
  Geometry.calculatePerformance 7400 8140 == 10
  /\ Geometry.mapPerformanceToAngle (Geometry.calculatePerformance 7400 8140) == 45
  /\ GenerateStatic.mapPerformanceToAngle
       (GenerateStatic.calculatePerformance 7400 8140) == 51.6.
Proof. repeat split; vm_compute; reflexivity. Qed.

Example invalid_date_is_NaN :
  Date_parse_utc "2023-13-01T00:00:00Z" = NaN
  /\ Date_parse_utc "2023-02-32T00:00:00Z" = NaN
  /\ Date_parse_utc "2023-02-29T00:00:00Z" = Date_parse_utc "2023-03-01T00:00:00Z"
  /\ Date_parse_utc "2023-03-01T00:00:00Z" = Fin 1677628800000
  /\ Geometry.calculateRotationAngle Date_parse_utc
       (DateString "2023-13-01") (DateString "2023-13-01") = NaN.
Proof. repeat split; reflexivity. Qed.

(** ** Interpolation over one segment *)

Section Interpolation.

Variables p1 a1 p2 a2 : Q.
Hypothesis width : (p1 < p2)%Q.
Hypothesis rise : (a1 <= a2)%Q.

Local Notation "'seg'" := ((p1, a1), (p2, a2)).

Lemma position_range (v : Q) :
  Spec.brackets seg v -> (0 <= Spec.position seg v <= 1)%Q.
Proof.
  unfold Spec.brackets, Spec.position. intros [L U].
  assert (W : (0 < p2 - p1)%Q) by lra.
  split.
  - apply Qle_shift_div_l; [exact W | lra].
  - apply Qle_shift_div_r; [exact W | lra].
Qed.

Lemma position_mono (v w : Q) :
  (v <= w)%Q -> (Spec.position seg v <= Spec.position seg w)%Q.
Proof.
  unfold Spec.position. intros L.
  assert (W : (0 < p2 - p1)%Q) by lra.
  unfold Qdiv. apply Qmult_le_compat_r; [lra |].
  apply Qlt_le_weak, Qinv_lt_0_compat, W.
Qed.

Lemma angle_at_mono (t u : Q) :
  (t <= u)%Q -> (Spec.angle_at seg t <= Spec.angle_at seg u)%Q.
Proof. unfold Spec.angle_at. intros L. nra. Qed.

Lemma easeOutQuad_mono (t u : Q) :
  (0 <= t)%Q -> (t <= u)%Q -> (u <= 1)%Q ->
  (Spec.easeOutQuad t <= Spec.easeOutQuad u)%Q.
Proof. unfold Spec.easeOutQuad. intros. nra. Qed.

Lemma easeOutQuad_range (t : Q) :
  (0 <= t <= 1)%Q -> (0 <= Spec.easeOutQuad t <= 1)%Q.
Proof. unfold Spec.easeOutQuad. intros [L U]. split; nra. Qed.

Lemma linear_mono (v w : Q) :
  (v <= w)%Q -> (Spec.linear_interpolation seg v <= Spec.linear_interpolation seg w)%Q.
Proof.
  intros L. unfold Spec.linear_interpolation.
  apply angle_at_mono, position_mono, L.
Qed.

Lemma linear_range (v : Q) :
  Spec.brackets seg v -> (a1 <= Spec.linear_interpolation seg v <= a2)%Q.
Proof.
  intros B. destruct (position_range v B) as [L U].
  unfold Spec.linear_interpolation.
  split.
  - apply Qle_trans with (Spec.angle_at seg 0);
      [unfold Spec.angle_at; lra | apply angle_at_mono, L].
  - apply Qle_trans with (Spec.angle_at seg 1);
      [apply angle_at_mono, U | unfold Spec.angle_at; lra].
Qed.

Lemma eased_mono (v w : Q) :
  Spec.brackets seg v -> Spec.brackets seg w -> (v <= w)%Q ->
  (Spec.eased_interpolation seg v <= Spec.eased_interpolation seg w)%Q.
Proof.
  intros Bv Bw L. unfold Spec.eased_interpolation.
  apply angle_at_mono, easeOutQuad_mono.
  - apply (position_range v Bv).
  - apply position_mono, L.
  - apply (position_range w Bw).
Qed.

Lemma eased_range (v : Q) :
  Spec.brackets seg v -> (a1 <= Spec.eased_interpolation seg v <= a2)%Q.
Proof.
  intros B. destruct (easeOutQuad_range _ (position_range v B)) as [L U].
  unfold Spec.eased_interpolation.
  split.
  - apply Qle_trans with (Spec.angle_at seg 0);
      [unfold Spec.angle_at; lra | apply angle_at_mono, L].
  - apply Qle_trans with (Spec.angle_at seg 1);
      [apply angle_at_mono, U | unfold Spec.angle_at; lra].
Qed.

End Interpolation.

(** ** Clamping *)

Lemma Math_min_Fin (a b : Q) : Math_min (Fin a) (Fin b) = Fin (Qmin a b).
Proof.
  unfold Math_min, lt, Qmin, GenericMinMax.gmin.
  destruct (Qle_bool a b) eqn:T;
    [apply Qle_bool_iff in T | apply Qle_bool_false in T]; simpl;
    destruct (Qcompare_spec a b) as [E | E | E]; try reflexivity; lra.
Qed.

Lemma Math_max_Fin (a b : Q) : Math_max (Fin a) (Fin b) = Fin (Qmax a b).
Proof.
  unfold Math_max, lt, Qmax, GenericMinMax.gmax.
  destruct (Qle_bool b a) eqn:T;
    [apply Qle_bool_iff in T | apply Qle_bool_false in T]; simpl;
    destruct (Qcompare_spec a b) as [E | E | E]; try reflexivity; lra.
Qed.

Lemma clamp_spec (lo hi v : Q) :
  (lo <= hi)%Q ->
  ((v <= lo)%Q /\ (Spec.clamp lo hi v == lo)%Q)
  \/ ((lo <= v <= hi)%Q /\ (Spec.clamp lo hi v == v)%Q)
  \/ ((hi <= v)%Q /\ (Spec.clamp lo hi v == hi)%Q).
Proof.
  intros H. unfold Spec.clamp.
  destruct (Q.max_spec lo (Qmin hi v)) as [[A B] | [A B]];
  destruct (Q.min_spec hi v) as [[C D] | [C D]]; rewrite D in *; lra.
Qed.

Lemma Qcompare_self (a : Q) : (a ?= a)%Q = Eq.
Proof. apply Qeq_alt. reflexivity. Qed.

Lemma clamp_idempotent (lo hi v : Q) :
  (lo <= hi)%Q ->
  Spec.clamp lo hi (Spec.clamp lo hi v) = Spec.clamp lo hi v.
Proof.
  intros H. unfold Spec.clamp, Qmax, Qmin, GenericMinMax.gmax, GenericMinMax.gmin.
  repeat match goal with
  | |- context [Qcompare ?a ?a] => rewrite (Qcompare_self a)
  | K : Qcompare ?a ?b = _ |- context [Qcompare ?a ?b] => rewrite K
  | |- context [Qcompare ?a ?b] =>
      is_var a; is_var b; destruct (Qcompare a b) eqn:?
  end; try reflexivity.
  all: repeat match goal with
  | K : Qcompare _ _ = Eq |- _ => apply Qeq_alt in K
  | K : Qcompare _ _ = Lt |- _ => apply Qlt_alt in K
  | K : Qcompare _ _ = Gt |- _ => apply Qgt_alt in K
  end; exfalso; lra.
Qed.

(** The clamped argument as a rational [c] of the range, with what is known
    of it in [E]. *)
Ltac enter_clamp lo hi v c E :=
  rewrite ?Math_min_Fin, ?Math_max_Fin;
  fold (Spec.clamp lo hi v);
  let C := fresh "C" in
  destruct (clamp_spec lo hi v) as [[C E] | [[C E] | [C E]]]; [lra | | |];
  revert E; generalize (Spec.clamp lo hi v); intros c E.

(** [v] is one of the bounds that the hypotheses give it. *)
Ltac pin v :=
  match goal with
  | H : (?k <= v)%Q |- _ =>
      let P := fresh "P" in assert (P : (v == k)%Q) by lra; rewrite P
  | H : (v <= ?k)%Q |- _ =>
      let P := fresh "P" in assert (P : (v == k)%Q) by lra; rewrite P
  end.

(** ** The mapping functions on each segment of their table *)

(** The cases of [In s (segments table)] for a literal table. *)
Ltac segment_cases H :=
  cbn [Spec.segments Spec.performance_table Spec.clock_table Spec.hurdle_table
       combine tl In] in H;
  repeat (destruct H as [<- | H]); [ .. | contradiction H ].

Ltac spec_unfold :=
  cbv beta iota zeta delta
    [Spec.brackets Spec.eased_interpolation Spec.linear_interpolation
     Spec.angle_at Spec.position Spec.easeOutQuad] in *.

(** Close a leaf [code c == spec v] where [c] is the clamped [v]. *)
Ltac segment_leaf c v :=
  let E' := fresh "E" in
  assert (E' : (c == v)%Q) by lra; rewrite E';
  first [ solve [field] | pin v; vm_compute; reflexivity ].

Lemma static_performance_on_segment (s : Spec.segment) (v : Q) :
  In s (Spec.segments Spec.performance_table) -> Spec.brackets s v ->
  GenerateStatic.mapPerformanceToAngle v == Spec.eased_interpolation s v.
Proof.
  intros I B. cbv beta zeta delta [GenerateStatic.mapPerformanceToAngle].
  enter_clamp (-50) 50 v c E.
  all: segment_cases I; spec_unfold; destruct B as [L U];
    cbv beta iota zeta delta
      [GenerateStatic.anchors GenerateStatic.anchor_loop
       GenerateStatic.easeOutQuad];
    num_cases; segment_leaf c v.
Qed.

Lemma geometry_performance_on_segment (s : Spec.segment) (v : Q) :
  In s (Spec.segments Spec.clock_table) -> Spec.brackets s v ->
  Geometry.mapPerformanceToAngle v == Spec.linear_interpolation s v.
Proof.
  intros I B. cbv beta zeta delta [Geometry.mapPerformanceToAngle].
  enter_clamp (-50) 50 v c E.
  all: segment_cases I; spec_unfold; destruct B as [L U];
    num_cases; segment_leaf c v.
Qed.

Lemma hurdle_on_segment (s : Spec.segment) (v : Q) :
  In s (Spec.segments Spec.hurdle_table) -> Spec.brackets s v ->
  Geometry.mapHurdlePercentToAngle v == Spec.linear_interpolation s v.
Proof.
  intros I B. cbv beta zeta delta [Geometry.mapHurdlePercentToAngle].
  enter_clamp 50 150 v c E.
  all: segment_cases I; spec_unfold; destruct B as [L U];
    num_cases; segment_leaf c v.
Qed.

(** Out-of-range arguments take the value of the boundary. *)
Lemma geometry_performance_clamped (v : Q) :
  Geometry.mapPerformanceToAngle v
  = Geometry.mapPerformanceToAngle (Spec.clamp (-50) 50 v).
Proof.
  cbv beta zeta delta [Geometry.mapPerformanceToAngle].
  rewrite !Math_min_Fin, !Math_max_Fin. fold (Spec.clamp (-50) 50 v).
  fold (Spec.clamp (-50) 50 (Spec.clamp (-50) 50 v)).
  rewrite clamp_idempotent by lra. reflexivity.
Qed.

Lemma static_performance_clamped (v : Q) :
  GenerateStatic.mapPerformanceToAngle v
  = GenerateStatic.mapPerformanceToAngle (Spec.clamp (-50) 50 v).
Proof.
  cbv beta zeta delta [GenerateStatic.mapPerformanceToAngle].
  rewrite !Math_min_Fin, !Math_max_Fin. fold (Spec.clamp (-50) 50 v).
  fold (Spec.clamp (-50) 50 (Spec.clamp (-50) 50 v)).
  rewrite clamp_idempotent by lra. reflexivity.
Qed.

Lemma hurdle_clamped (v : Q) :
  Geometry.mapHurdlePercentToAngle v
  = Geometry.mapHurdlePercentToAngle (Spec.clamp 50 150 v).
Proof.
  cbv beta zeta delta [Geometry.mapHurdlePercentToAngle].
  rewrite !Math_min_Fin, !Math_max_Fin. fold (Spec.clamp 50 150 v).
  fold (Spec.clamp 50 150 (Spec.clamp 50 150 v)).
  rewrite clamp_idempotent by lra. reflexivity.
Qed.

(** ** Every value of the range lies in a segment *)

Ltac take_segment :=
  match goal with
  | |- exists s, In s ?l /\ _ =>
      let l' := eval cbn in l in
      let rec try_all l'' :=
        lazymatch l'' with
        | ?s :: ?r =>
            first
              [ solve [ exists s; split; [cbn; tauto |];
                        split; [cbn; lra |];
                        first [left; cbn; lra | right; lra] ]
              | try_all r ]
        end in
      try_all l'
  end.

Ltac cover_proof v :=
  repeat match goal with
  | |- exists s, In s ?l /\ _ =>
      first
        [ take_segment
        | match eval cbn in l with
          | context [(?p, _)] =>
              lazymatch goal with
              | H : (p <= v)%Q |- _ => fail
              | H : (v < p)%Q |- _ => fail
              | _ => destruct (Qlt_le_dec v p)
              end
          end ]
  end.

Lemma performance_table_cover (v : Q) :
  (-50 <= v <= 50)%Q ->
  exists s, In s (Spec.segments Spec.performance_table)
            /\ Spec.brackets s v /\ ((v < fst (snd s))%Q \/ (50 <= v)%Q).
Proof. intros [L U]. cover_proof v. Qed.

Lemma clock_table_cover (v : Q) :
  (-50 <= v <= 50)%Q ->
  exists s, In s (Spec.segments Spec.clock_table)
            /\ Spec.brackets s v /\ ((v < fst (snd s))%Q \/ (50 <= v)%Q).
Proof. intros [L U]. cover_proof v. Qed.

Lemma hurdle_table_cover (v : Q) :
  (50 <= v <= 150)%Q ->
  exists s, In s (Spec.segments Spec.hurdle_table)
            /\ Spec.brackets s v /\ ((v < fst (snd s))%Q \/ (150 <= v)%Q).
Proof. intros [L U]. cover_proof v. Qed.

(** ** Monotonicity *)

(** One pair of segments: the same segment twice, by the monotonicity of its
    piece; two different ones, by the ranges of their pieces. *)
Ltac monotone_leaf mono range :=
  first
    [ exfalso; lra
    | apply mono; cbn [Spec.brackets]; lra
    | match goal with
      | |- (?X <= ?Y)%Q =>
          lazymatch X with
          | ?f (_, ?a1, (_, ?a2)) _ =>
              lazymatch Y with
              | ?g (_, ?b1, (_, ?b2)) _ =>
                  let R1 := fresh "R" in
                  let R2 := fresh "R" in
                  assert (R1 : (a1 <= X <= a2)%Q);
                  [ apply range; cbn [Spec.brackets]; lra | ];
                  assert (R2 : (b1 <= Y <= b2)%Q);
                  [ apply range; cbn [Spec.brackets]; lra | ];
                  lra
              end
          end
      end ].

Ltac monotone_cases Is Bs Hs It Bt Ht mono range :=
  segment_cases Is; segment_cases It;
  cbn [fst snd Spec.brackets] in Bs, Hs, Bt, Ht;
  destruct Bs, Bt, Hs, Ht;
  monotone_leaf mono range.

Lemma static_performance_monotone (v w : Q) :
  (-50 <= v)%Q -> (v <= w)%Q -> (w <= 50)%Q ->
  (GenerateStatic.mapPerformanceToAngle v <=? GenerateStatic.mapPerformanceToAngle w)
  = true.
Proof.
  intros L M U.
  destruct (performance_table_cover v) as (s & Is & Bs & Hs); [lra |].
  destruct (performance_table_cover w) as (t & It & Bt & Ht); [lra |].
  apply (le_of_same _ _ _ _
           (static_performance_on_segment s v Is Bs)
           (static_performance_on_segment t w It Bt)).
  monotone_cases Is Bs Hs It Bt Ht eased_mono eased_range.
Qed.

Lemma geometry_performance_monotone (v w : Q) :
  (-50 <= v)%Q -> (v <= w)%Q -> (w <= 50)%Q ->
  (Geometry.mapPerformanceToAngle v <=? Geometry.mapPerformanceToAngle w) = true.
Proof.
  intros L M U.
  destruct (clock_table_cover v) as (s & Is & Bs & Hs); [lra |].
  destruct (clock_table_cover w) as (t & It & Bt & Ht); [lra |].
  apply (le_of_same _ _ _ _
           (geometry_performance_on_segment s v Is Bs)
           (geometry_performance_on_segment t w It Bt)).
  monotone_cases Is Bs Hs It Bt Ht linear_mono linear_range.
Qed.

Lemma hurdle_monotone (v w : Q) :
  (50 <= v)%Q -> (v <= w)%Q -> (w <= 150)%Q ->
  (Geometry.mapHurdlePercentToAngle v <=? Geometry.mapHurdlePercentToAngle w) = true.
Proof.
  intros L M U.
  destruct (hurdle_table_cover v) as (s & Is & Bs & Hs); [lra |].
  destruct (hurdle_table_cover w) as (t & It & Bt & Ht); [lra |].
  apply (le_of_same _ _ _ _
           (hurdle_on_segment s v Is Bs)
           (hurdle_on_segment t w It Bt)).
  monotone_cases Is Bs Hs It Bt Ht linear_mono linear_range.
Qed.

(** ** Locating the bracketing pair *)

Lemma bracketsb_brackets (s : Spec.segment) (v : Q) :
  Spec.bracketsb s v = true <-> Spec.brackets s v.
Proof.
  destruct s as [[p1 a1] [p2 a2]]. unfold Spec.bracketsb, Spec.brackets.
  rewrite andb_true_iff, !Qle_bool_iff. tauto.
Qed.

Lemma locate_some (table : list Spec.anchor) (v : Q) (s0 : Spec.segment) :
  In s0 (Spec.segments table) -> Spec.brackets s0 v ->
  exists s, Spec.locate table v = Some s
            /\ In s (Spec.segments table) /\ Spec.brackets s v.
Proof.
  intros I B. unfold Spec.locate.
  destruct (find (fun s => Spec.bracketsb s v) (Spec.segments table)) as [s |] eqn:F.
  - apply find_some in F. destruct F as [Is Bs].
    exists s. repeat split; [exact Is | apply bracketsb_brackets, Bs].
  - apply (find_none _ _ F) in I. apply bracketsb_brackets in B. congruence.
Qed.

Lemma clamp_range (lo hi v : Q) :
  (lo <= hi)%Q -> (lo <= Spec.clamp lo hi v <= hi)%Q.
Proof.
  intros H. destruct (clamp_spec lo hi v H) as [[C E] | [[C E] | [C E]]]; lra.
Qed.

Lemma static_performance_refines (pct : Q) :
  GenerateStatic.mapPerformanceToAngle pct == Spec.mapPerformanceToAngle pct.
Proof.
  rewrite static_performance_clamped. unfold Spec.mapPerformanceToAngle, Spec.interpolate.
  assert (R := clamp_range (-50) 50 pct ltac:(lra)).
  destruct (performance_table_cover _ R) as (s0 & I0 & B0 & _).
  destruct (locate_some _ _ _ I0 B0) as (s & -> & Is & Bs).
  apply static_performance_on_segment; assumption.
Qed.

Lemma hurdle_refines (pct : Q) :
  Geometry.mapHurdlePercentToAngle pct == Spec.mapHurdlePercentToAngle pct.
Proof.
  rewrite hurdle_clamped. unfold Spec.mapHurdlePercentToAngle, Spec.interpolate.
  assert (R := clamp_range 50 150 pct ltac:(lra)).
  destruct (hurdle_table_cover _ R) as (s0 & I0 & B0 & _).
  destruct (locate_some _ _ _ I0 B0) as (s & -> & Is & Bs).
  apply hurdle_on_segment; assumption.
Qed.

(** ** Continuity at the breakpoints *)

Ltac anchor_cases H :=
  cbn [Spec.segments Spec.performance_table Spec.clock_table Spec.hurdle_table
       combine tl In] in H;
  repeat (let E := fresh "E" in
          destruct H as [E | H]; [inversion E; subst; clear E |]);
  [ .. | contradiction H ].

Lemma static_performance_continuous :
  Spec.continuous_at_breakpoints
    GenerateStatic.mapPerformanceToAngle Spec.eased_interpolation
    Spec.performance_table.
Proof.
  split; [| split].
  - intros p a I. anchor_cases I; vm_compute; reflexivity.
  - intros s v. apply static_performance_on_segment.
  - intros p0 a0 p1 a1 p2 a2 I J.
    anchor_cases I; anchor_cases J; split; vm_compute; reflexivity.
Qed.

Lemma geometry_performance_continuous :
  Spec.continuous_at_breakpoints
    Geometry.mapPerformanceToAngle Spec.linear_interpolation Spec.clock_table.
Proof.
  split; [| split].
  - intros p a I. anchor_cases I; vm_compute; reflexivity.
  - intros s v. apply geometry_performance_on_segment.
  - intros p0 a0 p1 a1 p2 a2 I J.
    anchor_cases I; anchor_cases J; split; vm_compute; reflexivity.
Qed.

Lemma hurdle_continuous :
  Spec.continuous_at_breakpoints
    Geometry.mapHurdlePercentToAngle Spec.linear_interpolation Spec.hurdle_table.
Proof.
  split; [| split].
  - intros p a I. anchor_cases I; vm_compute; reflexivity.
  - intros s v. apply hurdle_on_segment.
  - intros p0 a0 p1 a1 p2 a2 I J.
    anchor_cases I; anchor_cases J; split; vm_compute; reflexivity.
Qed.

(** ** Equal rationals give the same angle *)

Lemma linear_interpolation_Qeq (s : Spec.segment) (v w : Q) :
  (v == w)%Q -> (Spec.linear_interpolation s v == Spec.linear_interpolation s w)%Q.
Proof.
  destruct s as [[p1 a1] [p2 a2]]. spec_unfold. intros E. rewrite E. reflexivity.
Qed.

Lemma eased_interpolation_Qeq (s : Spec.segment) (v w : Q) :
  (v == w)%Q -> (Spec.eased_interpolation s v == Spec.eased_interpolation s w)%Q.
Proof.
  destruct s as [[p1 a1] [p2 a2]]. spec_unfold. intros E. rewrite E. reflexivity.
Qed.

Lemma brackets_Qeq (s : Spec.segment) (v w : Q) :
  (v == w)%Q -> Spec.brackets s v -> Spec.brackets s w.
Proof.
  destruct s as [[p1 a1] [p2 a2]]. unfold Spec.brackets. intros E [L U].
  rewrite <- E. split; assumption.
Qed.

Lemma clamp_Qeq (lo hi v w : Q) :
  (v == w)%Q -> (Spec.clamp lo hi v == Spec.clamp lo hi w)%Q.
Proof. unfold Spec.clamp. intros E. rewrite E. reflexivity. Qed.

Lemma static_performance_Qeq (v w : Q) :
  (v == w)%Q ->
  GenerateStatic.mapPerformanceToAngle v == GenerateStatic.mapPerformanceToAngle w.
Proof.
  intros E. rewrite (static_performance_clamped v), (static_performance_clamped w).
  apply (clamp_Qeq (-50) 50) in E.
  assert (R := clamp_range (-50) 50 v ltac:(lra)).
  destruct (performance_table_cover _ R) as (s & I & B & _).
  eapply same_trans; [apply (static_performance_on_segment s _ I B) |].
  apply same_sym.
  eapply same_trans;
    [apply (static_performance_on_segment s _ I (brackets_Qeq _ _ _ E B)) |].
  simpl. symmetry. apply eased_interpolation_Qeq, E.
Qed.

Lemma geometry_performance_Qeq (v w : Q) :
  (v == w)%Q ->
  Geometry.mapPerformanceToAngle v == Geometry.mapPerformanceToAngle w.
Proof.
  intros E. rewrite (geometry_performance_clamped v), (geometry_performance_clamped w).
  apply (clamp_Qeq (-50) 50) in E.
  assert (R := clamp_range (-50) 50 v ltac:(lra)).
  destruct (clock_table_cover _ R) as (s & I & B & _).
  eapply same_trans; [apply (geometry_performance_on_segment s _ I B) |].
  apply same_sym.
  eapply same_trans;
    [apply (geometry_performance_on_segment s _ I (brackets_Qeq _ _ _ E B)) |].
  simpl. symmetry. apply linear_interpolation_Qeq, E.
Qed.

Lemma hurdle_Qeq (v w : Q) :
  (v == w)%Q ->
  Geometry.mapHurdlePercentToAngle v == Geometry.mapHurdlePercentToAngle w.
Proof.
  intros E. rewrite (hurdle_clamped v), (hurdle_clamped w).
  apply (clamp_Qeq 50 150) in E.
  assert (R := clamp_range 50 150 v ltac:(lra)).
  destruct (hurdle_table_cover _ R) as (s & I & B & _).
  eapply same_trans; [apply (hurdle_on_segment s _ I B) |].
  apply same_sym.
  eapply same_trans;
    [apply (hurdle_on_segment s _ I (brackets_Qeq _ _ _ E B)) |].
  simpl. symmetry. apply linear_interpolation_Qeq, E.
Qed.

(** * The mapping of the performance percentage *)

(** C1, as the code has it: for every [pct] of [-50, 50] a pair of the
    7-anchor table brackets it, and [mapPerformanceToAngle] of
    generate-static.js is the eased interpolation (easeOutQuad applied to
    the normalized position) over any bracketing pair, which is the value
    of the mapping as the specification words it; [mapPerformanceToAngle] of
    geometry.js is the plain linear interpolation, without easing, over any
    bracketing pair of its own 9-anchor table. *)
Theorem performance_interpolation (pct : Q) :
  (-50 <= pct)%Q -> (pct <= 50)%Q ->
  (exists s, In s (Spec.segments Spec.performance_table) /\ Spec.brackets s pct)
  /\ (forall s, In s (Spec.segments Spec.performance_table) -> Spec.brackets s pct ->
        GenerateStatic.mapPerformanceToAngle pct == Spec.eased_interpolation s pct)
  /\ GenerateStatic.mapPerformanceToAngle pct == Spec.mapPerformanceToAngle pct
  /\ (exists s, In s (Spec.segments Spec.clock_table) /\ Spec.brackets s pct)
  /\ (forall s, In s (Spec.segments Spec.clock_table) -> Spec.brackets s pct ->
        Geometry.mapPerformanceToAngle pct == Spec.linear_interpolation s pct).
Proof.
  intros L U. repeat split.
  - destruct (performance_table_cover pct) as (s & I & B & _); [lra |].
    exists s. split; assumption.
  - intros s. apply static_performance_on_segment.
  - apply static_performance_refines.
  - destruct (clock_table_cover pct) as (s & I & B & _); [lra |].
    exists s. split; assumption.
  - intros s. apply geometry_performance_on_segment.
Qed.

Lemma performance_interpolation_witness :
  GenerateStatic.mapPerformanceToAngle 10 == Spec.mapPerformanceToAngle 10
  /\ Geometry.mapPerformanceToAngle 10
     == Spec.linear_interpolation ((5, 30), (15, 60))%Q 10.
Proof.
  destruct (performance_interpolation 10) as (_ & _ & S & _ & G);
    [vm_compute; discriminate | vm_compute; discriminate |].
  split; [exact S |].
  apply G; [cbn; tauto | cbn; lra].
Defined.

(** The claim C1 as stated fails for geometry.js: 10 lies between the
    anchors (5, 30) and (30, 90) of the 7-anchor table, the eased
    interpolation there is 51.6, and [mapPerformanceToAngle 10] is 45, in
    binary64 as well. *)
Lemma geometry_performance_is_not_eased :
  In ((5, 30), (30, 90))%Q (Spec.segments Spec.performance_table)
  /\ Spec.brackets ((5, 30), (30, 90))%Q 10
  /\ (Spec.eased_interpolation ((5, 30), (30, 90)) 10 == 51.6)%Q
  /\ Geometry.mapPerformanceToAngle 10 == 45
  /\ ~ Geometry.mapPerformanceToAngle 10
       == Spec.eased_interpolation ((5, 30), (30, 90))%Q 10
  /\ Binary64.Geometry.mapPerformanceToAngle 10 = 45%float
  /\ (Binary64.GenerateStatic.mapPerformanceToAngle 10 <? 51.5)%float = false.
Proof.
  repeat split; try (vm_compute; (reflexivity || discriminate)).
  cbn. tauto.
Qed.

(** C4: [mapPerformanceToAngle] is 0 at 0, -120 at -50 and 120 at 50, and
    an input outside [-50, 50] takes the value of the boundary it is clamped
    to, as 999 and -999 do; in geometry.js and in generate-static.js alike,
    and with the same values in binary64. *)
Theorem performance_boundary_values :
  (Geometry.mapPerformanceToAngle 0 == 0
   /\ Geometry.mapPerformanceToAngle (-50) == -120
   /\ Geometry.mapPerformanceToAngle 50 == 120
   /\ Geometry.mapPerformanceToAngle 999 == Geometry.mapPerformanceToAngle 50
   /\ Geometry.mapPerformanceToAngle (-999) == Geometry.mapPerformanceToAngle (-50))
  /\ (GenerateStatic.mapPerformanceToAngle 0 == 0
      /\ GenerateStatic.mapPerformanceToAngle (-50) == -120
      /\ GenerateStatic.mapPerformanceToAngle 50 == 120
      /\ GenerateStatic.mapPerformanceToAngle 999
         == GenerateStatic.mapPerformanceToAngle 50
      /\ GenerateStatic.mapPerformanceToAngle (-999)
         == GenerateStatic.mapPerformanceToAngle (-50))
  /\ (forall pct : Q, (50 <= pct)%Q ->
        Geometry.mapPerformanceToAngle pct == Geometry.mapPerformanceToAngle 50
        /\ GenerateStatic.mapPerformanceToAngle pct
           == GenerateStatic.mapPerformanceToAngle 50)
  /\ (forall pct : Q, (pct <= -50)%Q ->
        Geometry.mapPerformanceToAngle pct == Geometry.mapPerformanceToAngle (-50)
        /\ GenerateStatic.mapPerformanceToAngle pct
           == GenerateStatic.mapPerformanceToAngle (-50))
  /\ (Binary64.Geometry.mapPerformanceToAngle 0 = 0%float
      /\ Binary64.Geometry.mapPerformanceToAngle (-50) = (-120)%float
      /\ Binary64.Geometry.mapPerformanceToAngle 50 = 120%float
      /\ Binary64.Geometry.mapPerformanceToAngle 999 = 120%float
      /\ Binary64.Geometry.mapPerformanceToAngle (-999) = (-120)%float
      /\ Binary64.GenerateStatic.mapPerformanceToAngle 0 = 0%float
      /\ Binary64.GenerateStatic.mapPerformanceToAngle (-50) = (-120)%float
      /\ Binary64.GenerateStatic.mapPerformanceToAngle 50 = 120%float
      /\ Binary64.GenerateStatic.mapPerformanceToAngle 999 = 120%float
      /\ Binary64.GenerateStatic.mapPerformanceToAngle (-999) = (-120)%float).
Proof.
  split; [| split; [| split; [| split; [| repeat split; vm_compute; reflexivity]]]].
  - repeat split; vm_compute; reflexivity.
  - repeat split; vm_compute; reflexivity.
  - intros pct H.
    assert (E : (Spec.clamp (-50) 50 pct == 50)%Q)
      by (destruct (clamp_spec (-50) 50 pct) as [[C E] | [[C E] | [C E]]]; lra).
    split.
    + rewrite geometry_performance_clamped. apply geometry_performance_Qeq, E.
    + rewrite static_performance_clamped. apply static_performance_Qeq, E.
  - intros pct H.
    assert (E : (Spec.clamp (-50) 50 pct == -50)%Q)
      by (destruct (clamp_spec (-50) 50 pct) as [[C E] | [[C E] | [C E]]]; lra).
    split.
    + rewrite geometry_performance_clamped. apply geometry_performance_Qeq, E.
    + rewrite static_performance_clamped. apply static_performance_Qeq, E.
Qed.

Lemma performance_boundary_values_witness :
  Geometry.mapPerformanceToAngle 75.5 == Geometry.mapPerformanceToAngle 50
  /\ GenerateStatic.mapPerformanceToAngle (-60)
     == GenerateStatic.mapPerformanceToAngle (-50).
Proof.
  destruct performance_boundary_values as (_ & _ & Hi & Lo & _).
  destruct (Hi 75.5%Q) as [G _]; [vm_compute; discriminate |].
  destruct (Lo (-60)%Q) as [_ S]; [vm_compute; discriminate |].
  split; [exact G | exact S].
Defined.

(** C5, as the code has it: in exact arithmetic [mapPerformanceToAngle] is
    monotonic non-decreasing on [-50, 50], and it is continuous at every
    breakpoint: it takes the anchor's angle at each anchor, each piece holds
    on its whole closed segment, and the two pieces that meet at an anchor
    agree there; in geometry.js (linear pieces, 9 anchors) and in
    generate-static.js (eased pieces, 7 anchors).  In binary64 the eased
    copy is monotonic only up to rounding: next to an anchor [t * (2 - t)]
    can round down for the larger of two inputs, as it does from [-2^-48]
    to [-3 * 2^-50], where the linear pieces of geometry.js stay in
    order. *)
Theorem performance_monotone_continuous (pct1 pct2 : Q) :
  (-50 <= pct1)%Q -> (pct1 <= pct2)%Q -> (pct2 <= 50)%Q ->
  (Geometry.mapPerformanceToAngle pct1 <=? Geometry.mapPerformanceToAngle pct2) = true
  /\ (GenerateStatic.mapPerformanceToAngle pct1
      <=? GenerateStatic.mapPerformanceToAngle pct2) = true
  /\ Spec.continuous_at_breakpoints
       Geometry.mapPerformanceToAngle Spec.linear_interpolation Spec.clock_table
  /\ Spec.continuous_at_breakpoints
       GenerateStatic.mapPerformanceToAngle Spec.eased_interpolation
       Spec.performance_table
  /\ (Binary64.Geometry.mapPerformanceToAngle (-0x1p-48)
      <=? Binary64.Geometry.mapPerformanceToAngle (-0x3p-50))%float = true
  /\ Binary64.GenerateStatic.mapPerformanceToAngle (-0x1p-48) = 0%float
  /\ Binary64.GenerateStatic.mapPerformanceToAngle (-0x3p-50) = (-0x1p-48)%float.
Proof.
  intros L M U. split; [| split; [| split; [| split]]].
  - apply geometry_performance_monotone; assumption.
  - apply static_performance_monotone; assumption.
  - apply geometry_performance_continuous.
  - apply static_performance_continuous.
  - repeat split; vm_compute; reflexivity.
Qed.

Lemma performance_monotone_continuous_witness :
  (Geometry.mapPerformanceToAngle (-7) <=? Geometry.mapPerformanceToAngle 12.5) = true
  /\ (GenerateStatic.mapPerformanceToAngle (-7)
      <=? GenerateStatic.mapPerformanceToAngle 12.5) = true
  /\ (Spec.eased_interpolation ((-30, -90), (-5, -30)) (-5) == -30)%Q
  /\ (Spec.eased_interpolation ((-5, -30), (0, 0)) (-5) == -30)%Q.
Proof.
  destruct (performance_monotone_continuous (-7) 12.5) as (G & S & _ & C & _);
    [vm_compute; discriminate | vm_compute; discriminate
     | vm_compute; discriminate |].
  split; [exact G | split; [exact S |]].
  destruct C as (_ & _ & C).
  apply (C (-30)%Q (-90)%Q (-5)%Q (-30)%Q 0%Q 0%Q); cbn; tauto.
Defined.

(** The claim C5 as stated fails in binary64 for the eased copy of
    generate-static.js: [-2^-48] is below [-3 * 2^-50], both lie in
    [-50, 50], and [mapPerformanceToAngle] maps the first to 0 and the
    second to [-2^-48], which is less. *)
Lemma binary64_eased_not_monotone :
  (-50 <=? -0x1p-48)%float = true
  /\ (-0x1p-48 <? -0x3p-50)%float = true
  /\ (-0x3p-50 <=? 50)%float = true
  /\ Binary64.GenerateStatic.mapPerformanceToAngle (-0x1p-48) = 0%float
  /\ Binary64.GenerateStatic.mapPerformanceToAngle (-0x3p-50) = (-0x1p-48)%float
  /\ (Binary64.GenerateStatic.mapPerformanceToAngle (-0x1p-48)
      <=? Binary64.GenerateStatic.mapPerformanceToAngle (-0x3p-50))%float = false.
Proof. repeat split; vm_compute; reflexivity. Qed.

(** In binary64 the linear pieces keep the order of the 2001 consecutive
    inputs around each anchor; the eased pieces do not, around -5 and 5. *)
Example binary64_linear_pieces_ordered :
  forallb (fun a => Binary64.ordered_on Binary64.Geometry.mapPerformanceToAngle
                      (Binary64.neighbours 1000 a))
    [-50; -30; -15; -5; 0; 5; 15; 30; 50]%float = true
  /\ forallb (fun a => Binary64.ordered_on Binary64.Geometry.mapHurdlePercentToAngle
                         (Binary64.neighbours 1000 a))
       [50; 70; 85; 95; 100; 105; 115; 130; 150]%float = true
  /\ map (fun a => Binary64.ordered_on Binary64.GenerateStatic.mapPerformanceToAngle
                      (Binary64.neighbours 1000 a))
       [-50; -30; -5; 0; 5; 30; 50]%float
     = [true; true; false; true; false; true; true].
Proof. repeat split; vm_compute; reflexivity. Qed.

(** * The mapping of the hurdle percentage *)

(** C8: [mapHurdlePercentToAngle] clamps its input to [50, 150] and is then
    the piecewise-linear interpolation, without easing, over the hurdle
    table; it is 0 at 100, -120 at 50 and 120 at 150, and it is monotonic
    non-decreasing on [50, 150]. *)
Theorem hurdle_interpolation (pct v w : Q) :
  (50 <= v)%Q -> (v <= w)%Q -> (w <= 150)%Q ->
  Geometry.mapHurdlePercentToAngle pct
  = Geometry.mapHurdlePercentToAngle (Spec.clamp 50 150 pct)
  /\ (50 <= Spec.clamp 50 150 pct <= 150)%Q
  /\ (exists s, In s (Spec.segments Spec.hurdle_table)
                /\ Spec.brackets s (Spec.clamp 50 150 pct))
  /\ (forall s, In s (Spec.segments Spec.hurdle_table) ->
        Spec.brackets s (Spec.clamp 50 150 pct) ->
        Geometry.mapHurdlePercentToAngle pct
        == Spec.linear_interpolation s (Spec.clamp 50 150 pct))
  /\ Geometry.mapHurdlePercentToAngle pct == Spec.mapHurdlePercentToAngle pct
  /\ Geometry.mapHurdlePercentToAngle 100 == 0
  /\ Geometry.mapHurdlePercentToAngle 50 == -120
  /\ Geometry.mapHurdlePercentToAngle 150 == 120
  /\ (Geometry.mapHurdlePercentToAngle v <=? Geometry.mapHurdlePercentToAngle w) = true.
Proof.
  intros L M U.
  assert (R := clamp_range 50 150 pct ltac:(lra)).
  split; [apply hurdle_clamped |].
  split; [exact R |].
  split.
  { destruct (hurdle_table_cover _ R) as (s & I & B & _).
    exists s. split; assumption. }
  split.
  { intros s I B. rewrite hurdle_clamped. apply hurdle_on_segment; assumption. }
  split; [apply hurdle_refines |].
  split; [vm_compute; reflexivity |].
  split; [vm_compute; reflexivity |].
  split; [vm_compute; reflexivity |].
  apply hurdle_monotone; assumption.
Qed.

Lemma hurdle_interpolation_witness :
  Geometry.mapHurdlePercentToAngle 160
  == Spec.linear_interpolation ((130, 90), (150, 120))%Q (Spec.clamp 50 150 160)
  /\ (Geometry.mapHurdlePercentToAngle 72.5 <=? Geometry.mapHurdlePercentToAngle 101)
     = true.
Proof.
  destruct (hurdle_interpolation 160 72.5 101) as (_ & _ & _ & S & _ & _ & _ & _ & M);
    [vm_compute; discriminate | vm_compute; discriminate
     | vm_compute; discriminate |].
  split; [| exact M].
  apply S; [cbn; tauto | vm_compute; split; discriminate].
Defined.

(** * The two mappings of the barrier percentage *)

Lemma static_barrier_closed_form (pct : Q) :
  GenerateStatic.mapBarrierToAngle pct
  == Fin (- (90 + (Qabs pct - 30) * 1.5))%Q.
Proof.
  unfold GenerateStatic.mapBarrierToAngle. num_unfold. ring.
Qed.

Lemma Qdiv_by_positive (a : Q) (p : positive) :
  (a / (Z.pos p # 1) = a * (1 # p))%Q.
Proof. reflexivity. Qed.

(** Where the two mappings agree: exactly on [-50, -30], where the closed
    form is the first piece of the table. *)
Lemma barrier_mappings_agree_iff (pct : Q) :
  GenerateStatic.mapBarrierToAngle pct == Geometry.mapBarrierToAngle pct
  <-> (-50 <= pct <= -30)%Q.
Proof.
  cbv beta zeta delta
    [GenerateStatic.mapBarrierToAngle Geometry.mapBarrierToAngle
     Geometry.mapPerformanceToAngle].
  rewrite Math_min_Fin, Math_max_Fin. fold (Spec.clamp (-50) 50 pct).
  destruct (clamp_spec (-50) 50 pct) as [[C E] | [[C E] | [C E]]]; [lra | | |];
    revert E; generalize (Spec.clamp (-50) 50 pct); intros c E;
    num_cases.
  all: destruct (Qlt_le_dec pct 0) as [N | N];
    [ rewrite (Qabs_neg pct) by lra | rewrite (Qabs_pos pct) by lra ].
  all: rewrite ?Qdiv_by_positive.
  all: split; [intros H | intros [H1 H2]]; lra.
Qed.

(** C2: the closed form [-(90 + (|pct| - 30) * 1.5)] of generate-static.js
    and the [mapBarrierToAngle] of geometry.js, which delegates to the
    piecewise [mapPerformanceToAngle], are not equivalent: at -10, which is
    no anchor, the first gives -60 and the second -45, in binary64 as
    well. *)
Theorem barrier_mappings_differ :
  (forall pct : Q,
     GenerateStatic.mapBarrierToAngle pct
     == Fin (- (90 + (Qabs pct - 30) * 1.5))%Q)
  /\ (forall x : number,
        Geometry.mapBarrierToAngle x = Geometry.mapPerformanceToAngle x)
  /\ exists pct : Q,
       (forall p a, In (p, a) Spec.clock_table -> ~ (pct == p)%Q)
       /\ GenerateStatic.mapBarrierToAngle pct == -60
       /\ Geometry.mapBarrierToAngle pct == -45
       /\ ~ GenerateStatic.mapBarrierToAngle pct == Geometry.mapBarrierToAngle pct
       /\ Binary64.GenerateStatic.mapBarrierToAngle (-10) = (-60)%float
       /\ Binary64.Geometry.mapBarrierToAngle (-10) = (-45)%float.
Proof.
  split; [exact static_barrier_closed_form |].
  split; [reflexivity |].
  exists (-10)%Q. split; [| split; [| split; [| split; [| split]]]].
  - intros p a I. cbn in I.
    repeat (destruct I as [E | I]; [inversion E; vm_compute; discriminate |]).
    contradiction I.
  - vm_compute. reflexivity.
  - vm_compute. reflexivity.
  - vm_compute. discriminate.
  - vm_compute. reflexivity.
  - vm_compute. reflexivity.
Qed.

(** * Non-finite inputs *)




(** * Dates and rotation *)

Ltac date_unfold :=
  cbv beta iota zeta delta
    [Geometry.calculateRotationAngle Geometry.calculateObservationTickAngle
     Geometry.daysBetween Geometry.parseDate
     Geometry.ANGLE_PER_DAY Geometry.DAYS_IN_10_YEARS
     GenerateStatic.calculateRotationAngle GenerateStatic.daysBetween
     GenerateStatic.parseDate
     GenerateStatic.ANGLE_PER_DAY GenerateStatic.DAYS_IN_10_YEARS].

Section Rotation.

Variable Date_parse : string -> number.

Lemma geometry_daysBetween_timeValue (startDate endDate : DateArg) :
  Geometry.daysBetween Date_parse startDate endDate
  = (timeValue Date_parse endDate - timeValue Date_parse startDate)
    / (1000 * 60 * 60 * 24).
Proof. destruct startDate, endDate; reflexivity. Qed.

Lemma static_daysBetween_timeValue (startDate endDate : DateArg) :
  GenerateStatic.daysBetween Date_parse startDate endDate
  = (timeValue Date_parse endDate - timeValue Date_parse startDate)
    / (1000 * 60 * 60 * 24).
Proof. destruct startDate, endDate; reflexivity. Qed.

Lemma static_rotation_is_geometry (startDate currentDate : DateArg) :
  GenerateStatic.calculateRotationAngle Date_parse startDate currentDate
  = Geometry.calculateRotationAngle Date_parse startDate currentDate.
Proof. destruct startDate, currentDate; reflexivity. Qed.

Lemma daysBetween_valid (startDate endDate : DateArg) (ts te : Q) :
  timeValue Date_parse startDate = Fin ts ->
  timeValue Date_parse endDate = Fin te ->
  Geometry.daysBetween Date_parse startDate endDate
  == Fin ((te - ts) / 86400000)%Q.
Proof.
  intros S E. rewrite geometry_daysBetween_timeValue, S, E.
  num_unfold. num_compare. field.
Qed.

Lemma rotation_valid (startDate currentDate : DateArg) (ts tc : Q) :
  timeValue Date_parse startDate = Fin ts ->
  timeValue Date_parse currentDate = Fin tc ->
  Geometry.calculateRotationAngle Date_parse startDate currentDate
  == Fin ((tc - ts) / 86400000 * (360 / 3650))%Q.
Proof.
  intros S E. unfold Geometry.calculateRotationAngle.
  rewrite geometry_daysBetween_timeValue, S, E.
  date_unfold. num_unfold. num_compare. field.
Qed.

(** C7: for two valid dates [calculateRotationAngle] is [daysBetween] times
    [360 / 3650], where [daysBetween] is the difference of the time values
    in milliseconds divided by 86,400,000; so the angle from a date to
    itself is 0, and the angle to the date exactly 3650 days later is 360,
    not wrapped; in geometry.js and in generate-static.js alike.  In
    binary64 too a difference of 3650 days of milliseconds gives 360. *)
Theorem rotation_angle (startDate currentDate : DateArg) (ts tc : Q) :
  timeValue Date_parse startDate = Fin ts ->
  timeValue Date_parse currentDate = Fin tc ->
  (Geometry.daysBetween Date_parse startDate currentDate
   == Fin ((tc - ts) / 86400000)%Q
   /\ Geometry.calculateRotationAngle Date_parse startDate currentDate
      == Geometry.daysBetween Date_parse startDate currentDate * (360 / 3650)
   /\ Geometry.calculateRotationAngle Date_parse startDate startDate == 0
   /\ ((tc == ts + 3650 * 86400000)%Q ->
       Geometry.calculateRotationAngle Date_parse startDate currentDate == 360))
  /\ (GenerateStatic.daysBetween Date_parse startDate currentDate
      == Fin ((tc - ts) / 86400000)%Q
      /\ GenerateStatic.calculateRotationAngle Date_parse startDate currentDate
         == GenerateStatic.daysBetween Date_parse startDate currentDate * (360 / 3650)
      /\ GenerateStatic.calculateRotationAngle Date_parse startDate startDate == 0
      /\ ((tc == ts + 3650 * 86400000)%Q ->
          GenerateStatic.calculateRotationAngle Date_parse startDate currentDate
          == 360))
  /\ (forall d1 d2 : Binary64.Date,
        (Binary64.getTime d2 - Binary64.getTime d1)%float = 315360000000%float ->
        Binary64.Geometry.calculateRotationAngle d1 d2 = 360%float).
Proof.
  intros S E. rewrite <- and_assoc. split.
  2: { intros d1 d2 D.
       unfold Binary64.Geometry.calculateRotationAngle, Binary64.Geometry.daysBetween.
       cbv zeta. rewrite D. vm_compute. reflexivity. }
  assert (G : Geometry.daysBetween Date_parse startDate currentDate
              == Fin ((tc - ts) / 86400000)%Q
              /\ Geometry.calculateRotationAngle Date_parse startDate currentDate
                 == Geometry.daysBetween Date_parse startDate currentDate
                    * (360 / 3650)
              /\ Geometry.calculateRotationAngle Date_parse startDate startDate == 0
              /\ ((tc == ts + 3650 * 86400000)%Q ->
                  Geometry.calculateRotationAngle Date_parse startDate currentDate
                  == 360)).
  { split; [apply daysBetween_valid; assumption |].
    split; [| split].
    - unfold Geometry.calculateRotationAngle.
      rewrite geometry_daysBetween_timeValue, S, E.
      date_unfold. num_unfold. num_compare. field.
    - eapply same_trans; [apply (rotation_valid _ _ ts ts S S) |].
      simpl. field.
    - intros D. eapply same_trans; [apply (rotation_valid _ _ ts tc S E) |].
      simpl. rewrite D. field. }
  split; [exact G |].
  rewrite !static_rotation_is_geometry, static_daysBetween_timeValue.
  rewrite <- geometry_daysBetween_timeValue. exact G.
Qed.

Lemma tick_returns (startDate observationDate currentDate : DateArg) :
  GeometryJS.calculateObservationTickAngle Date_parse
    (ADate startDate) (ADate observationDate) (ADate currentDate)
  = Return (Geometry.calculateObservationTickAngle Date_parse
              startDate observationDate currentDate).
Proof. destruct startDate, observationDate, currentDate; reflexivity. Qed.

Lemma tick_throws (startDate observationDate currentDate : Value) :
  startDate = NotADate \/ observationDate = NotADate \/ currentDate = NotADate ->
  GeometryJS.calculateObservationTickAngle Date_parse
    startDate observationDate currentDate
  = Throw TypeError.
Proof.
  intros H.
  destruct startDate as [[s | s] |], observationDate as [[o | o] |],
    currentDate as [[c | c] |];
    try reflexivity; destruct H as [H | [H | H]]; discriminate H.
Qed.

(** C10, as the code has it: for a start date and an observation date that
    are strings or [Date] objects, and any two values of [currentDate] that
    are strings or [Date] objects, [calculateObservationTickAngle] returns
    the same number, the opposite of [daysBetween(startDate,
    observationDate)] times [360 / 3650], whatever the two dates are
    (invalid ones included).  The argument is not ignored: the unused
    [calculateRotationAngle(startDate, currentDate)] is still evaluated,
    and it throws a [TypeError] when [currentDate] has no [getTime] method
    (left out, [null], a number); so does a start or observation date of
    that kind.  On binary64 [Date] objects the result does not depend on
    the current date either. *)
Theorem observation_tick_ignores_current_date
    (startDate observationDate c1 c2 : DateArg) :
  (exists v : number,
     GeometryJS.calculateObservationTickAngle Date_parse
       (ADate startDate) (ADate observationDate) (ADate c1) = Return v
     /\ GeometryJS.calculateObservationTickAngle Date_parse
          (ADate startDate) (ADate observationDate) (ADate c2) = Return v
     /\ v = Geometry.calculateObservationTickAngle Date_parse
              startDate observationDate c1
     /\ v == - (Geometry.daysBetween Date_parse startDate observationDate
                * (360 / 3650)))
  /\ (forall s o : Value,
        GeometryJS.calculateObservationTickAngle Date_parse s o NotADate
        = Throw TypeError)
  /\ (forall s o c : Value,
        s = NotADate \/ o = NotADate ->
        GeometryJS.calculateObservationTickAngle Date_parse s o c = Throw TypeError)
  /\ (forall s o c c' : Binary64.Date,
        Binary64.Geometry.calculateObservationTickAngle s o c
        = Binary64.Geometry.calculateObservationTickAngle s o c').
Proof.
  assert (V : forall c,
             Geometry.calculateObservationTickAngle
               Date_parse startDate observationDate c
             == - (Geometry.daysBetween Date_parse startDate observationDate
                   * (360 / 3650))).
  { intros c. unfold Geometry.calculateObservationTickAngle.
    cbv zeta. generalize (Geometry.daysBetween Date_parse startDate observationDate).
    intros d. destruct d as [| | | q];
      [vm_compute; reflexivity | vm_compute; reflexivity | vm_compute; reflexivity |].
    date_unfold. num_unfold. num_compare. field. }
  split; [| split; [| split]].
  - eexists. split; [apply tick_returns |].
    split; [rewrite tick_returns; reflexivity |].
    split; [reflexivity | apply V].
  - intros s o. apply tick_throws. right. right. reflexivity.
  - intros s o c [H | H]; apply tick_throws; [left | right; left]; exact H.
  - reflexivity.
Qed.

End Rotation.

(** Against C10 as it is worded: with the start date 2023-01-01 and the
    observation date 2024-01-01, the call returns -36 for the current date
    2023-06-01 and throws for a current date that is left out. *)
Lemma observation_tick_needs_current_date :
  match GeometryJS.calculateObservationTickAngle Date_parse_utc
          (ADate (DateString "2023-01-01")) (ADate (DateString "2024-01-01"))
          (ADate (DateString "2023-06-01")) with
  | Return v => v == -36
  | Throw _ => False
  end
  /\ GeometryJS.calculateObservationTickAngle Date_parse_utc
       (ADate (DateString "2023-01-01")) (ADate (DateString "2024-01-01"))
       NotADate
     = Throw TypeError.
Proof. split; vm_compute; reflexivity. Qed.

Lemma rotation_angle_witness :
  Geometry.calculateRotationAngle Date_parse_utc
    (DateString "2024-01-01") (DateString "2033-12-29") == 360
  /\ GenerateStatic.calculateRotationAngle Date_parse_utc
       (DateString "2024-01-01") (DateString "2024-01-01") == 0.
Proof.
  destruct (rotation_angle Date_parse_utc
              (DateString "2024-01-01") (DateString "2033-12-29")
              1704067200000 2019427200000)
    as ((_ & _ & _ & G) & (_ & _ & S & _) & _); [reflexivity | reflexivity |].
  split; [apply G; vm_compute; reflexivity | exact S].
Defined.

Example binary64_rotation_of_3650_days :
  Binary64.Geometry.calculateRotationAngle
    (Binary64.mkDate 1704067200000) (Binary64.mkDate 2019427200000)
  = 360%float.
Proof. vm_compute. reflexivity. Qed.

(** * normalizeAngle *)

Lemma while_above_step (n : nat) (q : Q) :
  Geometry.while_above (S n) (Fin q)
  = if Qle_bool q 180 then Some (Fin q)
    else Geometry.while_above n (Fin (q + - 360)).
Proof. cbn [Geometry.while_above]. num_unfold. destruct (Qle_bool q 180); reflexivity. Qed.

Lemma while_below_step (n : nat) (q : Q) :
  Geometry.while_below (S n) (Fin q)
  = if Qle_bool (-180) q then Some (Fin q)
    else Geometry.while_below n (Fin (q + 360)).
Proof. cbn [Geometry.while_below]. num_unfold. destruct (Qle_bool (-180) q); reflexivity. Qed.

(** The loop stops at once. *)
Ltac loop_exit :=
  split; [reflexivity |];
  split; [change (inject_Z (Z.of_nat 0)) with 0%Q; ring |];
  split; [lra |];
  split; [intros; lra | intros; reflexivity].

Lemma inject_Z_succ (n : nat) :
  (inject_Z (Z.of_nat (S n)) == inject_Z (Z.of_nat n) + 1)%Q.
Proof. rewrite Nat2Z.inj_succ. unfold Z.succ. rewrite inject_Z_plus. reflexivity. Qed.

(** The first loop: with a bound [n] on the number of turns above 180 and
    more fuel than that, it ends on [r = q - 360 k], at most 180, and above
    -180 when it has run at all; nothing changes when [q] is at most 180. *)
Lemma while_above_result (n : nat) :
  forall (q : Q) (fuel : nat),
    (q <= 180 + 360 * inject_Z (Z.of_nat n))%Q -> (n < fuel)%nat ->
    exists (r : Q) (k : nat),
      Geometry.while_above fuel (Fin q) = Some (Fin r)
      /\ (r == q - 360 * inject_Z (Z.of_nat k))%Q
      /\ (r <= 180)%Q
      /\ ((180 < q)%Q -> (-180 < r)%Q)
      /\ ((q <= 180)%Q -> r = q).
Proof.
  induction n as [| n IH]; intros q fuel B F;
    (destruct fuel as [| fuel]; [lia |]); rewrite while_above_step;
    destruct (Qle_bool q 180) eqn:T;
    [apply Qle_bool_iff in T | apply Qle_bool_false in T
     | apply Qle_bool_iff in T | apply Qle_bool_false in T].
  - exists q, O. loop_exit.
  - exfalso. change (inject_Z (Z.of_nat 0)) with 0%Q in B. lra.
  - exists q, O. loop_exit.
  - rewrite inject_Z_succ in B.
    destruct (IH (q + - 360)%Q fuel) as (r & k & W & E & U & A & I); [lra | lia |].
    exists r, (S k). split; [exact W |].
    split; [rewrite inject_Z_succ, E; ring |].
    split; [exact U |].
    split; [| intros; exfalso; lra].
    intros _. destruct (Qlt_le_dec 180 (q + - 360)) as [G | G]; [apply A, G |].
    rewrite (I G). lra.
Qed.

Lemma while_below_result (n : nat) :
  forall (q : Q) (fuel : nat),
    (-180 - 360 * inject_Z (Z.of_nat n) <= q)%Q -> (n < fuel)%nat ->
    exists (r : Q) (k : nat),
      Geometry.while_below fuel (Fin q) = Some (Fin r)
      /\ (r == q + 360 * inject_Z (Z.of_nat k))%Q
      /\ (-180 <= r)%Q
      /\ ((q < -180)%Q -> (r < 180)%Q)
      /\ ((-180 <= q)%Q -> r = q).
Proof.
  induction n as [| n IH]; intros q fuel B F;
    (destruct fuel as [| fuel]; [lia |]); rewrite while_below_step;
    destruct (Qle_bool (-180) q) eqn:T;
    [apply Qle_bool_iff in T | apply Qle_bool_false in T
     | apply Qle_bool_iff in T | apply Qle_bool_false in T].
  - exists q, O. loop_exit.
  - exfalso. change (inject_Z (Z.of_nat 0)) with 0%Q in B. lra.
  - exists q, O. loop_exit.
  - rewrite inject_Z_succ in B.
    destruct (IH (q + 360)%Q fuel) as (r & k & W & E & L & A & I); [lra | lia |].
    exists r, (S k). split; [exact W |].
    split; [rewrite inject_Z_succ, E; ring |].
    split; [exact L |].
    split; [| intros; exfalso; lra].
    intros _. destruct (Qlt_le_dec (q + 360) (-180)) as [G | G]; [apply A, G |].
    rewrite (I G). lra.
Qed.

Lemma ceiling_bound (q : Q) :
  let n := Z.to_nat (Qceiling (Qabs q)) in
  (- inject_Z (Z.of_nat n) <= q <= inject_Z (Z.of_nat n))%Q.
Proof.
  intros n. unfold n.
  assert (P : (0 <= Qabs q)%Q) by apply Qabs_nonneg.
  assert (C : (Qabs q <= inject_Z (Qceiling (Qabs q)))%Q) by apply Qle_ceiling.
  assert (Z0 : (0 <= Qceiling (Qabs q))%Z).
  { rewrite Zle_Qle. change (inject_Z 0) with 0%Q. lra. }
  rewrite Z2Nat.id by exact Z0.
  assert (U : (q <= Qabs q)%Q) by apply Qle_Qabs.
  assert (L : (- q <= Qabs q)%Q) by (rewrite <- Qabs_opp; apply Qle_Qabs).
  lra.
Qed.

(** What [normalizeAngle] does on every finite angle: with enough fuel it
    returns, the result lies in the closed interval [-180, 180] and differs
    from the input by a multiple of 360. *)
Lemma normalizeAngle_closed_range (q : Q) :
  exists fuel0 : nat, forall fuel : nat, (fuel0 <= fuel)%nat ->
    exists (r : Q) (k : Z),
      Geometry.normalizeAngle fuel (Fin q) = Some (Fin r)
      /\ (-180 <= r <= 180)%Q
      /\ (r == q + 360 * inject_Z k)%Q.
Proof.
  pose (n := Z.to_nat (Qceiling (Qabs q))).
  assert (N0 : (0 <= inject_Z (Z.of_nat n))%Q).
  { change 0%Q with (inject_Z 0). rewrite <- Zle_Qle. lia. }
  destruct (ceiling_bound q) as [Lo Hi]. fold n in Lo, Hi.
  exists (S n). intros fuel F.
  destruct (while_above_result n q fuel) as (r1 & k1 & W1 & E1 & U1 & A1 & I1);
    [lra | lia |].
  assert (B1 : (-180 - 360 * inject_Z (Z.of_nat n) <= r1)%Q).
  { destruct (Qlt_le_dec 180 q) as [G | G]; [specialize (A1 G); lra |].
    rewrite (I1 G). lra. }
  destruct (while_below_result n r1 fuel) as (r & k2 & W2 & E2 & L2 & A2 & I2);
    [exact B1 | lia |].
  exists r, (Z.of_nat k2 + - Z.of_nat k1)%Z.
  unfold Geometry.normalizeAngle. rewrite W1. split; [exact W2 |]. split.
  - split; [exact L2 |].
    destruct (Qlt_le_dec r1 (-180)) as [G | G]; [specialize (A2 G); lra |].
    rewrite (I2 G). exact U1.
  - rewrite inject_Z_plus, inject_Z_opp, E2, E1. ring.
Qed.


(** In binary64 a finite angle can be too large for the loop to move it:
    2^100 - 360 rounds to 2^100, and no amount of fuel reaches the exit. *)
Lemma binary64_normalizeAngle_stuck (fuel : nat) :
  Binary64.Geometry.normalizeAngle fuel 0x1p+100 = None.
Proof.
  unfold Binary64.Geometry.normalizeAngle.
  assert (W : Binary64.Geometry.while_above fuel 0x1p+100 = None).
  { induction fuel as [| fuel IH]; [reflexivity |].
    cbn [Binary64.Geometry.while_above].
    change (180 <? 0x1p+100)%float with true.
    change (0x1p+100 - 360)%float with 0x1p+100%float. exact IH. }
  rewrite W. reflexivity.
Qed.

(** * describeArc *)

Lemma no_space_string_of_uint (d : Decimal.uint) :
  Spec.no_space (NilEmpty.string_of_uint d) = true.
Proof. induction d; cbn; auto. Qed.

Lemma no_space_string_of_int (d : Decimal.int) :
  Spec.no_space (NilZero.string_of_int d) = true.
Proof.
  destruct d as [u | u]; cbn; destruct u; cbn; auto using no_space_string_of_uint.
Qed.

Lemma words_token (a rest : string) :
  Spec.no_space a = true ->
  Spec.words (a ++ String " " rest) = a :: Spec.words rest.
Proof.
  induction a as [| c a IH]; intros N; [reflexivity |].
  cbn in N. apply andb_true_iff in N. destruct N as [C N].
  apply negb_true_iff in C.
  cbn [append Spec.words]. rewrite C, (IH N). reflexivity.
Qed.

Lemma words_last (a : string) :
  Spec.no_space a = true -> Spec.words a = [a].
Proof.
  induction a as [| c a IH]; intros N; [reflexivity |].
  cbn in N. apply andb_true_iff in N. destruct N as [C N].
  apply negb_true_iff in C.
  cbn [Spec.words]. rewrite C, (IH N). reflexivity.
Qed.

Lemma words_letter (c : ascii) (rest : string) :
  Ascii.eqb c " " = false ->
  Spec.words (String c (String " " rest)) = String c EmptyString :: Spec.words rest.
Proof. intros C. cbn [Spec.words]. rewrite C. reflexivity. Qed.

Lemma words_of_arc (sx sy r l s ex ey : string) :
  Spec.no_space sx = true -> Spec.no_space sy = true ->
  Spec.no_space r = true -> Spec.no_space l = true -> Spec.no_space s = true ->
  Spec.no_space ex = true -> Spec.no_space ey = true ->
  Spec.words ("M " ++ sx ++ " " ++ sy ++ " A " ++ r ++ " " ++ r
              ++ " 0 " ++ l ++ " " ++ s ++ " " ++ ex ++ " " ++ ey)
  = ["M"; sx; sy; "A"; r; r; "0"; l; s; ex; ey]%string.
Proof.
  intros Nsx Nsy Nr Nl Ns Nex Ney. cbn [append].
  rewrite (words_letter "M") by reflexivity.
  rewrite (words_token sx) by exact Nsx.
  rewrite (words_token sy) by exact Nsy.
  rewrite (words_letter "A") by reflexivity.
  rewrite (words_token r) by exact Nr.
  rewrite (words_token r) by exact Nr.
  rewrite (words_letter "0") by reflexivity.
  rewrite (words_token l) by exact Nl.
  rewrite (words_token s) by exact Ns.
  rewrite (words_token ex) by exact Nex.
  rewrite (words_last ey) by exact Ney.
  reflexivity.
Qed.

Section Arc.

Variable Math_PI : number.
Variables Math_cos Math_sin : number -> number.
Variable other_digits : Q -> string.

(** The text of a number holds no space. *)
Hypothesis digits_no_space : forall q, Spec.no_space (other_digits q) = true.

Lemma no_space_text (v : number) :
  Spec.no_space (Geometry.text other_digits v) = true.
Proof.
  unfold Geometry.text, Number_toString.
  destruct v as [| | | q]; try reflexivity.
  destruct (Qeq_bool (inject_Z (Qfloor q)) q && (Z.abs (Qfloor q) <? 10 ^ 21)%Z).
  - apply no_space_string_of_int.
  - apply digits_no_space.
Qed.

End Arc.

Lemma flag_text (other_digits : Q -> string) (b : bool) :
  (Number_toString other_digits (if b then 1 else 0) = "1"%string
   \/ Number_toString other_digits (if b then 1 else 0) = "0"%string)
  /\ (Number_toString other_digits (if b then 1 else 0) = "1"%string <-> b = true).
Proof.
  destruct b;
    [ change (Number_toString other_digits 1) with "1"%string
    | change (Number_toString other_digits 0) with "0"%string ];
    (split; [auto |]); split; intros H; try reflexivity; discriminate H.
Qed.

Lemma binary64_flag_text (other_digits : Q -> string) (b : bool) :
  (Binary64.text other_digits (if b then 1 else 0)%float = "1"%string
   \/ Binary64.text other_digits (if b then 1 else 0)%float = "0"%string)
  /\ (Binary64.text other_digits (if b then 1 else 0)%float = "1"%string
      <-> b = true).
Proof.
  destruct b;
    [ change (Binary64.text other_digits 1%float) with "1"%string
    | change (Binary64.text other_digits 0%float) with "0"%string ];
    (split; [auto |]); split; intros H; try reflexivity; discriminate H.
Qed.

Section BinaryArc.

(** [Math.PI], [Math.cos] and [Math.sin] on binary64 numbers, and on exact
    numbers. *)
Variable Math_PI : float.
Variables Math_cos Math_sin : float -> float.
Variable PI : number.
Variables cos sin : number -> number.
Variable other_digits : Q -> string.

Hypothesis digits_no_space : forall q, Spec.no_space (other_digits q) = true.


End BinaryArc.



(** * Further properties of the code *)

(** ** Numbers that are the same value *)

Lemma same_add (u v w z : number) : u == v -> w == z -> u + w == v + z.
Proof.
  destruct u, v, w, z; simpl; try tauto. intros E F. rewrite E, F. reflexivity.
Qed.

Lemma same_neg (u v : number) : u == v -> - u == - v.
Proof. destruct u, v; simpl; try tauto. intros E. rewrite E. reflexivity. Qed.

Lemma same_Fin_iff (v : number) (x a : Q) :
  v == Fin x -> (v == Fin a <-> (x == a)%Q).
Proof.
  destruct v as [| | | w]; simpl; try tauto.
  intros E. rewrite E. tauto.
Qed.

Lemma same_both_iff (u v : number) (x y : Q) :
  u == Fin x -> v == Fin y -> (u == v <-> (x == y)%Q).
Proof.
  destruct u as [| | | p], v as [| | | q]; simpl; try tauto.
  intros E F. rewrite E, F. tauto.
Qed.

Lemma lt_of_same (v w : number) (p q : Q) :
  v == Fin p -> w == Fin q -> ((v <? w) = true <-> (p < q)%Q).
Proof.
  destruct v, w; simpl; try tauto. intros E1 E2. rewrite E1, E2.
  destruct (Qle_bool q p) eqn:T; [apply Qle_bool_iff in T | apply Qle_bool_false in T];
    simpl; split; intros H; try reflexivity; try discriminate H; try exact T.
  exfalso. lra.
Qed.

Lemma le_iff_of_same (v w : number) (p q : Q) :
  v == Fin p -> w == Fin q -> ((v <=? w) = true <-> (p <= q)%Q).
Proof.
  destruct v, w; simpl; try tauto. intros E1 E2. rewrite E1, E2. apply Qle_bool_iff.
Qed.

Lemma gt_of_same (u v w : number) : u == v -> (u >? w) = (v >? w).
Proof.
  destruct u, v, w; simpl; try tauto; try reflexivity.
  intros E. rewrite E. reflexivity.
Qed.

Lemma abs_sub_swap (a b : number) : Math_abs (b - a) == Math_abs (a - b).
Proof.
  destruct a as [| | | p], b as [| | | q]; try exact I.
  simpl. rewrite <- (Qabs_opp (p + - q)).
  assert (E : (- (p + - q) == q + - p)%Q) by ring. rewrite E. reflexivity.
Qed.

(** ** The angles stay on the dial *)

(** The value of a piece lies between the angles of its two anchors. *)
Ltac piece_range range B :=
  match goal with
  | |- (_ <= ?X <= _)%Q =>
      lazymatch X with
      | _ (_, ?a1, (_, ?a2)) _ =>
          let K := fresh "K" in
          assert (K : (a1 <= X <= a2)%Q);
          [ apply range; [lra | lra | exact B] | lra ]
      end
  end.

Lemma geometry_performance_range (q : Q) :
  Spec.on_dial (Geometry.mapPerformanceToAngle q).
Proof.
  unfold Spec.on_dial. rewrite geometry_performance_clamped.
  assert (R := clamp_range (-50) 50 q ltac:(lra)).
  destruct (clock_table_cover _ R) as (s & I & B & _).
  exists (Spec.linear_interpolation s (Spec.clamp (-50) 50 q)).
  split; [apply geometry_performance_on_segment; assumption |].
  revert B. generalize (Spec.clamp (-50) 50 q). intros c B.
  segment_cases I; piece_range linear_range B.
Qed.

Lemma hurdle_range (q : Q) :
  Spec.on_dial (Geometry.mapHurdlePercentToAngle q).
Proof.
  unfold Spec.on_dial. rewrite hurdle_clamped.
  assert (R := clamp_range 50 150 q ltac:(lra)).
  destruct (hurdle_table_cover _ R) as (s & I & B & _).
  exists (Spec.linear_interpolation s (Spec.clamp 50 150 q)).
  split; [apply hurdle_on_segment; assumption |].
  revert B. generalize (Spec.clamp 50 150 q). intros c B.
  segment_cases I; piece_range linear_range B.
Qed.

Lemma static_performance_range (q : Q) :
  Spec.on_dial (GenerateStatic.mapPerformanceToAngle q).
Proof.
  unfold Spec.on_dial. rewrite static_performance_clamped.
  assert (R := clamp_range (-50) 50 q ltac:(lra)).
  destruct (performance_table_cover _ R) as (s & I & B & _).
  exists (Spec.eased_interpolation s (Spec.clamp (-50) 50 q)).
  split; [apply static_performance_on_segment; assumption |].
  revert B. generalize (Spec.clamp (-50) 50 q). intros c B.
  segment_cases I; piece_range eased_range B.
Qed.

(** X1: whatever number other than [NaN] it is given, finite or infinite,
    each mapping function returns a finite angle between -120 and 120
    degrees: [mapPerformanceToAngle], [mapBarrierToAngle] and
    [mapHurdlePercentToAngle] of geometry.js and the eased
    [mapPerformanceToAngle] of generate-static.js, which stays on the dial
    for [NaN] as well. *)
Theorem angles_stay_on_dial (x : number) :
  x <> NaN ->
  Spec.on_dial (Geometry.mapPerformanceToAngle x)
  /\ Spec.on_dial (Geometry.mapBarrierToAngle x)
  /\ Spec.on_dial (Geometry.mapHurdlePercentToAngle x)
  /\ Spec.on_dial (GenerateStatic.mapPerformanceToAngle x)
  /\ Spec.on_dial (GenerateStatic.mapPerformanceToAngle NaN).
Proof.
  intros N. unfold Geometry.mapBarrierToAngle.
  assert (Z : Spec.on_dial (GenerateStatic.mapPerformanceToAngle NaN)).
  { exists 0%Q. split; [vm_compute; reflexivity | lra]. }
  destruct x as [| | | q]; [congruence | | |].
  - repeat split; try exact Z;
      exists 120%Q; (split; [vm_compute; reflexivity | lra]).
  - repeat split; try exact Z;
      exists (-120)%Q; (split; [vm_compute; reflexivity | lra]).
  - split; [apply geometry_performance_range |].
    split; [apply geometry_performance_range |].
    split; [apply hurdle_range |].
    split; [apply static_performance_range | exact Z].
Qed.

Lemma angles_stay_on_dial_witness :
  Spec.on_dial (Geometry.mapPerformanceToAngle PInf)
  /\ Spec.on_dial (Geometry.mapHurdlePercentToAngle PInf).
Proof.
  destruct (angles_stay_on_dial PInf) as (P & _ & H & _); [discriminate |].
  split; [exact P | exact H].
Defined.

(** X2: the two angles that DynamicLogo computes behind a
    [Number.isFinite] guard: [barrierAngle] is a finite angle of the dial
    for every number, [NaN] and the infinities included; [nextObsAngle] is
    [null] exactly when there is no next observation or its hurdle is not
    finite, and otherwise it is [mapHurdlePercentToAngle] of that hurdle, a
    finite angle of the dial. *)
Theorem guarded_angles_on_dial
    (x : number) (nextObservation : option DynamicLogo.Observation) :
  Spec.on_dial (DynamicLogo.barrierAngle x)
  /\ DynamicLogo.nextObsAngle None = None
  /\ (forall a, DynamicLogo.nextObsAngle nextObservation = Some a ->
       Spec.on_dial a
       /\ exists o, nextObservation = Some o
                    /\ Number_isFinite (DynamicLogo.hurdle_percent o) = true
                    /\ a = Geometry.mapHurdlePercentToAngle
                             (DynamicLogo.hurdle_percent o))
  /\ (DynamicLogo.nextObsAngle nextObservation = None <->
      nextObservation = None
      \/ exists o, nextObservation = Some o
                   /\ Number_isFinite (DynamicLogo.hurdle_percent o) = false).
Proof.
  split.
  { unfold DynamicLogo.barrierAngle. cbv zeta.
    destruct x as [| | | q]; cbn [Number_isFinite negb];
      [exists 0%Q; split; [reflexivity | lra] ..
      | apply geometry_performance_range]. }
  split; [reflexivity |].
  unfold DynamicLogo.nextObsAngle.
  destruct nextObservation as [o |]; cbv zeta.
  - destruct (Number_isFinite (DynamicLogo.hurdle_percent o)) eqn:V;
      cbn [negb].
    + split.
      * intros a H. inversion H; subst a.
        split; [destruct (DynamicLogo.hurdle_percent o);
                try discriminate V; apply hurdle_range |].
        exists o. split; [reflexivity |]. split; [exact V | reflexivity].
      * split; [intros H; discriminate H |].
        intros [H | (o' & H & W)]; [discriminate H |].
        inversion H; subst o'. rewrite V in W. discriminate W.
    + split; [intros a H; discriminate H |].
      split; [| reflexivity].
      intros _. right. exists o. split; [reflexivity | exact V].
  - split; [intros a H; discriminate H |].
    split; [| reflexivity]. intros _. left. reflexivity.
Qed.

(** ** The hurdle mapping and the performance mapping *)

(** The two clamped arguments as rationals [c] and [d] of their ranges. *)
Ltac two_clamps lo1 hi1 v1 lo2 hi2 v2 :=
  rewrite ?Math_min_Fin, ?Math_max_Fin;
  fold (Spec.clamp lo1 hi1 v1); fold (Spec.clamp lo2 hi2 v2);
  let C := fresh "C" in let E := fresh "E" in
  let D := fresh "D" in let F := fresh "F" in
  destruct (clamp_spec lo1 hi1 v1) as [[C E] | [[C E] | [C E]]]; [lra | | |];
  (destruct (clamp_spec lo2 hi2 v2) as [[D F] | [[D F] | [D F]]]; [lra | | |]);
  try (exfalso; lra);
  revert E F; generalize (Spec.clamp lo1 hi1 v1) (Spec.clamp lo2 hi2 v2);
  intros c d E F.

Lemma hurdle_shifted (h : Q) :
  Geometry.mapHurdlePercentToAngle h == Geometry.mapPerformanceToAngle (Fin h - 100).
Proof.
  change (Fin h - 100) with (Fin (h + - 100)).
  cbv beta zeta delta [Geometry.mapHurdlePercentToAngle Geometry.mapPerformanceToAngle].
  two_clamps 50 150 h (-50) 50 (h + - 100)%Q.
  all: num_cases; rewrite ?Qdiv_by_positive; lra.
Qed.

Lemma hurdle_shifted_number (h : number) :
  Geometry.mapHurdlePercentToAngle h == Geometry.mapPerformanceToAngle (h - 100).
Proof.
  destruct h as [| | | q];
    [vm_compute; reflexivity | vm_compute; reflexivity | vm_compute; reflexivity |].
  apply hurdle_shifted.
Qed.

Lemma geometry_performance_odd (q : Q) :
  Geometry.mapPerformanceToAngle (- Fin q) == - Geometry.mapPerformanceToAngle q.
Proof.
  change (- Fin q) with (Fin (- q)).
  cbv beta zeta delta [Geometry.mapPerformanceToAngle].
  two_clamps (-50) 50 (- q)%Q (-50) 50 q.
  all: num_cases; rewrite ?Qdiv_by_positive; lra.
Qed.

Lemma geometry_performance_refines (pct : Q) :
  Geometry.mapPerformanceToAngle pct == Spec.linear_angle pct.
Proof.
  rewrite geometry_performance_clamped. unfold Spec.linear_angle, Spec.interpolate.
  assert (R := clamp_range (-50) 50 pct ltac:(lra)).
  destruct (clock_table_cover _ R) as (s0 & I0 & B0 & _).
  destruct (locate_some _ _ _ I0 B0) as (s & -> & Is & Bs).
  apply geometry_performance_on_segment; assumption.
Qed.

Lemma same_Fin_Qeq (v : number) (p q : Q) : v == Fin p -> v == Fin q -> (p == q)%Q.
Proof.
  intros A B. assert (K : Fin p == Fin q).
  { eapply same_trans; [apply same_sym, A | exact B]. }
  exact K.
Qed.

(** X3: in geometry.js the hurdle mapping is the performance mapping
    shifted by 100: [mapHurdlePercentToAngle(h)] is
    [mapPerformanceToAngle(h - 100)] for every number, [NaN] and the
    infinities included; in binary64 the two are equal on the 200 numbers
    on either side of each anchor of the hurdle table ([h - 100] is exact
    on [50, 150]).  The other way round the shift is exact only without
    rounding: [mapPerformanceToAngle(p)] is the value of the exact hurdle
    mapping at [p + 100], but the code rounds [p + 100] before it maps it:
    for [p = 2^-60] the performance mapping gives [1.5 * 2^-58] and
    [mapHurdlePercentToAngle(p + 100)] gives 0. *)
Theorem hurdle_is_performance_shifted (x : number) (q : Q) :
  Geometry.mapHurdlePercentToAngle x == Geometry.mapPerformanceToAngle (x - 100)
  /\ forallb
       (fun a =>
          forallb
            (fun h =>
               (Binary64.Geometry.mapHurdlePercentToAngle h
                =? Binary64.Geometry.mapPerformanceToAngle (h - 100))%float)
            (Binary64.neighbours 200 a))
       [50; 70; 85; 95; 100; 105; 115; 130; 150]%float
     = true
  /\ Geometry.mapPerformanceToAngle q == Fin (Spec.mapHurdlePercentToAngle (q + 100))
  /\ Geometry.mapHurdlePercentToAngle q == Fin (Spec.linear_angle (q - 100))
  /\ (Binary64.Geometry.mapPerformanceToAngle 0x1p-60 = 0x1.8p-58
      /\ Binary64.Geometry.mapHurdlePercentToAngle (0x1p-60 + 100) = 0)%float.
Proof.
  split; [apply hurdle_shifted_number |].
  split; [vm_compute; reflexivity |].
  split; [| split; [| split; vm_compute; reflexivity]].
  - eapply same_trans; [| apply (hurdle_refines (q + 100))].
    apply same_sym. eapply same_trans; [apply hurdle_shifted |].
    change (Fin (q + 100) - 100) with (Fin (q + 100 + - 100)).
    apply geometry_performance_Qeq. ring.
  - eapply same_trans; [apply hurdle_shifted |].
    apply (geometry_performance_refines (q - 100)).
Qed.

(** X4: the piecewise-linear mapping of geometry.js is odd,
    [mapPerformanceToAngle(-x) = -mapPerformanceToAngle(x)], for every
    number, and in binary64 on the 200 numbers on either side of each of
    its anchors.  Its hurdle mapping is mirrored about 100 up to rounding:
    [mapHurdlePercentToAngle(x)] is the opposite of the exact hurdle
    mapping at [200 - x], but the code rounds [200 - x]: for
    [x = 50 + 2^-47] it gives 120 for [200 - x] and -119.99999999999999
    for [x].  The eased mapping of generate-static.js is not odd: it gives
    51.6 for 10 and -32.4 for -10 (-32.400000000000006 in binary64). *)
Theorem geometry_mappings_symmetric (x : number) (q : Q) :
  Geometry.mapPerformanceToAngle (- x) == - Geometry.mapPerformanceToAngle x
  /\ forallb
       (fun a =>
          forallb
            (fun p =>
               (Binary64.Geometry.mapPerformanceToAngle (- p)
                =? - Binary64.Geometry.mapPerformanceToAngle p)%float)
            (Binary64.neighbours 200 a))
       [-50; -30; -15; -5; 0; 5; 15; 30; 50]%float
     = true
  /\ Geometry.mapHurdlePercentToAngle q
     == Fin (- Spec.mapHurdlePercentToAngle (200 - q))
  /\ (Binary64.Geometry.mapHurdlePercentToAngle (200 - 0x1.9000000000001p+5) = 120
      /\ - Binary64.Geometry.mapHurdlePercentToAngle 0x1.9000000000001p+5
         = 0x1.dffffffffffffp+6)%float
  /\ GenerateStatic.mapPerformanceToAngle 10 == 51.6
  /\ GenerateStatic.mapPerformanceToAngle (-10) == -32.4
  /\ (Binary64.GenerateStatic.mapPerformanceToAngle 10 = 0x1.9cccccccccccdp+5
      /\ Binary64.GenerateStatic.mapPerformanceToAngle (-10)
         = -0x1.0333333333334p+5)%float.
Proof.
  split.
  { destruct x as [| | | p];
      [vm_compute; reflexivity | vm_compute; reflexivity | vm_compute; reflexivity |].
    apply geometry_performance_odd. }
  split; [vm_compute; reflexivity |].
  split; [| repeat split; vm_compute; reflexivity].
  assert (M : Geometry.mapHurdlePercentToAngle (Fin (200 - q))
              == - Geometry.mapHurdlePercentToAngle q).
  { change (200 - q)%Q with (200 + - q)%Q.
    eapply same_trans; [apply hurdle_shifted |].
    change (Fin (200 + - q) - 100) with (Fin (200 + - q + - 100)).
    eapply same_trans;
      [apply (geometry_performance_Qeq _ (- (q + - 100))%Q); ring |].
    eapply same_trans; [apply (geometry_performance_odd (q + - 100)) |].
    apply same_neg, same_sym. apply hurdle_shifted. }
  assert (R := hurdle_refines (200 - q)).
  assert (H := hurdle_refines q).
  revert M R H.
  generalize (Geometry.mapHurdlePercentToAngle (Fin (200 - q)))
             (Geometry.mapHurdlePercentToAngle q)
             (Spec.mapHurdlePercentToAngle (200 - q))
             (Spec.mapHurdlePercentToAngle q).
  intros u v a b.
  destruct u as [| | | u], v as [| | | v]; simpl; try tauto.
  intros M R H. lra.
Qed.

(** ** The eased mapping against the linear one *)

(** The position within a segment as a rational [t] with its equation. *)
Ltac positions :=
  repeat match goal with
  | |- context [(?a / ?b)%Q] =>
      let t := fresh "t" in
      let Et := fresh "Et" in
      assert (Et : ((a / b) * b == a)%Q); [field; vm_compute; discriminate |];
      revert Et; generalize (a / b)%Q; intros t Et
  end.

Ltac strict_or_equal :=
  repeat match goal with
  | H : (_ <= _)%Q |- _ => apply Qle_lteq in H; destruct H as [H | H]
  end.

Ltac anchor_found c :=
  match goal with
  | H : (c == ?p)%Q |- Spec.is_anchor _ c =>
      solve [exists p; eexists; split; [cbn; eauto 10 | exact H]]
  | H : (?p == c)%Q |- Spec.is_anchor _ c =>
      solve [exists p; eexists; split; [cbn; eauto 10 | symmetry; exact H]]
  end.

Lemma static_geometry_gap (c : Q) :
  (-50 <= c <= 50)%Q ->
  exists X Y : Q,
    Geometry.mapPerformanceToAngle c == Fin X
    /\ GenerateStatic.mapPerformanceToAngle c == Fin Y
    /\ (X <= Y)%Q
    /\ ((X == Y)%Q <-> Spec.is_anchor Spec.performance_table c).
Proof.
  intros R.
  destruct (clock_table_cover _ R) as (s & Is & Bs & _).
  destruct (performance_table_cover _ R) as (t & It & Bt & _).
  exists (Spec.linear_interpolation s c), (Spec.eased_interpolation t c).
  split; [apply geometry_performance_on_segment; assumption |].
  split; [apply static_performance_on_segment; assumption |].
  clear R.
  segment_cases Is; segment_cases It; spec_unfold;
    destruct Bs, Bt; try (exfalso; lra); positions.
  all: split; [nra |].
  all: split;
    [ intros E; strict_or_equal; try (exfalso; lra); try anchor_found c; exfalso; nra
    | intros (p & a & I & E); cbn in I;
      repeat (destruct I as [I | I]; [inversion I; subst p a; clear I |]);
      try contradiction I; try (exfalso; lra); nra ].
Qed.

(** The two exact angles of a performance, with their order. *)
Lemma exact_angles_gap (q : Q) :
  (Spec.linear_angle q <= Spec.mapPerformanceToAngle q)%Q
  /\ ((Spec.linear_angle q == Spec.mapPerformanceToAngle q)%Q
      <-> Spec.is_anchor Spec.performance_table (Spec.clamp (-50) 50 q)).
Proof.
  destruct (static_geometry_gap _ (clamp_range (-50) 50 q ltac:(lra)))
    as (X & Y & G & S & L & A).
  rewrite <- geometry_performance_clamped in G.
  rewrite <- static_performance_clamped in S.
  assert (EX := same_Fin_Qeq _ _ _ G (geometry_performance_refines q)).
  assert (EY := same_Fin_Qeq _ _ _ S (static_performance_refines q)).
  split; [lra |].
  eapply iff_trans; [| exact A]. split; intros H; lra.
Qed.

(** X5: for every finite performance the pointer angle of
    generate-static.js (eased, 7 anchors) is at least the pointer angle of
    geometry.js (linear, 9 anchors), and the two are equal when the clamped
    performance is one of the seven anchors -50, -30, -5, 0, 5, 30 and 50;
    in binary64 the order holds on the 200 numbers on either side of each
    of the nine anchors of geometry.js, and the equality at the seven
    anchors.  The two copies compute the linear and the eased interpolation
    of the clamped performance, and these two exact values differ
    everywhere else: the static image shows the pointer further clockwise
    than the live component.  After rounding the two can still coincide
    off an anchor: for the binary64 number just below 30 both copies
    return 90. *)
Theorem static_pointer_leads (q : Q) :
  (Geometry.mapPerformanceToAngle q <=? GenerateStatic.mapPerformanceToAngle q) = true
  /\ (Spec.is_anchor Spec.performance_table (Spec.clamp (-50) 50 q) ->
      Geometry.mapPerformanceToAngle q == GenerateStatic.mapPerformanceToAngle q)
  /\ forallb
       (fun a =>
          forallb
            (fun x =>
               (Binary64.Geometry.mapPerformanceToAngle x
                <=? Binary64.GenerateStatic.mapPerformanceToAngle x)%float)
            (Binary64.neighbours 200 a))
       [-50; -30; -15; -5; 0; 5; 15; 30; 50]%float
     = true
  /\ forallb
       (fun a =>
          (Binary64.Geometry.mapPerformanceToAngle a
           =? Binary64.GenerateStatic.mapPerformanceToAngle a)%float)
       [-50; -30; -5; 0; 5; 30; 50]%float
     = true
  /\ Geometry.mapPerformanceToAngle q == Fin (Spec.linear_angle q)
  /\ GenerateStatic.mapPerformanceToAngle q == Fin (Spec.mapPerformanceToAngle q)
  /\ ((Spec.linear_angle q == Spec.mapPerformanceToAngle q)%Q
      <-> Spec.is_anchor Spec.performance_table (Spec.clamp (-50) 50 q))
  /\ ((0x1.dffffffffffffp+4 <? 30) = true
      /\ Binary64.Geometry.mapPerformanceToAngle 0x1.dffffffffffffp+4 = 90
      /\ Binary64.GenerateStatic.mapPerformanceToAngle 0x1.dffffffffffffp+4 = 90)%float.
Proof.
  assert (G := geometry_performance_refines q).
  assert (S := static_performance_refines q).
  destruct (exact_angles_gap q) as [L A].
  split; [apply (le_of_same _ _ _ _ G S L) |].
  split; [intros I; apply (same_both_iff _ _ _ _ G S), A, I |].
  split; [vm_compute; reflexivity |].
  split; [vm_compute; reflexivity |].
  split; [exact G |]. split; [exact S |]. split; [exact A |].
  repeat split; vm_compute; reflexivity.
Qed.

(** ** The labels of the scale *)

Ltac each_anchor I p a :=
  cbn [Spec.performance_table In] in I;
  repeat (destruct I as [I | I]; [inversion I; subst p a; clear I |]);
  try contradiction I.

Lemma linear_meets_anchor (s : Spec.segment) (q p a : Q) :
  In s (Spec.segments Spec.clock_table) -> Spec.brackets s q ->
  In (p, a) Spec.performance_table ->
  ((Spec.linear_interpolation s q == a)%Q <-> (q == p)%Q).
Proof.
  intros Is Bs I. each_anchor I p a.
  all: segment_cases Is; spec_unfold; destruct Bs; positions; split; intros E; lra.
Qed.

Lemma eased_meets_anchor (s : Spec.segment) (q p a : Q) :
  In s (Spec.segments Spec.performance_table) -> Spec.brackets s q ->
  In (p, a) Spec.performance_table ->
  ((Spec.eased_interpolation s q == a)%Q <-> (q == p)%Q).
Proof.
  intros Is Bs I. each_anchor I p a.
  all: segment_cases Is; spec_unfold; destruct Bs; positions; split; intros E; nra.
Qed.

Lemma pointer_meets_anchor (q p a : Q) :
  In (p, a) Spec.performance_table ->
  (-50 <= q <= 50)%Q ->
  (Geometry.mapPerformanceToAngle q == Fin a <-> (q == p)%Q)
  /\ (GenerateStatic.mapPerformanceToAngle q == Fin a <-> (q == p)%Q).
Proof.
  intros I R.
  destruct (clock_table_cover _ R) as (s & Is & Bs & _).
  destruct (performance_table_cover _ R) as (t & It & Bt & _).
  split.
  - eapply iff_trans;
      [apply (same_Fin_iff _ _ a (geometry_performance_on_segment s q Is Bs)) |].
    apply linear_meets_anchor; assumption.
  - eapply iff_trans;
      [apply (same_Fin_iff _ _ a (static_performance_on_segment t q It Bt)) |].
    apply eased_meets_anchor; assumption.
Qed.

Lemma exact_angles_meet_anchor (q p a : Q) :
  In (p, a) Spec.performance_table ->
  (-50 <= q <= 50)%Q ->
  ((Spec.linear_angle q == a)%Q <-> (q == p)%Q)
  /\ ((Spec.mapPerformanceToAngle q == a)%Q <-> (q == p)%Q).
Proof.
  intros I R. destruct (pointer_meets_anchor q p a I R) as [G S].
  split.
  - eapply iff_trans; [| exact G]. apply iff_sym.
    apply (same_Fin_iff _ _ a (geometry_performance_refines q)).
  - eapply iff_trans; [| exact S]. apply iff_sym.
    apply (same_Fin_iff _ _ a (static_performance_refines q)).
Qed.

(** X6: every label of the scale is printed where the pointer is for the
    percentage it prints: for each marker of the scale (the same seven in
    generate-static.js and in DynamicLogo), both [mapPerformanceToAngle]
    map the percentage of the label to the marker's angle, in binary64
    too.  The linear and the eased interpolation that the two copies
    compute take that angle at no other performance of [-50, 50]; after
    rounding other inputs reach it: the eased copy returns 0 for [-2^-48]
    and 30 for [5 - 2^-50], where the linear copy returns
    29.999999999999993. *)
Theorem pointer_meets_scale_marker (angle : number) (label : string) :
  In (angle, label) GenerateStatic.scaleMarkers ->
  In (angle, label) DynamicLogo.markers
  /\ (exists p a : Q,
        Spec.percent_of_label label = Some p
        /\ angle = Fin a
        /\ Geometry.mapPerformanceToAngle p == angle
        /\ GenerateStatic.mapPerformanceToAngle p == angle
        /\ (forall q : Q, (-50 <= q <= 50)%Q ->
              Geometry.mapPerformanceToAngle q == Fin (Spec.linear_angle q)
              /\ GenerateStatic.mapPerformanceToAngle q
                 == Fin (Spec.mapPerformanceToAngle q)
              /\ ((Spec.linear_angle q == a)%Q <-> (q == p)%Q)
              /\ ((Spec.mapPerformanceToAngle q == a)%Q <-> (q == p)%Q)))
  /\ forallb
       (fun m : float * float =>
          (Binary64.Geometry.mapPerformanceToAngle (fst m) =? snd m)%float
          && (Binary64.GenerateStatic.mapPerformanceToAngle (fst m) =? snd m)%float)
       [(0, 0); (5, 30); (30, 90); (50, 120);
        (-5, -30); (-30, -90); (-50, -120)]%float
     = true
  /\ ((Binary64.GenerateStatic.mapPerformanceToAngle (-0x1p-48) =? 0) = true
      /\ Binary64.GenerateStatic.mapPerformanceToAngle (5 - 0x1p-50) = 30
      /\ Binary64.Geometry.mapPerformanceToAngle (5 - 0x1p-50)
         = 0x1.dfffffffffffep+4)%float.
Proof.
  intros I. split; [exact I |].
  split; [| repeat split; vm_compute; reflexivity].
  cbn [GenerateStatic.scaleMarkers In] in I.
  repeat (destruct I as [I | I]; [inversion I; subst angle label; clear I |]);
    try contradiction I.
  all: match goal with
       | |- context [Spec.percent_of_label ?l] =>
           let p := eval vm_compute in (Spec.percent_of_label l) in
           match p with
           | Some ?v => exists v
           end
       end.
  all: eexists; split; [vm_compute; reflexivity |]; split; [reflexivity |].
  all: split; [vm_compute; reflexivity |]; split; [vm_compute; reflexivity |].
  all: intros q R; split; [apply geometry_performance_refines |];
    split; [apply static_performance_refines |];
    apply exact_angles_meet_anchor; [cbn; tauto | exact R].
Qed.

Lemma pointer_meets_scale_marker_witness :
  exists p : Q,
    Spec.percent_of_label "+30%" = Some p
    /\ Geometry.mapPerformanceToAngle p == 90
    /\ GenerateStatic.mapPerformanceToAngle p == 90.
Proof.
  destruct (pointer_meets_scale_marker 90 "+30%")
    as (_ & (p & a & L & _ & G & S & _) & _); [cbn; tauto |].
  exists p. split; [exact L |]. split; [exact G | exact S].
Defined.

(** ** The barrier of the static script *)

(** X7: the closed-form [mapBarrierToAngle] of generate-static.js is even
    in the barrier percentage, never above -45 degrees, and not clamped: its
    angle is on the dial exactly when the percentage is within 50 of zero,
    while the [mapBarrierToAngle] of geometry.js is on the dial for every
    finite percentage; in binary64 these hold on the 200 numbers on either
    side of 50, -50 and 0.  The closed form and the piecewise-linear
    interpolation that the two functions compute are the same value exactly
    on [-50, -30]; the two results agree there up to rounding only: at
    -40.650000000000531 they differ in the last bit. *)
Theorem static_barrier_leaves_dial (pct : Q) :
  GenerateStatic.mapBarrierToAngle (- Fin pct) == GenerateStatic.mapBarrierToAngle pct
  /\ (GenerateStatic.mapBarrierToAngle pct <=? -45) = true
  /\ (Spec.on_dial (GenerateStatic.mapBarrierToAngle pct) <-> (Qabs pct <= 50)%Q)
  /\ Spec.on_dial (Geometry.mapBarrierToAngle pct)
  /\ forallb
       (fun x =>
          Bool.eqb (-120 <=? Binary64.GenerateStatic.mapBarrierToAngle x)%float
                   (abs x <=? 50)%float
          && (Binary64.GenerateStatic.mapBarrierToAngle (- x)
              =? Binary64.GenerateStatic.mapBarrierToAngle x)%float
          && (Binary64.GenerateStatic.mapBarrierToAngle x <=? -45)%float)
       (Binary64.neighbours 200 50 ++ Binary64.neighbours 200 (-50)
        ++ Binary64.neighbours 200 0)%float
     = true
  /\ GenerateStatic.mapBarrierToAngle pct == Fin (- (90 + (Qabs pct - 30) * 1.5))
  /\ Geometry.mapBarrierToAngle pct == Fin (Spec.linear_angle pct)
  /\ ((- (90 + (Qabs pct - 30) * 1.5) == Spec.linear_angle pct)%Q
      <-> (-50 <= pct <= -30)%Q)
  /\ (Binary64.GenerateStatic.mapBarrierToAngle (-0x1.453333333337ep+5)
      = -0x1.a7e666666669ep+6
      /\ Binary64.Geometry.mapBarrierToAngle (-0x1.453333333337ep+5)
         = -0x1.a7e666666669fp+6)%float.
Proof.
  assert (P : (0 <= Qabs pct)%Q) by apply Qabs_nonneg.
  assert (C := static_barrier_closed_form pct).
  assert (G : Geometry.mapBarrierToAngle pct == Fin (Spec.linear_angle pct))
    by apply geometry_performance_refines.
  split; [| split; [| split; [| split; [| split; [| split; [| split; [| split]]]]]]].
  - change (- Fin pct) with (Fin (- pct)).
    eapply same_trans; [apply static_barrier_closed_form |].
    apply same_sym. eapply same_trans; [exact C |].
    unfold same. rewrite Qabs_opp. reflexivity.
  - apply (le_of_same _ _ _ (-45)%Q C); [reflexivity |]. lra.
  - unfold Spec.on_dial. split.
    + intros (a & E & R).
      assert (K : Fin (- (90 + (Qabs pct - 30) * 1.5)) == Fin a).
      { eapply same_trans; [apply same_sym, C | exact E]. }
      simpl in K. lra.
    + intros H. exists (- (90 + (Qabs pct - 30) * 1.5))%Q. split; [exact C | lra].
  - apply geometry_performance_range.
  - vm_compute. reflexivity.
  - exact C.
  - exact G.
  - eapply iff_trans; [| apply barrier_mappings_agree_iff].
    apply iff_sym. apply (same_both_iff _ _ _ _ C G).
  - split; vm_compute; reflexivity.
Qed.

(** ** easeOutQuad *)

(** X8: on the unit interval [easeOutQuad] stays between its argument and
    1, takes 0 to 0 and 1 to 1, and geometry.js and generate-static.js
    define the same function.  Its value is the curve [1 - (1 - t)^2], which
    is non-decreasing on the interval; the computed value is not: in
    binary64, for [t = 1 - 6 * 2^-53] and the next number
    [u = 1 - 5 * 2^-53], [easeOutQuad(t)] is 1 and [easeOutQuad(u)] is
    [1 - 2^-53]. *)
Theorem easeOutQuad_on_unit_interval (t u : Q) :
  (0 <= t)%Q -> (t <= u)%Q -> (u <= 1)%Q ->
  (Fin t <=? Geometry.easeOutQuad t) = true
  /\ (Geometry.easeOutQuad t <=? 1) = true
  /\ Geometry.easeOutQuad 0 == 0
  /\ Geometry.easeOutQuad 1 == 1
  /\ GenerateStatic.easeOutQuad t = Geometry.easeOutQuad t
  /\ Geometry.easeOutQuad t == Fin (Spec.easeOutQuad t)
  /\ (Spec.easeOutQuad t == 1 - (1 - t) * (1 - t))%Q
  /\ (Spec.easeOutQuad t <= Spec.easeOutQuad u)%Q
  /\ ((0x1.ffffffffffffap-1 <? 0x1.ffffffffffffbp-1) = true
      /\ Binary64.Geometry.easeOutQuad 0x1.ffffffffffffap-1 = 1
      /\ Binary64.Geometry.easeOutQuad 0x1.ffffffffffffbp-1 = 0x1.fffffffffffffp-1
      /\ Binary64.GenerateStatic.easeOutQuad 0x1.ffffffffffffap-1 = 1
      /\ Binary64.GenerateStatic.easeOutQuad 0x1.ffffffffffffbp-1
         = 0x1.fffffffffffffp-1)%float.
Proof.
  intros L M U.
  change (Geometry.easeOutQuad t) with (Fin (t * (2 + - t))).
  split; [apply Qle_bool_iff; nra |].
  split; [apply Qle_bool_iff; nra |].
  split; [vm_compute; reflexivity |].
  split; [vm_compute; reflexivity |].
  split; [reflexivity |].
  unfold Spec.easeOutQuad.
  split; [simpl; ring |].
  split; [ring |].
  split; [nra |].
  repeat split; vm_compute; reflexivity.
Qed.

Lemma easeOutQuad_on_unit_interval_witness :
  (Fin 0.25 <=? Geometry.easeOutQuad 0.25) = true
  /\ (Spec.easeOutQuad 0.25 <= Spec.easeOutQuad 0.5)%Q.
Proof.
  destruct (easeOutQuad_on_unit_interval 0.25 0.5) as (A & _ & _ & _ & _ & _ & _ & B & _);
    [vm_compute; discriminate .. |].
  split; [exact A | exact B].
Defined.

(** ** calculatePerformance and the pointer *)

Lemma Qcompare_nonzero (i : Q) :
  ~ (i == 0)%Q -> (i ?= 0)%Q = Lt \/ (i ?= 0)%Q = Gt.
Proof.
  intros N. destruct (Qcompare_spec i 0) as [E | L | G]; [contradiction | auto | auto].
Qed.

Lemma calculatePerformance_finite (i c : Q) :
  ~ (i == 0)%Q ->
  Geometry.calculatePerformance i c = Fin ((c + - i) / i * 100)%Q.
Proof.
  intros N. unfold Geometry.calculatePerformance. num_unfold.
  destruct (Qcompare_nonzero i N) as [K | K]; rewrite K; reflexivity.
Qed.

(** X9: [calculatePerformance] undoes a percentage change: for a non-zero
    initial level [i] and any percentage [p], the performance of the level
    [i * (1 + p / 100)] is [p], in geometry.js and in generate-static.js;
    the performance of the initial level itself is 0, and for a positive
    initial level the performance is at least 0 exactly when the current
    level is at least the initial one.  This is exact arithmetic: in
    binary64 the round trip holds up to rounding only, for 7400 and 10 it
    gives a number within 2^-40 of 10 that is not 10. *)
Theorem calculatePerformance_round_trip (i p : Q) :
  ~ (i == 0)%Q ->
  Geometry.calculatePerformance i (Fin i * (1 + Fin p / 100)) == p
  /\ GenerateStatic.calculatePerformance i (Fin i * (1 + Fin p / 100)) == p
  /\ Geometry.calculatePerformance i i == 0
  /\ (forall c : Q, (0 < i)%Q ->
        ((Geometry.calculatePerformance i c >=? 0) = true <-> (i <= c)%Q))
  /\ (let v := Binary64.Geometry.calculatePerformance 7400 (7400 * (1 + 10 / 100)) in
      (v =? 10) = false /\ (abs (v - 10) <? 0x1p-40) = true)%float.
Proof.
  intros N.
  assert (G : Geometry.calculatePerformance i (Fin i * (1 + Fin p / 100)) == p).
  { change (Fin i * (1 + Fin p / 100)) with (Fin (i * (1 + p / 100))).
    rewrite calculatePerformance_finite by exact N. simpl. field. exact N. }
  split; [exact G |]. split; [exact G |].
  split; [| split; [| split; vm_compute; reflexivity]].
  - rewrite calculatePerformance_finite by exact N. simpl. field. exact N.
  - intros c P. rewrite calculatePerformance_finite by exact N.
    num_unfold. rewrite Qle_bool_iff. split; intros H.
    + assert (K : (0 <= (c + - i) / i)%Q) by lra.
      apply (Qmult_le_compat_r _ _ i) in K; [| lra].
      assert (F : ((c + - i) / i * i == c + - i)%Q) by (field; exact N). lra.
    + assert (K : (0 <= (c + - i) / i)%Q).
      { apply Qle_shift_div_l; [exact P | lra]. }
      lra.
Qed.

Lemma calculatePerformance_round_trip_witness :
  Geometry.calculatePerformance 7400 (Fin 7400 * (1 + Fin 10 / 100)) == 10.
Proof.
  apply (calculatePerformance_round_trip 7400 10). vm_compute. discriminate.
Defined.

(** Division by a zero level in binary64, from the specification of the
    binary64 operations: the sign of the infinity is the sign of the
    current level, reversed for the negative zero. *)
Lemma performance_of_zero_level (i c : float) (si sc : bool) :
  Prim2SF i = S754_zero si ->
  (exists m e, Prim2SF c = S754_finite sc m e) \/ Prim2SF c = S754_infinity sc ->
  Binary64.Geometry.calculatePerformance i c
  = if xorb sc si then neg_infinity else infinity.
Proof.
  intros I C. apply Prim2SF_inj.
  unfold Binary64.Geometry.calculatePerformance.
  rewrite mul_spec, div_spec, sub_spec, I.
  change (Prim2SF 100) with (S754_finite false 7036874417766400 (-46)).
  destruct C as [(m & e & C) | C]; rewrite C;
    destruct sc, si; reflexivity.
Qed.

Lemma performance_of_zero_levels (i c : float) (si sc : bool) :
  Prim2SF i = S754_zero si -> Prim2SF c = S754_zero sc ->
  Binary64.Geometry.calculatePerformance i c = nan.
Proof.
  intros I C. apply Prim2SF_inj.
  unfold Binary64.Geometry.calculatePerformance.
  rewrite mul_spec, div_spec, sub_spec, I, C.
  destruct sc, si; reflexivity.
Qed.

Lemma positive_float (c : float) :
  (0 <? c)%float = true ->
  (exists m e, Prim2SF c = S754_finite false m e) \/ Prim2SF c = S754_infinity false.
Proof.
  rewrite ltb_spec. change (Prim2SF 0) with (S754_zero false).
  destruct (Prim2SF c) as [s | s | | s m e]; cbn; try discriminate.
  - destruct s; [discriminate | auto].
  - destruct s; [discriminate |]. intros _. left. eauto.
Qed.

Lemma negative_float (c : float) :
  (c <? 0)%float = true ->
  (exists m e, Prim2SF c = S754_finite true m e) \/ Prim2SF c = S754_infinity true.
Proof.
  rewrite ltb_spec. change (Prim2SF 0) with (S754_zero false).
  destruct (Prim2SF c) as [s | s | | s m e]; cbn; try discriminate.
  - destruct s; [auto | discriminate].
  - destruct s; [| discriminate]. intros _. left. eauto.
Qed.

Lemma zero_float (c : float) :
  (c =? 0)%float = true -> exists s, Prim2SF c = S754_zero s.
Proof.
  rewrite eqb_spec. change (Prim2SF 0) with (S754_zero false).
  destruct (Prim2SF c) as [s | s | | s m e];
    try destruct s; cbn; try discriminate; eauto.
Qed.

(** X10: the pointer angle of DynamicLogo,
    [mapPerformanceToAngle(calculatePerformance(initial, current))].  With
    a finite non-zero initial level it is a finite angle of the dial.
    With an initial level of zero the performance is a division by zero,
    and the sign of the zero decides the side, for every binary64 current
    level: with [+0] the pointer is at 120 for a positive current level
    and at -120 for a negative one, with [-0] it is at -120 for a positive
    current level and at 120 for a negative one, and with either zero it is
    [NaN] when the current level is a zero too. *)
Theorem pointer_angle_of_levels (i c : Q) (level : float) :
  (~ (i == 0)%Q -> Spec.on_dial (DynamicLogo.pointerAngle i c))
  /\ ((0 <? level)%float = true ->
      Binary64.DynamicLogo.pointerAngle 0 level = 120%float
      /\ Binary64.DynamicLogo.pointerAngle neg_zero level = (-120)%float)
  /\ ((level <? 0)%float = true ->
      Binary64.DynamicLogo.pointerAngle 0 level = (-120)%float
      /\ Binary64.DynamicLogo.pointerAngle neg_zero level = 120%float)
  /\ ((level =? 0)%float = true ->
      Binary64.DynamicLogo.pointerAngle 0 level = nan
      /\ Binary64.DynamicLogo.pointerAngle neg_zero level = nan).
Proof.
  split.
  { intros N. unfold DynamicLogo.pointerAngle. cbv zeta.
    rewrite calculatePerformance_finite by exact N. apply geometry_performance_range. }
  unfold Binary64.DynamicLogo.pointerAngle. cbv zeta.
  split; [| split]; intros H.
  - apply positive_float in H.
    rewrite (performance_of_zero_level 0 level false false eq_refl H).
    rewrite (performance_of_zero_level neg_zero level true false eq_refl H).
    split; vm_compute; reflexivity.
  - apply negative_float in H.
    rewrite (performance_of_zero_level 0 level false true eq_refl H).
    rewrite (performance_of_zero_level neg_zero level true true eq_refl H).
    split; vm_compute; reflexivity.
  - apply zero_float in H. destruct H as [s H].
    rewrite (performance_of_zero_levels 0 level false s eq_refl H).
    rewrite (performance_of_zero_levels neg_zero level true s eq_refl H).
    split; vm_compute; reflexivity.
Qed.

(** ** Dates, rotation and ticks *)

Section Calendar.

Variable Date_parse : string -> number.

Lemma static_tick_valid (start_date current_date obs_date : DateArg) (ts tc to : Q) :
  timeValue Date_parse start_date = Fin ts ->
  timeValue Date_parse current_date = Fin tc ->
  timeValue Date_parse obs_date = Fin to ->
  GenerateStatic.tickAngle Date_parse start_date current_date obs_date
  == Fin ((tc - to) / 86400000 * (360 / 3650))%Q.
Proof.
  intros S C O. unfold GenerateStatic.tickAngle. cbv zeta.
  rewrite static_rotation_is_geometry, static_daysBetween_timeValue.
  unfold Geometry.calculateRotationAngle.
  rewrite geometry_daysBetween_timeValue, S, C, O.
  date_unfold. num_unfold. num_compare. field.
Qed.

Lemma tick_valid (startDate observationDate currentDate : DateArg) (ts to : Q) :
  timeValue Date_parse startDate = Fin ts ->
  timeValue Date_parse observationDate = Fin to ->
  Geometry.calculateObservationTickAngle Date_parse startDate observationDate currentDate
  == Fin (- ((to - ts) / 86400000 * (360 / 3650)))%Q.
Proof.
  intros S O. unfold Geometry.calculateObservationTickAngle. cbv zeta.
  rewrite geometry_daysBetween_timeValue, S, O.
  date_unfold. num_unfold. num_compare. field.
Qed.

Lemma rotation_is_formula (startDate currentDate : DateArg) (ts tc : Q) :
  timeValue Date_parse startDate = Fin ts ->
  timeValue Date_parse currentDate = Fin tc ->
  Geometry.calculateRotationAngle Date_parse startDate currentDate
  == Fin (Spec.rotation ts tc).
Proof. apply rotation_valid. Qed.

(** X11: for valid dates, whose time values are in the range of [Date],
    the rotation follows the time elapsed: swapping
    the two dates negates the angle, a later current date never gives a
    smaller angle, the angle is at least 0 from the start date on and at
    most 0 up to it, and it is negative only before the start date and
    positive only after it.  The angle is the rotation [Spec.rotation] of
    the elapsed time, which adds up over consecutive intervals; the
    computed angles add up only up to rounding: in binary64 the rotations
    over 6 days and over the following day sum to 0.69041095890410964,
    and the rotation over the 7 days is 0.69041095890410953. *)
Theorem rotation_follows_time (a b c : DateArg) (ta tb tc : Q) :
  timeValue Date_parse a = Fin ta ->
  timeValue Date_parse b = Fin tb ->
  timeValue Date_parse c = Fin tc ->
  Spec.time_value ta -> Spec.time_value tb -> Spec.time_value tc ->
  Geometry.calculateRotationAngle Date_parse b a
  == - Geometry.calculateRotationAngle Date_parse a b
  /\ ((tb <= tc)%Q ->
      (Geometry.calculateRotationAngle Date_parse a b
       <=? Geometry.calculateRotationAngle Date_parse a c) = true)
  /\ ((ta <= tb)%Q ->
      (Geometry.calculateRotationAngle Date_parse a b >=? 0) = true)
  /\ ((tb <= ta)%Q ->
      (Geometry.calculateRotationAngle Date_parse a b <=? 0) = true)
  /\ ((Geometry.calculateRotationAngle Date_parse a b <? 0) = true -> (tb < ta)%Q)
  /\ ((Geometry.calculateRotationAngle Date_parse a b >? 0) = true -> (ta < tb)%Q)
  /\ Geometry.calculateRotationAngle Date_parse a c == Fin (Spec.rotation ta tc)
  /\ (Spec.rotation ta tb + Spec.rotation tb tc == Spec.rotation ta tc)%Q
  /\ (Binary64.Geometry.calculateRotationAngle
        (Binary64.mkDate 0) (Binary64.mkDate 518400000)
      + Binary64.Geometry.calculateRotationAngle
          (Binary64.mkDate 518400000) (Binary64.mkDate 604800000)
      = 0x1.617d8b929617ep-1
      /\ Binary64.Geometry.calculateRotationAngle
           (Binary64.mkDate 0) (Binary64.mkDate 604800000)
         = 0x1.617d8b929617dp-1)%float.
Proof.
  intros A B C _ _ _.
  assert (Rab := rotation_is_formula _ _ _ _ A B).
  assert (Rac := rotation_is_formula _ _ _ _ A C).
  assert (Rba := rotation_is_formula _ _ _ _ B A).
  unfold Spec.rotation in *.
  split.
  { eapply same_trans; [exact Rba |]. apply same_sym.
    eapply same_trans; [apply same_neg, Rab |]. simpl. field. }
  split.
  { intros H. apply (le_of_same _ _ _ _ Rab Rac).
    rewrite !Qdiv_by_positive. lra. }
  split.
  { intros H. apply (le_of_same _ _ 0%Q _ (same_refl 0) Rab).
    rewrite !Qdiv_by_positive. lra. }
  split.
  { intros H. apply (le_of_same _ _ _ 0%Q Rab (same_refl 0)).
    rewrite !Qdiv_by_positive. lra. }
  split.
  { intros H. apply (lt_of_same _ _ _ 0%Q Rab (same_refl 0)) in H.
    rewrite !Qdiv_by_positive in H. lra. }
  split.
  { intros H. apply (lt_of_same _ _ 0%Q _ (same_refl 0) Rab) in H.
    rewrite !Qdiv_by_positive in H. lra. }
  split; [exact Rac |].
  split; [field |].
  split; vm_compute; reflexivity.
Qed.

(** X12: the tick of an observation, turned with the ring, is at the top on
    the observation date, for valid dates: the base angle of
    [calculateObservationTickAngle] plus the rotation of the ring is the
    [tickAngle] that generate-static.js computes, it is 0 on the observation
    date, at most 0 up to that date and at least 0 from it on, negative only
    before it and positive only after it.  It is the rotation counted from
    the observation date, which [calculateRotationAngle] computes from the
    two dates with another rounding: in binary64, one day after an
    observation on day 6, the two are 0.098630136986301298 and
    0.098630136986301367.  In generate-static.js the tick is drawn at
    [tickAngle] inside a group that is itself rotated by the rotation
    angle: on the screen it is at [tickAngle + rotationAngle], which on the
    observation date is the rotation angle and not the top. *)
Theorem tick_meets_top_on_observation_date
    (startDate observationDate currentDate : DateArg) (ts to tc : Q) :
  timeValue Date_parse startDate = Fin ts ->
  timeValue Date_parse observationDate = Fin to ->
  timeValue Date_parse currentDate = Fin tc ->
  Spec.time_value ts -> Spec.time_value to -> Spec.time_value tc ->
  let turned :=
    Geometry.calculateObservationTickAngle Date_parse startDate observationDate currentDate
    + Geometry.calculateRotationAngle Date_parse startDate currentDate in
  turned == GenerateStatic.tickAngle Date_parse startDate currentDate observationDate
  /\ ((tc == to)%Q -> turned == 0)
  /\ ((tc <= to)%Q -> (turned <=? 0) = true)
  /\ ((to <= tc)%Q -> (turned >=? 0) = true)
  /\ ((turned <? 0) = true -> (tc < to)%Q)
  /\ ((turned >? 0) = true -> (to < tc)%Q)
  /\ turned == Fin (Spec.rotation to tc)
  /\ Geometry.calculateRotationAngle Date_parse observationDate currentDate
     == Fin (Spec.rotation to tc)
  /\ GenerateStatic.tickOnScreen Date_parse startDate currentDate observationDate
     == Fin (Spec.rotation to tc + Spec.rotation ts tc)
  /\ ((tc == to)%Q ->
      GenerateStatic.tickOnScreen Date_parse startDate currentDate observationDate
      == GenerateStatic.rotationAngle Date_parse startDate currentDate)
  /\ (Binary64.Geometry.calculateObservationTickAngle
        (Binary64.mkDate 0) (Binary64.mkDate 518400000) (Binary64.mkDate 604800000)
      + Binary64.Geometry.calculateRotationAngle
          (Binary64.mkDate 0) (Binary64.mkDate 604800000)
      = 0x1.93fd31cc193f8p-4
      /\ Binary64.GenerateStatic.tickAngle
           (Binary64.mkDate 0) (Binary64.mkDate 604800000) (Binary64.mkDate 518400000)
         = 0x1.93fd31cc193f8p-4
      /\ Binary64.Geometry.calculateRotationAngle
           (Binary64.mkDate 518400000) (Binary64.mkDate 604800000)
         = 0x1.93fd31cc193fdp-4)%float.
Proof.
  intros S O C _ _ _ turned.
  assert (T : turned == Fin (Spec.rotation to tc)).
  { unfold turned.
    eapply same_trans;
      [apply same_add;
         [apply (tick_valid _ _ _ ts to S O) | apply (rotation_valid _ _ _ ts tc S C)] |].
    unfold Spec.rotation. simpl. field. }
  assert (K : GenerateStatic.tickAngle Date_parse startDate currentDate observationDate
              == Fin (Spec.rotation to tc)).
  { apply (static_tick_valid _ _ _ ts tc to S C O). }
  assert (R : GenerateStatic.rotationAngle Date_parse startDate currentDate
              == Fin (Spec.rotation ts tc)).
  { unfold GenerateStatic.rotationAngle. rewrite static_rotation_is_geometry.
    apply (rotation_valid _ _ _ ts tc S C). }
  assert (W : GenerateStatic.tickOnScreen Date_parse startDate currentDate observationDate
              == Fin (Spec.rotation to tc + Spec.rotation ts tc)).
  { unfold GenerateStatic.tickOnScreen. apply (same_add _ _ _ _ K R). }
  unfold Spec.rotation in *.
  split; [eapply same_trans; [exact T | apply same_sym, K] |].
  split.
  { intros H. eapply same_trans; [exact T |]. simpl. rewrite H. field. }
  split.
  { intros H. apply (le_of_same _ _ _ 0%Q T (same_refl 0)).
    rewrite !Qdiv_by_positive. lra. }
  split.
  { intros H. apply (le_of_same _ _ 0%Q _ (same_refl 0) T).
    rewrite !Qdiv_by_positive. lra. }
  split.
  { intros H. apply (lt_of_same _ _ _ 0%Q T (same_refl 0)) in H.
    rewrite !Qdiv_by_positive in H. lra. }
  split.
  { intros H. apply (lt_of_same _ _ 0%Q _ (same_refl 0) T) in H.
    rewrite !Qdiv_by_positive in H. lra. }
  split; [exact T |].
  split; [apply (rotation_valid _ _ _ to tc O C) |].
  split; [exact W |].
  split.
  { intros H. eapply same_trans; [exact W |]. apply same_sym.
    eapply same_trans; [exact R |]. simpl. rewrite H. field. }
  repeat split; vm_compute; reflexivity.
Qed.

(** X13: an invalid date spreads as [NaN] and never marks a segment as
    elapsed: when the start date or the current date is invalid,
    [daysBetween] and [calculateRotationAngle] are [NaN] in both files, the
    static script draws no segment as elapsed, and [isSegmentElapsed]
    returns false for that rotation whatever the segment. *)
Theorem invalid_date_propagates (startDate currentDate : DateArg) :
  timeValue Date_parse startDate = NaN \/ timeValue Date_parse currentDate = NaN ->
  Geometry.daysBetween Date_parse startDate currentDate = NaN
  /\ Geometry.calculateRotationAngle Date_parse startDate currentDate = NaN
  /\ GenerateStatic.calculateRotationAngle Date_parse startDate currentDate = NaN
  /\ (forall i : number, GenerateStatic.isElapsed Date_parse startDate currentDate i = false)
  /\ (forall (fuel : nat) (i total : number),
        Geometry.isSegmentElapsed (S fuel) i total
          (Geometry.calculateRotationAngle Date_parse startDate currentDate)
        = Some false).
Proof.
  intros H.
  assert (D : Geometry.daysBetween Date_parse startDate currentDate = NaN).
  { rewrite geometry_daysBetween_timeValue.
    destruct H as [H | H]; rewrite H;
      [destruct (timeValue Date_parse currentDate)
      | destruct (timeValue Date_parse startDate)]; reflexivity. }
  assert (R : Geometry.calculateRotationAngle Date_parse startDate currentDate = NaN).
  { unfold Geometry.calculateRotationAngle. cbv zeta. rewrite D. reflexivity. }
  split; [exact D |]. split; [exact R |].
  split; [rewrite static_rotation_is_geometry; exact R |].
  split.
  - intros i. unfold GenerateStatic.isElapsed. cbv zeta.
    rewrite static_daysBetween_timeValue, <- geometry_daysBetween_timeValue, D.
    change (NaN * GenerateStatic.ANGLE_PER_DAY) with NaN.
    destruct ((i + 1) * 36); reflexivity.
  - intros fuel i total. rewrite R. unfold Geometry.isSegmentElapsed. cbv zeta.
    destruct ((i + 1) * (360 / total)); reflexivity.
Qed.

End Calendar.

Lemma rotation_follows_time_witness :
  (Geometry.calculateRotationAngle Date_parse_utc
     (DateString "2024-01-01") (DateString "2025-01-01")
   <=? Geometry.calculateRotationAngle Date_parse_utc
         (DateString "2024-01-01") (DateString "2026-01-01")) = true.
Proof.
  destruct (rotation_follows_time Date_parse_utc
              (DateString "2024-01-01") (DateString "2025-01-01")
              (DateString "2026-01-01")
              1704067200000 1735689600000 1767225600000)
    as (_ & A & _);
    [reflexivity | reflexivity | reflexivity
     | vm_compute; discriminate | vm_compute; discriminate
     | vm_compute; discriminate |].
  apply A. vm_compute. discriminate.
Defined.

Lemma tick_meets_top_on_observation_date_witness :
  Geometry.calculateObservationTickAngle Date_parse_utc
    (DateString "2024-01-01") (DateString "2025-01-01") (DateString "2025-01-01")
  + Geometry.calculateRotationAngle Date_parse_utc
      (DateString "2024-01-01") (DateString "2025-01-01")
  == 0.
Proof.
  destruct (tick_meets_top_on_observation_date Date_parse_utc
              (DateString "2024-01-01") (DateString "2025-01-01")
              (DateString "2025-01-01")
              1704067200000 1735689600000 1735689600000)
    as (_ & Z & _);
    [reflexivity | reflexivity | reflexivity
     | vm_compute; discriminate | vm_compute; discriminate
     | vm_compute; discriminate |].
  apply Z. reflexivity.
Defined.

Lemma invalid_date_propagates_witness :
  Geometry.calculateRotationAngle Date_parse_utc
    (DateString "2023-13-01") (DateString "2024-01-01") = NaN
  /\ GenerateStatic.isElapsed Date_parse_utc
       (DateString "2023-13-01") (DateString "2024-01-01") 0 = false.
Proof.
  destruct (invalid_date_propagates Date_parse_utc
              (DateString "2023-13-01") (DateString "2024-01-01"))
    as (_ & R & _ & E & _); [left; reflexivity |].
  split; [exact R | apply E].
Defined.

(** ** isSegmentElapsed *)

Lemma isSegmentElapsed_finite (i total r : Q) :
  ~ (total == 0)%Q ->
  exists fuel0 : nat, forall fuel : nat, (fuel0 <= fuel)%nat ->
    Geometry.isSegmentElapsed fuel i total r
    = Some (Qle_bool ((i + 1) * (360 / total)) r).
Proof.
  intros N.
  destruct (normalizeAngle_closed_range ((i + 1) * (360 / total) + r)) as (fuel0 & G).
  exists fuel0. intros fuel F.
  destruct (G fuel F) as (g & k & Hg & _).
  unfold Geometry.isSegmentElapsed. cbv zeta.
  assert (E : (Fin i + 1) * (360 / Fin total) = Fin ((i + 1) * (360 / total))).
  { num_unfold. destruct (Qcompare_spec total 0) as [K | K | K];
      [contradiction | reflexivity | reflexivity]. }
  rewrite E. change (Fin ((i + 1) * (360 / total)) + Fin r)
    with (Fin ((i + 1) * (360 / total) + r)).
  rewrite Hg. reflexivity.
Qed.

Lemma normalizeAngle_PInf (fuel : nat) : Geometry.normalizeAngle fuel PInf = None.
Proof.
  unfold Geometry.normalizeAngle.
  assert (W : Geometry.while_above fuel PInf = None).
  { induction fuel as [| fuel IH]; [reflexivity | exact IH]. }
  rewrite W. reflexivity.
Qed.

Lemma normalizeAngle_NInf (fuel : nat) : Geometry.normalizeAngle fuel NInf = None.
Proof.
  unfold Geometry.normalizeAngle.
  destruct fuel as [| fuel]; [reflexivity |].
  change (Geometry.while_above (S fuel) NInf) with (Some NInf).
  generalize (S fuel). intros n.
  induction n as [| n IH]; [reflexivity | exact IH].
Qed.



(** X15: with [totalSegments = 0] the leading edge is infinite and the
    [normalizeAngle] call whose result is never used does not end:
    [isSegmentElapsed] returns for no amount of fuel, for any finite
    rotation and any finite segment index other than -1. *)
Theorem isSegmentElapsed_no_segments (fuel : nat) (i r : Q) :
  ~ (i + 1 == 0)%Q ->
  Geometry.isSegmentElapsed fuel i 0 r = None.
Proof.
  intros N. unfold Geometry.isSegmentElapsed. cbv zeta.
  change (360 / Fin 0) with PInf.
  change (Fin i + 1) with (Fin (i + 1)).
  unfold mul, inf_signed.
  destruct (Qcompare_spec (i + 1) 0) as [K | K | K]; [contradiction | |].
  - change (neg PInf + Fin r) with NInf. rewrite normalizeAngle_NInf. reflexivity.
  - change (PInf + Fin r) with PInf. rewrite normalizeAngle_PInf. reflexivity.
Qed.

Lemma isSegmentElapsed_no_segments_witness :
  Geometry.isSegmentElapsed 1000 0 0 90 = None.
Proof.
  apply (isSegmentElapsed_no_segments 1000 0 90). vm_compute. discriminate.
Defined.

Section Ring.

Variable Date_parse : string -> number.

(** X16: on the ring of ten segments, for valid dates, [isSegmentElapsed]
    applied to the rotation of the ring marks segment [i] as elapsed
    exactly when at least [365 * (i + 1)] days have passed since the start
    date, while generate-static.js, which tests [elapsedAngle > (i + 1) *
    36], needs more than [365 * (i + 1)] days: on the day that closes a
    segment the two disagree.  In binary64 too the rotation after
    [365 * k] days is exactly [36 * k], for each of the ten segments. *)
Theorem ring_segment_elapsed (start_date current_date : DateArg) (ts tc : Q) (i : nat) :
  timeValue Date_parse start_date = Fin ts ->
  timeValue Date_parse current_date = Fin tc ->
  let days := ((tc - ts) / 86400000)%Q in
  let year := inject_Z (Z.of_nat (S i)) in
  (exists fuel0 : nat, forall fuel : nat, (fuel0 <= fuel)%nat ->
     exists b : bool,
       Geometry.isSegmentElapsed fuel (inject_Z (Z.of_nat i)) 10
         (Geometry.calculateRotationAngle Date_parse start_date current_date)
       = Some b
       /\ (b = true <-> (365 * year <= days)%Q))
  /\ (GenerateStatic.isElapsed Date_parse start_date current_date
        (inject_Z (Z.of_nat i)) = true
      <-> (365 * year < days)%Q)
  /\ forallb
       (fun k =>
          (Binary64.Geometry.calculateRotationAngle
             (Binary64.mkDate 0) (Binary64.mkDate (365 * k * 86400000))
           =? 36 * k)%float)
       [1; 2; 3; 4; 5; 6; 7; 8; 9; 10]%float
     = true.
Proof.
  intros S C days year.
  assert (Y : (year == inject_Z (Z.of_nat i) + 1)%Q) by apply inject_Z_succ.
  assert (R := rotation_valid Date_parse _ _ ts tc S C).
  fold days in R.
  split; [| split; [| vm_compute; reflexivity]].
  - destruct (Geometry.calculateRotationAngle Date_parse start_date current_date)
      as [| | | rot] eqn:Rot; try contradiction R.
    simpl in R.
    destruct (isSegmentElapsed_finite (inject_Z (Z.of_nat i)) 10 rot) as (fuel0 & G);
      [lra |].
    exists fuel0. intros fuel F. eexists. split; [apply G, F |].
    rewrite Qle_bool_iff, R, <- Y, !Qdiv_by_positive. split; intros H; lra.
  - unfold GenerateStatic.isElapsed. cbv zeta.
    fold (GenerateStatic.calculateRotationAngle Date_parse start_date current_date).
    rewrite static_rotation_is_geometry.
    change (Fin (inject_Z (Z.of_nat i)) + 1) with (Fin (inject_Z (Z.of_nat i) + 1)).
    change (Fin (inject_Z (Z.of_nat i) + 1) * 36)
      with (Fin ((inject_Z (Z.of_nat i) + 1) * 36)).
    unfold gt.
    eapply iff_trans; [apply (lt_of_same _ _ _ _ (same_refl _) R) |].
    rewrite <- Y, !Qdiv_by_positive. split; intros H; lra.
Qed.

End Ring.

Lemma ring_segment_elapsed_witness :
  (exists (fuel : nat) (b : bool),
     Geometry.isSegmentElapsed fuel 0 10
       (Geometry.calculateRotationAngle Date_parse_utc
          (DateString "2024-01-01") (DateString "2024-12-31"))
     = Some b /\ b = true)
  /\ GenerateStatic.isElapsed Date_parse_utc
       (DateString "2024-01-01") (DateString "2024-12-31") 0 <> true.
Proof.
  destruct (ring_segment_elapsed Date_parse_utc
              (DateString "2024-01-01") (DateString "2024-12-31")
              1704067200000 1735603200000 0)
    as ((fuel0 & G) & E & _); [reflexivity | reflexivity |].
  split.
  - destruct (G fuel0 (le_n fuel0)) as (b & H & T).
    exists fuel0, b. split; [exact H |]. apply T. vm_compute. discriminate.
  - intros H. apply E in H. vm_compute in H. discriminate H.
Defined.

(** ** normalizeAngle on any number, and its two copies *)

Lemma gt_180_shift (x : number) :
  (x <? -180) = true -> (x + 360 >? 180) = false.
Proof.
  destruct x as [| | | q]; simpl; try discriminate; try reflexivity.
  intros H. apply negb_true_iff in H. apply Qle_bool_false in H.
  apply negb_false_iff. apply Qle_bool_iff. lra.
Qed.

Lemma while_above_exit (fuel : nat) :
  forall x r, Geometry.while_above fuel x = Some r -> (r >? 180) = false.
Proof.
  induction fuel as [| fuel IH]; intros x r H; [discriminate H |].
  cbn [Geometry.while_above] in H.
  destruct (x >? 180) eqn:T; [apply (IH _ _ H) |].
  inversion H; subst r. exact T.
Qed.

Lemma while_below_exit (fuel : nat) :
  forall x r, Geometry.while_below fuel x = Some r ->
    (r <? -180) = false /\ ((x >? 180) = false -> (r >? 180) = false).
Proof.
  induction fuel as [| fuel IH]; intros x r H; [discriminate H |].
  cbn [Geometry.while_below] in H.
  destruct (x <? -180) eqn:T.
  - destruct (IH _ _ H) as [A B]. split; [exact A |].
    intros _. apply B. apply gt_180_shift, T.
  - inversion H; subst r. split; [exact T | auto].
Qed.

Lemma normalizeAngle_fixed (fuel : nat) (r : number) :
  (r >? 180) = false -> (r <? -180) = false ->
  Geometry.normalizeAngle (S fuel) r = Some r.
Proof.
  intros A B. unfold Geometry.normalizeAngle.
  cbn [Geometry.while_above Geometry.while_below].
  rewrite A. rewrite B. reflexivity.
Qed.

Lemma while_above_more (fuel : nat) :
  forall x r, Geometry.while_above fuel x = Some r ->
    Geometry.while_above (S fuel) x = Some r.
Proof.
  induction fuel as [| fuel IH]; intros x r H; [discriminate H |].
  cbn [Geometry.while_above] in H.
  change (Geometry.while_above (S (S fuel)) x)
    with (if x >? 180 then Geometry.while_above (S fuel) (x - 360) else Some x).
  destruct (x >? 180); [apply IH, H | exact H].
Qed.

Lemma while_below_more (fuel : nat) :
  forall x r, Geometry.while_below fuel x = Some r ->
    Geometry.while_below (S fuel) x = Some r.
Proof.
  induction fuel as [| fuel IH]; intros x r H; [discriminate H |].
  cbn [Geometry.while_below] in H.
  change (Geometry.while_below (S (S fuel)) x)
    with (if x <? -180 then Geometry.while_below (S fuel) (x + 360) else Some x).
  destruct (x <? -180); [apply IH, H | exact H].
Qed.

Lemma normalizeAngle_more (fuel fuel' : nat) (x r : number) :
  (fuel <= fuel')%nat ->
  Geometry.normalizeAngle fuel x = Some r -> Geometry.normalizeAngle fuel' x = Some r.
Proof.
  intros L. induction L as [| m L IH]; [auto |].
  intros H. specialize (IH H). unfold Geometry.normalizeAngle in *.
  destruct (Geometry.while_above m x) as [y |] eqn:W; [| discriminate IH].
  rewrite (while_above_more _ _ _ W). apply while_below_more, IH.
Qed.

Lemma normalizeAngle_inside (fuel : nat) (q : Q) :
  (-180 <= q <= 180)%Q -> Geometry.normalizeAngle (S fuel) q = Some (Fin q).
Proof.
  intros [L U]. apply normalizeAngle_fixed; simpl; apply negb_false_iff, Qle_bool_iff; lra.
Qed.

Lemma normalizeAngle_one_turn (fuel : nat) (q : Q) :
  (180 < q <= 540)%Q ->
  Geometry.normalizeAngle (S (S fuel)) q = Some (Fin (q + - 360)).
Proof.
  intros [L U]. unfold Geometry.normalizeAngle.
  rewrite while_above_step.
  destruct (Qle_bool q 180) eqn:T; [apply Qle_bool_iff in T; lra |].
  rewrite while_above_step.
  destruct (Qle_bool (q + - 360) 180) eqn:T2;
    [| apply Qle_bool_false in T2; lra].
  rewrite while_below_step.
  destruct (Qle_bool (-180) (q + - 360)) eqn:T3;
    [reflexivity | apply Qle_bool_false in T3; lra].
Qed.

(** X17: [normalizeAngle] settles: whenever it returns, for any number at
    all, its result is a fixed point (normalizing it again, with any fuel,
    returns it unchanged), the result does not depend on the fuel, and it is
    neither above 180 nor below -180. *)
Theorem normalizeAngle_idempotent (fuel : nat) (x r : number) :
  Geometry.normalizeAngle fuel x = Some r ->
  (forall fuel', Geometry.normalizeAngle (S fuel') r = Some r)
  /\ (forall fuel' r', Geometry.normalizeAngle fuel' x = Some r' -> r' = r)
  /\ (r >? 180) = false /\ (r <? -180) = false.
Proof.
  intros H.
  assert (E : (r >? 180) = false /\ (r <? -180) = false).
  { unfold Geometry.normalizeAngle in H.
    destruct (Geometry.while_above fuel x) as [y |] eqn:W; [| discriminate H].
    destruct (while_below_exit _ _ _ H) as [A B].
    split; [apply B, (while_above_exit _ _ _ W) | exact A]. }
  split; [intros fuel'; apply normalizeAngle_fixed; apply E |].
  split; [| exact E].
  intros fuel' r' H'.
  destruct (Nat.le_ge_cases fuel fuel') as [L | L].
  - apply (normalizeAngle_more _ _ _ _ L) in H. congruence.
  - apply (normalizeAngle_more _ _ _ _ L) in H'. congruence.
Qed.

Lemma normalizeAngle_idempotent_witness :
  Geometry.normalizeAngle 3 370 = Some (Fin (370 + - 360))
  /\ Geometry.normalizeAngle 1 (Fin (370 + - 360)) = Some (Fin (370 + - 360)).
Proof.
  split; [reflexivity |].
  apply (normalizeAngle_idempotent 3 370 (Fin (370 + - 360))). reflexivity.
Defined.

Lemma while_not_above_step (n : nat) (q : Q) :
  DynamicLogo.while_not_above (S n) (Fin q)
  = if Qle_bool q (-180) then DynamicLogo.while_not_above n (Fin (q + 360))
    else Some (Fin q).
Proof. reflexivity. Qed.

Lemma while_not_above_result (n : nat) :
  forall (q : Q) (fuel : nat),
    (-180 - 360 * inject_Z (Z.of_nat n) < q)%Q -> (n < fuel)%nat ->
    exists (r : Q) (k : nat),
      DynamicLogo.while_not_above fuel (Fin q) = Some (Fin r)
      /\ (r == q + 360 * inject_Z (Z.of_nat k))%Q
      /\ (-180 < r)%Q
      /\ ((q <= -180)%Q -> (r <= 180)%Q)
      /\ ((-180 < q)%Q -> r = q).
Proof.
  induction n as [| n IH]; intros q fuel B F;
    (destruct fuel as [| fuel]; [lia |]); rewrite while_not_above_step;
    destruct (Qle_bool q (-180)) eqn:T;
    [apply Qle_bool_iff in T | apply Qle_bool_false in T
     | apply Qle_bool_iff in T | apply Qle_bool_false in T].
  - exfalso. change (inject_Z (Z.of_nat 0)) with 0%Q in B. lra.
  - exists q, O. loop_exit.
  - rewrite inject_Z_succ in B.
    destruct (IH (q + 360)%Q fuel) as (r & k & W & E & L & A & I); [lra | lia |].
    exists r, (S k). split; [exact W |].
    split; [rewrite inject_Z_succ, E; ring |].
    split; [exact L |].
    split; [| intros; exfalso; lra].
    intros _. destruct (Qlt_le_dec (-180) (q + 360)) as [G | G]; [| apply A, G].
    rewrite (I G). lra.
  - exists q, O. loop_exit.
Qed.

Lemma turns_between (m : Z) :
  (-1 < inject_Z m)%Q -> (inject_Z m <= 1)%Q -> m = 0%Z \/ m = 1%Z.
Proof.
  intros A B.
  change (-1)%Q with (inject_Z (-1)) in A. rewrite <- Zlt_Qlt in A.
  change 1%Q with (inject_Z 1) in B. rewrite <- Zle_Qle in B. lia.
Qed.

(** X18: the two copies of [normalizeAngle] on a finite angle: with enough
    fuel both return; the copy in DynamicLogo, which tests [angle <= -180],
    returns an angle of the half-open interval (-180, 180] that differs from
    the input by a multiple of 360; the copy in geometry.js returns the
    same angle, except that where it returns -180 the copy in DynamicLogo
    returns 180. *)
Theorem normalizeAngle_copies (q : Q) :
  exists fuel0 : nat, forall fuel : nat, (fuel0 <= fuel)%nat ->
    exists (g r : Q) (k : Z),
      Geometry.normalizeAngle fuel (Fin q) = Some (Fin g)
      /\ DynamicLogo.normalizeAngle fuel (Fin q) = Some (Fin r)
      /\ (-180 <= g <= 180)%Q
      /\ (-180 < r <= 180)%Q
      /\ (r == q + 360 * inject_Z k)%Q
      /\ ((g == -180)%Q -> (r == 180)%Q)
      /\ (~ (g == -180)%Q -> (r == g)%Q).
Proof.
  destruct (normalizeAngle_closed_range q) as (fuel1 & G).
  pose (n := Z.to_nat (Qceiling (Qabs q))).
  assert (N0 : (0 <= inject_Z (Z.of_nat n))%Q).
  { change 0%Q with (inject_Z 0). rewrite <- Zle_Qle. lia. }
  destruct (ceiling_bound q) as [Lo Hi]. fold n in Lo, Hi.
  exists (Nat.max fuel1 (S n)). intros fuel F.
  destruct (G fuel) as (g & kg & Hg & Rg & Eg); [lia |].
  destruct (while_above_result n q fuel) as (r1 & k1 & W1 & E1 & U1 & A1 & I1);
    [lra | lia |].
  assert (B1 : (-180 - 360 * inject_Z (Z.of_nat n) < r1)%Q).
  { destruct (Qlt_le_dec 180 q) as [K | K]; [specialize (A1 K); lra |].
    rewrite (I1 K). lra. }
  destruct (while_not_above_result n r1 fuel) as (r & k2 & W2 & E2 & L2 & A2 & I2);
    [exact B1 | lia |].
  assert (Rr : (-180 < r <= 180)%Q).
  { split; [exact L2 |].
    destruct (Qlt_le_dec (-180) r1) as [K | K]; [rewrite (I2 K); exact U1 | apply A2, K]. }
  assert (Er : (r == q + 360 * inject_Z (Z.of_nat k2 + - Z.of_nat k1))%Q).
  { rewrite inject_Z_plus, inject_Z_opp, E2, E1. ring. }
  exists g, r, (Z.of_nat k2 + - Z.of_nat k1)%Z.
  split; [exact Hg |].
  split; [unfold DynamicLogo.normalizeAngle; rewrite W1; exact W2 |].
  split; [exact Rg |]. split; [exact Rr |]. split; [exact Er |].
  assert (D : (r - g == 360 * inject_Z (Z.of_nat k2 + - Z.of_nat k1 + - kg))%Q).
  { rewrite !inject_Z_plus, !inject_Z_opp.
    rewrite inject_Z_plus, inject_Z_opp in Er. rewrite Er, Eg. ring. }
  revert D. generalize (Z.of_nat k2 + - Z.of_nat k1 + - kg)%Z. intros m D.
  destruct (turns_between m) as [M | M]; [lra | lra | |]; subst m.
  - change (inject_Z 0) with 0%Q in D. split; intros K; lra.
  - change (inject_Z 1) with 1%Q in D. split; intros K; [lra | exfalso; apply K; lra].
Qed.

(** ** avoidCollision *)

Lemma avoidCollision_loop_finite (a ro aj : Q) (existingAngles : list Geometry.Existing.t) :
  Forall (fun existing => exists e : Q, Geometry.Existing.angle existing = Fin e)
    existingAngles ->
  exists fuel0 : nat, forall fuel : nat, (fuel0 <= fuel)%nat ->
    forall (adjusted : Q) (offset : number), (offset = 0 \/ offset = Fin ro) ->
    exists (k : Z) (offset' : number) (adjusted' : Q),
      Geometry.avoidCollision_loop fuel a ro aj existingAngles adjusted offset
      = Some (Geometry.Adjusted.mk adjusted' offset')
      /\ (offset' = 0 \/ offset' = Fin ro)
      /\ (Z.abs k <= Z.of_nat (List.length existingAngles))%Z
      /\ (adjusted' == adjusted + aj * inject_Z k)%Q
      /\ (Forall (fun existing =>
                    forall e, Geometry.Existing.angle existing = Fin e -> Spec.apart a e)
            existingAngles ->
          adjusted' = adjusted /\ offset' = offset).
Proof.
  intros F. induction F as [| existing rest [e He] F IH].
  - exists O. intros fuel _ adjusted offset O.
    exists 0%Z, offset, adjusted. split; [reflexivity |].
    split; [exact O |]. split; [simpl; lia |].
    split; [change (inject_Z 0) with 0%Q; ring | auto].
  - destruct IH as (fuel1 & IH).
    destruct (normalizeAngle_closed_range (a - e)) as (fuel2 & G).
    exists (Nat.max fuel1 fuel2). intros fuel L adjusted offset O.
    destruct (G fuel) as (g & kg & Hg & Rg & Eg); [lia |].
    cbn [Geometry.avoidCollision_loop]. rewrite He.
    change (Fin a - Fin e) with (Fin (a + - e)).
    change (a - e)%Q with (a + - e)%Q in Hg. rewrite Hg.
    cbv zeta. change (Math_abs (Fin g) <? 5) with (negb (Qle_bool 5 (Qabs g))).
    destruct (Qle_bool 5 (Qabs g)) eqn:T;
      [apply Qle_bool_iff in T | apply Qle_bool_false in T]; cbn [negb].
    + destruct (IH fuel ltac:(lia) adjusted offset O) as (k & o' & a' & W & Oo & K & E & U).
      exists k, o', a'. split; [exact W |]. split; [exact Oo |].
      split; [cbn [List.length]; lia |]. split; [exact E |].
      intros A. apply U. inversion A; assumption.
    + assert (NA : ~ Spec.apart a e).
      { intros A. specialize (A kg). rewrite <- Eg in A. lra. }
      destruct (Geometry.Existing.hasRadialOffset existing); cbn [negb].
      * change (Fin a >? Fin e) with (negb (Qle_bool a e)).
        destruct (Qle_bool a e); cbn [negb].
        -- change (Fin adjusted + Fin aj * - (1)) with (Fin (adjusted + aj * - (1))).
           destruct (IH fuel ltac:(lia) (adjusted + aj * - (1))%Q offset O)
             as (k & o' & a' & W & Oo & K & E & U).
           exists (k + - 1)%Z, o', a'. split; [exact W |]. split; [exact Oo |].
           split; [cbn [List.length]; lia |].
           split; [rewrite E, inject_Z_plus; change (inject_Z (-1)) with (-1)%Q; ring |].
           intros A. exfalso. inversion A as [| ? ? A1 A2]. apply NA, A1, He.
        -- change (Fin adjusted + Fin aj * 1) with (Fin (adjusted + aj * 1)).
           destruct (IH fuel ltac:(lia) (adjusted + aj * 1)%Q offset O)
             as (k & o' & a' & W & Oo & K & E & U).
           exists (k + 1)%Z, o', a'. split; [exact W |]. split; [exact Oo |].
           split; [cbn [List.length]; lia |].
           split; [rewrite E, inject_Z_plus; change (inject_Z 1) with 1%Q; ring |].
           intros A. exfalso. inversion A as [| ? ? A1 A2]. apply NA, A1, He.
      * destruct (IH fuel ltac:(lia) adjusted (Fin ro) (or_intror eq_refl))
          as (k & o' & a' & W & Oo & K & E & U).
        exists k, o', a'. split; [exact W |]. split; [exact Oo |].
        split; [cbn [List.length]; lia |]. split; [exact E |].
        intros A. exfalso. inversion A as [| ? ? A1 A2]. apply NA, A1, He.
Qed.

(** X19: [avoidCollision] on finite angles: with enough fuel it returns;
    the radial offset of the result is 0 or the [radialOffset] argument; the
    angle of the result is the input angle plus a whole number of jitters,
    at most one per existing angle in either direction; and when no existing
    angle comes within 5 degrees of the input angle, by any number of full
    turns, the result is the input angle with offset 0. *)
Theorem avoidCollision_result
    (a ro aj : Q) (existingAngles : list Geometry.Existing.t) :
  Forall (fun existing => exists e : Q, Geometry.Existing.angle existing = Fin e)
    existingAngles ->
  exists fuel0 : nat, forall fuel : nat, (fuel0 <= fuel)%nat ->
    exists (res : Geometry.Adjusted.t) (k : Z),
      Geometry.avoidCollision fuel a existingAngles (Some (Fin ro)) (Some (Fin aj))
      = Some res
      /\ (Geometry.Adjusted.radialOffset res = 0
          \/ Geometry.Adjusted.radialOffset res = Fin ro)
      /\ (Z.abs k <= Z.of_nat (List.length existingAngles))%Z
      /\ Geometry.Adjusted.angle res == Fin (a + aj * inject_Z k)
      /\ (Forall (fun existing =>
                    forall e, Geometry.Existing.angle existing = Fin e -> Spec.apart a e)
            existingAngles ->
          res = Geometry.Adjusted.mk a 0).
Proof.
  intros F. destruct (avoidCollision_loop_finite a ro aj existingAngles F) as (fuel0 & G).
  exists fuel0. intros fuel L.
  destruct (G fuel L a 0 (or_introl eq_refl)) as (k & o' & a' & W & Oo & K & E & U).
  exists (Geometry.Adjusted.mk a' o'), k.
  split; [exact W |]. split; [exact Oo |]. split; [exact K |]. split; [exact E |].
  intros A. destruct (U A) as [-> ->]. reflexivity.
Qed.

Lemma avoidCollision_result_witness :
  exists (fuel : nat) (res : Geometry.Adjusted.t),
    Geometry.avoidCollision fuel 10
      [Geometry.Existing.mk 12 true; Geometry.Existing.mk 200 false]
      (Some (Fin 6)) (Some (Fin 2))
    = Some res
    /\ (Geometry.Adjusted.radialOffset res = 0
        \/ Geometry.Adjusted.radialOffset res = Fin 6).
Proof.
  destruct (avoidCollision_result 10 6 2
              [Geometry.Existing.mk 12 true; Geometry.Existing.mk 200 false])
    as (fuel0 & G).
  { constructor; [exists 12%Q; reflexivity |].
    constructor; [exists 200%Q; reflexivity | constructor]. }
  destruct (G fuel0 (le_n fuel0)) as (res & k & H & O & _).
  exists fuel0, res. split; [exact H | exact O].
Defined.

(** X20: the direction of the jitter is decided by comparing the two raw
    angles, not the normalized difference: an existing indicator [e] that
    is up to 4 degrees clockwise of the angle, [0 < e - angle <= 4], pushes
    the angle one jitter anticlockwise, away from it, and one jitter
    clockwise, towards it, when the same direction is given across the seam
    as [e - 360]; an existing indicator without a radial offset leaves the
    angle and sets the radial offset, 6 by default.  In binary64, 179
    against -179 gives 181 and 179 against 181 gives 177.  Whether two
    angles are within 5 degrees is judged on the rounded difference: the
    binary64 angles [-(2^-51 + 2^-60)] and [5 - 2^-50] are less than 5
    apart, their difference rounds to 5, and the angle is left as it is. *)
Theorem avoidCollision_jitter_direction (fuel : nat) (a e aj : Q) :
  (0 < e - a <= 4)%Q ->
  (exists res,
     Geometry.avoidCollision (S (S fuel)) a
       [Geometry.Existing.mk e true] None (Some (Fin aj)) = Some res
     /\ Geometry.Adjusted.angle res == Fin (a - aj)
     /\ Geometry.Adjusted.radialOffset res = 0)
  /\ (exists res,
        Geometry.avoidCollision (S (S fuel)) a
          [Geometry.Existing.mk (e - 360)%Q true] None (Some (Fin aj)) = Some res
        /\ Geometry.Adjusted.angle res == Fin (a + aj)
        /\ Geometry.Adjusted.radialOffset res = 0)
  /\ (exists res,
        Geometry.avoidCollision (S (S fuel)) a
          [Geometry.Existing.mk e false] None None = Some res
        /\ Geometry.Adjusted.angle res = Fin a
        /\ Geometry.Adjusted.radialOffset res = 6)
  /\ (Binary64.Geometry.avoidCollision 2 179
        [Binary64.Geometry.Existing.mk (-179) true] None None
      = Some (Binary64.Geometry.Adjusted.mk 181 0)
      /\ Binary64.Geometry.avoidCollision 2 179
           [Binary64.Geometry.Existing.mk 181 true] None None
         = Some (Binary64.Geometry.Adjusted.mk 177 0))
  /\ (Binary64.exact (5 - 0x1p-50) - Binary64.exact (- (0x1p-51 + 0x1p-60))
      == Fin (5 - 1 / 2 ^ 51 + 1 / 2 ^ 60)
      /\ ((5 - 0x1p-50) - (- (0x1p-51 + 0x1p-60)) = 5)%float
      /\ Binary64.Geometry.avoidCollision 2 (- (0x1p-51 + 0x1p-60))
           [Binary64.Geometry.Existing.mk (5 - 0x1p-50) true] None None
         = Some (Binary64.Geometry.Adjusted.mk (- (0x1p-51 + 0x1p-60)) 0)).
Proof.
  intros [D0 D5].
  assert (N1 : Geometry.normalizeAngle (S (S fuel)) (Fin (a + - e))
               = Some (Fin (a + - e))).
  { apply normalizeAngle_inside. lra. }
  assert (N2 : Geometry.normalizeAngle (S (S fuel)) (Fin (a + - (e - 360)))
               = Some (Fin (a + - (e - 360) + - 360))).
  { apply normalizeAngle_one_turn. lra. }
  assert (C1 : Qle_bool 5 (Qabs (a + - e)) = false).
  { destruct (Qle_bool 5 (Qabs (a + - e))) eqn:T; [| reflexivity].
    apply Qle_bool_iff in T. rewrite Qabs_neg in T by lra. lra. }
  assert (C2 : Qle_bool 5 (Qabs (a + - (e - 360) + - 360)) = false).
  { destruct (Qle_bool 5 (Qabs (a + - (e - 360) + - 360))) eqn:T; [| reflexivity].
    apply Qle_bool_iff in T. rewrite Qabs_neg in T by lra. lra. }
  assert (G1 : Qle_bool a e = true) by (apply Qle_bool_iff; lra).
  assert (G2 : Qle_bool a (e - 360) = false).
  { destruct (Qle_bool a (e - 360)) eqn:T; [| reflexivity].
    apply Qle_bool_iff in T. lra. }
  split; [| split; [| split; [| split]]].
  4: split; vm_compute; reflexivity.
  4: split; [| split]; vm_compute; reflexivity.
  all: unfold Geometry.avoidCollision; cbv zeta;
    cbn [Geometry.avoidCollision_loop Geometry.Existing.angle
         Geometry.Existing.hasRadialOffset negb].
  all: change (Fin a - Fin e) with (Fin (a + - e));
    change (Fin a - Fin (e - 360)) with (Fin (a + - (e - 360)));
    rewrite ?N1, ?N2;
    change (Math_abs (Fin (a + - e)) <? 5)
      with (negb (Qle_bool 5 (Qabs (a + - e))));
    change (Math_abs (Fin (a + - (e - 360) + - 360)) <? 5)
      with (negb (Qle_bool 5 (Qabs (a + - (e - 360) + - 360))));
    rewrite ?C1, ?C2; cbn [negb];
    change (Fin a >? Fin e) with (negb (Qle_bool a e));
    change (Fin a >? Fin (e - 360)) with (negb (Qle_bool a (e - 360)));
    rewrite ?G1, ?G2; cbn [negb].
  all: eexists; (split; [reflexivity |]); split; try reflexivity; simpl; ring.
Qed.

Lemma avoidCollision_jitter_direction_witness :
  exists res,
    Geometry.avoidCollision 2 179
      [Geometry.Existing.mk (181 - 360)%Q true] None (Some (Fin 2)) = Some res
    /\ Geometry.Adjusted.angle res == 181.
Proof.
  destruct (avoidCollision_jitter_direction 0 179 181 2) as (_ & (res & H & A & _) & _);
    [vm_compute; split; [reflexivity | discriminate] |].
  exists res. split; [exact H |].
  eapply same_trans; [exact A |]. vm_compute. reflexivity.
Defined.

(** ** Paths *)

Lemma no_blank_string_of_uint (d : Decimal.uint) :
  Spec.no_blank (NilEmpty.string_of_uint d) = true.
Proof. induction d; cbn; auto. Qed.

Lemma is_token_string_of_int (d : Decimal.int) :
  Spec.is_token (NilZero.string_of_int d) = true.
Proof.
  destruct d as [u | u]; cbn; destruct u; cbn; auto using no_blank_string_of_uint.
Qed.

Lemma pieces_token (a : string) (c : ascii) (rest : string) :
  Spec.no_blank a = true -> Spec.blank c = true ->
  Spec.pieces (a ++ String c rest) = a :: Spec.pieces rest.
Proof.
  intros N B. induction a as [| c' a IH].
  - cbn [append Spec.pieces]. rewrite B. reflexivity.
  - cbn in N. apply andb_true_iff in N. destruct N as [C N].
    apply negb_true_iff in C.
    cbn [append Spec.pieces]. rewrite C, (IH N). reflexivity.
Qed.

Lemma pieces_last (a : string) : Spec.no_blank a = true -> Spec.pieces a = [a].
Proof.
  induction a as [| c a IH]; intros N; [reflexivity |].
  cbn in N. apply andb_true_iff in N. destruct N as [C N].
  apply negb_true_iff in C.
  cbn [Spec.pieces]. rewrite C, (IH N). reflexivity.
Qed.

Lemma tokens_blank (c : ascii) (rest : string) :
  Spec.blank c = true -> Spec.tokens (String c rest) = Spec.tokens rest.
Proof. intros B. unfold Spec.tokens. cbn [Spec.pieces]. rewrite B. reflexivity. Qed.

Lemma tokens_token (a : string) (c : ascii) (rest : string) :
  Spec.is_token a = true -> Spec.blank c = true ->
  Spec.tokens (a ++ String c rest) = a :: Spec.tokens rest.
Proof.
  intros T B. unfold Spec.tokens.
  destruct a as [| c' a]; [discriminate T |].
  rewrite pieces_token by assumption. reflexivity.
Qed.

Lemma tokens_letter (c b : ascii) (rest : string) :
  Spec.blank c = false -> Spec.blank b = true ->
  Spec.tokens (String c (String b rest)) = String c EmptyString :: Spec.tokens rest.
Proof.
  intros C B. apply (tokens_token (String c EmptyString) b rest); [| exact B].
  cbn. rewrite C. reflexivity.
Qed.

Ltac tokenize :=
  repeat first
    [ rewrite tokens_blank by reflexivity
    | rewrite tokens_letter by reflexivity
    | rewrite tokens_token by first [assumption | reflexivity] ].

(** The path that geometry.js lays out over several lines. *)
Lemma tokens_of_segment_lines (sx sy ri large ex ey fx fy ro tx ty : string) :
  Spec.is_token sx = true -> Spec.is_token sy = true -> Spec.is_token ri = true ->
  Spec.is_token large = true -> Spec.is_token ex = true -> Spec.is_token ey = true ->
  Spec.is_token fx = true -> Spec.is_token fy = true -> Spec.is_token ro = true ->
  Spec.is_token tx = true -> Spec.is_token ty = true ->
  Spec.tokens (LF ++ "    M " ++ sx ++ " " ++ sy
               ++ LF ++ "    A " ++ ri ++ " " ++ ri
               ++ " 0 " ++ large ++ " 1 " ++ ex ++ " " ++ ey
               ++ LF ++ "    L " ++ fx ++ " " ++ fy
               ++ LF ++ "    A " ++ ro ++ " " ++ ro
               ++ " 0 " ++ large ++ " 0 " ++ tx ++ " " ++ ty
               ++ LF ++ "    Z" ++ LF ++ "  ")
  = Spec.segment_tokens sx sy ri large ex ey fx fy ro tx ty.
Proof.
  intros. unfold LF, Spec.segment_tokens. cbn [append]. tokenize. reflexivity.
Qed.

(** The same path on one line. *)
Lemma tokens_of_segment_line (sx sy ri large ex ey fx fy ro tx ty : string) :
  Spec.is_token sx = true -> Spec.is_token sy = true -> Spec.is_token ri = true ->
  Spec.is_token large = true -> Spec.is_token ex = true -> Spec.is_token ey = true ->
  Spec.is_token fx = true -> Spec.is_token fy = true -> Spec.is_token ro = true ->
  Spec.is_token tx = true -> Spec.is_token ty = true ->
  Spec.tokens ("M " ++ sx ++ " " ++ sy
               ++ " A " ++ ri ++ " " ++ ri
               ++ " 0 " ++ large ++ " 1 " ++ ex ++ " " ++ ey
               ++ " L " ++ fx ++ " " ++ fy
               ++ " A " ++ ro ++ " " ++ ro
               ++ " 0 " ++ large ++ " 0 " ++ tx ++ " " ++ ty
               ++ " Z")
  = Spec.segment_tokens sx sy ri large ex ey fx fy ro tx ty.
Proof.
  intros. unfold Spec.segment_tokens. cbn [append]. tokenize. reflexivity.
Qed.

Lemma gt_180_Fin (v : number) (q : Q) :
  v == Fin q -> ((v >? 180) = true <-> (180 < q)%Q).
Proof.
  intros E. unfold gt. apply (lt_of_same 180 v 180%Q q); [reflexivity | exact E].
Qed.

Section ArcsAndSegments.

Variable Math_PI : number.
Variables Math_cos Math_sin : number -> number.
Variable other_digits : Q -> string.

(** The digits of a number hold no space. *)
Hypothesis digits_no_space : forall q, Spec.no_space (other_digits q) = true.

(** X21: drawing an arc backwards: [describeArc] with the two angles
    swapped starts where the other ends and ends where it starts, with the
    same radius and the same large-arc flag; for finite angles that differ
    the sweep flag is the opposite one, and for equal angles both sweep
    flags and the large-arc flag are 0. *)
Theorem describeArc_reversed (cx cy radius startAngle endAngle : number) :
  exists sx sy ex ey r large sweep sweep' : string,
    Spec.words (Geometry.describeArc Math_PI Math_cos Math_sin other_digits
                  cx cy radius startAngle endAngle)
    = ["M"; sx; sy; "A"; r; r; "0"; large; sweep; ex; ey]%string
    /\ Spec.words (Geometry.describeArc Math_PI Math_cos Math_sin other_digits
                     cx cy radius endAngle startAngle)
       = ["M"; ex; ey; "A"; r; r; "0"; large; sweep'; sx; sy]%string
    /\ (forall s e : Q, startAngle = Fin s -> endAngle = Fin e ->
          ((s == e)%Q -> sweep = "0"%string /\ sweep' = "0"%string
                         /\ large = "0"%string)
          /\ (~ (s == e)%Q -> sweep <> sweep')).
Proof.
  do 5 eexists.
  exists (Geometry.text other_digits
            (if Math_abs (endAngle - startAngle) >? 180 then 1 else 0)),
         (Geometry.text other_digits (if endAngle >? startAngle then 1 else 0)),
         (Geometry.text other_digits (if startAngle >? endAngle then 1 else 0)).
  split; [| split].
  - unfold Geometry.describeArc. cbv zeta.
    rewrite words_of_arc by (apply no_space_text; exact digits_no_space). reflexivity.
  - unfold Geometry.describeArc. cbv zeta.
    rewrite words_of_arc by (apply no_space_text; exact digits_no_space).
    rewrite (gt_of_same _ _ 180 (abs_sub_swap endAngle startAngle)). reflexivity.
  - intros s e -> ->.
    change (Fin e >? Fin s) with (negb (Qle_bool e s)).
    change (Fin s >? Fin e) with (negb (Qle_bool s e)).
    change (Math_abs (Fin e - Fin s) >? 180) with (negb (Qle_bool (Qabs (e + - s)) 180)).
    destruct (Qle_bool e s) eqn:T1;
      [apply Qle_bool_iff in T1 | apply Qle_bool_false in T1];
      (destruct (Qle_bool s e) eqn:T2;
       [apply Qle_bool_iff in T2 | apply Qle_bool_false in T2]); cbn [negb];
      try (exfalso; lra).
    + split; [| intros N; exfalso; apply N; lra].
      intros E. split; [reflexivity |]. split; [reflexivity |].
      assert (A : Qle_bool (Qabs (e + - s)) 180 = true).
      { apply Qle_bool_iff. rewrite Qabs_pos by lra. lra. }
      rewrite A. reflexivity.
    + split; [intros E; exfalso; lra |]. intros _. discriminate.
    + split; [intros E; exfalso; lra |]. intros _. discriminate.
Qed.

End ArcsAndSegments.

Lemma describeArc_reversed_witness :
  exists sweep' : string,
    Spec.words (Geometry.describeArc 3 (fun _ => 0) (fun _ => 1) (fun _ => "?"%string)
                  512 512 100 270 0)
    = ["M"; "512"; "612"; "A"; "100"; "100"; "0"; "1"; sweep'; "512"; "612"]%string
    /\ sweep' <> "1"%string.
Proof.
  destruct (describeArc_reversed 3 (fun _ => 0) (fun _ => 1) (fun _ => "?"%string)
              (fun _ => eq_refl) 512 512 100 0 270)
    as (sx & sy & ex & ey & r & large & sweep & sweep' & F & B & D).
  vm_compute in F. inversion F; subst.
  exists sweep'. split; [exact B |].
  destruct (D 0%Q 270%Q eq_refl eq_refl) as [_ N].
  intros E. apply N; [vm_compute; discriminate | symmetry; exact E].
Defined.

Section RingSegments.

Variable Math_PI : number.
Variables Math_cos Math_sin : number -> number.
Variable other_digits : Q -> string.

(** The digits of a number are a token: not empty, without a blank. *)
Hypothesis digits_token : forall q, Spec.is_token (other_digits q) = true.

Lemma is_token_text (v : number) :
  Spec.is_token (Number_toString other_digits v) = true.
Proof.
  unfold Number_toString.
  destruct v as [| | | q]; try reflexivity.
  destruct (Qeq_bool (inject_Z (Qfloor q)) q && (Z.abs (Qfloor q) <? 10 ^ 21)%Z).
  - apply is_token_string_of_int.
  - apply digits_token.
Qed.

Lemma flag_is_zero (v : number) (q : Q) :
  v == Fin q -> (q <= 180)%Q ->
  Number_toString other_digits (if v >? 180 then 1 else 0) = "0"%string.
Proof.
  intros E L. destruct (v >? 180) eqn:G; [| reflexivity].
  apply (gt_180_Fin v q E) in G. exfalso. lra.
Qed.



End RingSegments.



(** ** Observations *)

Section LevelArrows.

Variable Date_parse : string -> number.

Lemma js_or_finite (x : number) :
  Number_isFinite x = true ->
  exists q : Q, js_or x 100 = Fin q /\ ~ (q == 0)%Q.
Proof.
  destruct x as [| | | q]; try discriminate. intros _.
  unfold js_or. destruct (Qeq_bool q 0) eqn:T.
  - exists 100%Q. split; [reflexivity | lra].
  - exists q. split; [reflexivity |]. apply Qeq_bool_neq, T.
Qed.

Lemma finalIndexLevel_finite (observations : list DynamicLogo.Observation) :
  Number_isFinite (DynamicLogo.finalIndexLevel Date_parse observations) = true.
Proof.
  unfold DynamicLogo.finalIndexLevel.
  destruct observations as [| o rest]; [reflexivity |].
  destruct (DynamicLogo.reduce_latest Date_parse None (o :: rest)) as [lastObs |];
    [| reflexivity].
  destruct (Number_isFinite (DynamicLogo.hurdle_percent lastObs)) eqn:T;
    [exact T | reflexivity].
Qed.

(** X24: the final index angle of DynamicLogo is a finite angle of the dial
    whatever the observations hold: [finalIndexLevel] is always finite, a
    missing list or an observation without a finite hurdle falls back to
    100, and because of [finalIndexLevel || 100] a hurdle of 0 is read as
    100 too: the angle is then 0, not -120. *)
Theorem finalIndexAngle_on_dial (observations : list DynamicLogo.Observation) :
  Spec.on_dial (DynamicLogo.finalIndexAngle Date_parse observations)
  /\ Number_isFinite (DynamicLogo.finalIndexLevel Date_parse observations) = true
  /\ (observations = [] -> DynamicLogo.finalIndexAngle Date_parse observations == 0)
  /\ (forall o, observations = [o] -> DynamicLogo.hurdle_percent o == 0 ->
        DynamicLogo.finalIndexAngle Date_parse observations == 0
        /\ Geometry.mapHurdlePercentToAngle (DynamicLogo.hurdle_percent o) == -120).
Proof.
  split; [| split; [apply finalIndexLevel_finite | split]].
  - unfold DynamicLogo.finalIndexAngle.
    destruct (js_or_finite _ (finalIndexLevel_finite observations)) as (q & E & _).
    rewrite E. apply hurdle_range.
  - intros ->. vm_compute. reflexivity.
  - intros o -> H. unfold DynamicLogo.finalIndexAngle, DynamicLogo.finalIndexLevel.
    cbn [DynamicLogo.reduce_latest].
    destruct (DynamicLogo.hurdle_percent o) as [| | | h]; try contradiction H.
    simpl in H. cbn [Number_isFinite js_or].
    assert (Z : Qeq_bool h 0 = true) by (apply Qeq_bool_iff; exact H).
    rewrite Z. split; [vm_compute; reflexivity |].
    eapply same_trans; [apply (hurdle_Qeq h 0 H) |]. vm_compute. reflexivity.
Qed.

Lemma reduce_latest_latest (rest : list DynamicLogo.Observation) :
  forall latest : DynamicLogo.Observation,
    Number_isFinite (Date_parse (DynamicLogo.date latest)) = true ->
    Forall (fun o => Number_isFinite (Date_parse (DynamicLogo.date o)) = true) rest ->
    exists lastObs,
      DynamicLogo.reduce_latest Date_parse (Some latest) rest = Some lastObs
      /\ In lastObs (latest :: rest)
      /\ Forall (fun o => (Date_parse (DynamicLogo.date o)
                           <=? Date_parse (DynamicLogo.date lastObs)) = true)
           (latest :: rest).
Proof.
  induction rest as [| o rest IH]; intros latest V F.
  - exists latest. split; [reflexivity |]. split; [left; reflexivity |].
    constructor; [| constructor].
    destruct (Date_parse (DynamicLogo.date latest)) as [| | | q]; try discriminate V.
    apply Qle_bool_iff. lra.
  - inversion F as [| ? ? Vo F']; subst. cbn [DynamicLogo.reduce_latest].
    destruct (Date_parse (DynamicLogo.date o)) as [| | | to] eqn:Eo; try discriminate Vo.
    destruct (Date_parse (DynamicLogo.date latest)) as [| | | tl] eqn:El;
      try discriminate V.
    change (Fin to >? Fin tl) with (negb (Qle_bool to tl)).
    destruct (Qle_bool to tl) eqn:T;
      [apply Qle_bool_iff in T | apply Qle_bool_false in T]; cbn [negb].
    + destruct (IH latest) as (lastObs & R & I & A); [rewrite El; reflexivity | exact F' |].
      exists lastObs. split; [exact R |].
      split; [destruct I as [I | I]; [left; exact I | right; right; exact I] |].
      inversion A as [| ? ? A1 A2]; subst.
      constructor; [exact A1 |]. constructor; [| exact A2].
      rewrite Eo. rewrite El in A1.
      destruct (Date_parse (DynamicLogo.date lastObs)) as [| | | t];
        try discriminate A1; try reflexivity.
      apply Qle_bool_iff in A1. apply Qle_bool_iff. lra.
    + destruct (IH o) as (lastObs & R & I & A); [rewrite Eo; reflexivity | exact F' |].
      exists lastObs. split; [exact R |].
      split; [right; exact I |].
      inversion A as [| ? ? A1 A2]; subst.
      constructor; [| constructor; [exact A1 | exact A2]].
      rewrite El. rewrite Eo in A1.
      destruct (Date_parse (DynamicLogo.date lastObs)) as [| | | t];
        try discriminate A1; try reflexivity.
      apply Qle_bool_iff in A1. apply Qle_bool_iff. lra.
Qed.

(** X25: [finalIndexLevel] reads the observation with the latest date,
    wherever it stands in the list: for a non-empty list of observations
    with valid dates there is an observation of the list that no other one
    is dated after, and [finalIndexLevel] is its [hurdle_percent] when that
    is finite and 100 otherwise. *)
Theorem finalIndexLevel_latest (observations : list DynamicLogo.Observation) :
  observations <> [] ->
  Forall (fun o => Number_isFinite (Date_parse (DynamicLogo.date o)) = true) observations ->
  exists lastObs,
    In lastObs observations
    /\ Forall (fun o => (Date_parse (DynamicLogo.date o)
                         <=? Date_parse (DynamicLogo.date lastObs)) = true)
         observations
    /\ DynamicLogo.finalIndexLevel Date_parse observations
       = (if Number_isFinite (DynamicLogo.hurdle_percent lastObs)
          then DynamicLogo.hurdle_percent lastObs else 100).
Proof.
  intros N F. destruct observations as [| o rest]; [congruence |].
  inversion F as [| ? ? Vo F']; subst.
  destruct (reduce_latest_latest rest o Vo F') as (lastObs & R & I & A).
  exists lastObs. split; [exact I |]. split; [exact A |].
  unfold DynamicLogo.finalIndexLevel.
  change (DynamicLogo.reduce_latest Date_parse None (o :: rest))
    with (DynamicLogo.reduce_latest Date_parse (Some o) rest).
  rewrite R. reflexivity.
Qed.

End LevelArrows.

Lemma finalIndexLevel_latest_witness :
  exists lastObs,
    In lastObs
      [DynamicLogo.mkObservation "2026-01-01T00:00:00Z" 80 false;
       DynamicLogo.mkObservation "2025-01-01T00:00:00Z" 95 true]
    /\ DynamicLogo.finalIndexLevel Date_parse_utc
         [DynamicLogo.mkObservation "2026-01-01T00:00:00Z" 80 false;
          DynamicLogo.mkObservation "2025-01-01T00:00:00Z" 95 true]
       = (if Number_isFinite (DynamicLogo.hurdle_percent lastObs)
          then DynamicLogo.hurdle_percent lastObs else 100).
Proof.
  destruct (finalIndexLevel_latest Date_parse_utc
              [DynamicLogo.mkObservation "2026-01-01T00:00:00Z" 80 false;
               DynamicLogo.mkObservation "2025-01-01T00:00:00Z" 95 true])
    as (lastObs & I & _ & E).
  { discriminate. }
  { constructor; [reflexivity |]. constructor; [reflexivity | constructor]. }
  exists lastObs. split; [exact I | exact E].
Defined.

(** X26: the N indicator of [renderHurdles]: it is drawn exactly when the
    product is not called and some observation is not triggered, for the
    first such observation of the list, at
    [mapPerformanceToAngle(hurdle_percent - 100)], which is the angle
    [mapHurdlePercentToAngle(hurdle_percent)] that [nextObsAngle] gives
    for that observation: for a finite hurdle the two angles are the
    same. *)
Theorem nextAngle_of_first_untriggered
    (observations : list DynamicLogo.Observation) (is_called : bool) :
  match DynamicLogo.nextAngle observations is_called with
  | Some a =>
      is_called = false
      /\ exists nextObs,
           find (fun obs => negb (DynamicLogo.triggered obs)) observations = Some nextObs
           /\ In nextObs observations
           /\ DynamicLogo.triggered nextObs = false
           /\ a == Geometry.mapHurdlePercentToAngle (DynamicLogo.hurdle_percent nextObs)
           /\ (Number_isFinite (DynamicLogo.hurdle_percent nextObs) = true ->
               exists b, DynamicLogo.nextObsAngle (Some nextObs) = Some b
                         /\ a == b)
  | None =>
      is_called = true
      \/ Forall (fun obs => DynamicLogo.triggered obs = true) observations
  end.
Proof.
  unfold DynamicLogo.nextAngle.
  destruct (find (fun obs => negb (DynamicLogo.triggered obs)) observations)
    as [nextObs |] eqn:F.
  - destruct is_called; cbn [negb]; [left; reflexivity |].
    split; [reflexivity |]. exists nextObs.
    destruct (find_some _ _ F) as [I T]. apply negb_true_iff in T.
    split; [reflexivity |]. split; [exact I |]. split; [exact T |].
    split; [apply same_sym, hurdle_shifted_number |].
    intros V. unfold DynamicLogo.nextObsAngle. cbv zeta. rewrite V. cbn [negb].
    eexists. split; [reflexivity |].
    apply same_sym, hurdle_shifted_number.
  - right. apply Forall_forall. intros obs I.
    apply (find_none _ _ F) in I. apply negb_false_iff in I. exact I.
Qed.
